(** * Tornado-Three.js: the tornado force field and the building registry

    A shallow embedding of the force-field engine ([Tornado], the class of
    [src/unnamed/part_002], the growth-ceiling variant) and of the building
    registry ([BuildingSlots] in [src/scripts/controles_mov.js], with the
    [ModelLoader] of [src/scripts/model_loader.js] it loads assets through).

    Numbers.  A JavaScript number is modelled as a real number: arithmetic is
    exact, there is no rounding, no overflow and no NaN.  [Math.random()] is a
    stream [rnd : nat -> R] read through a cursor that every draw advances.

    Objects.  three.js vectors are values ([clone] is the identity); objects
    with identity that the code shares (buildings, slots, scene nodes, physics
    bodies) carry a handle or a stamp, see [Module Registry].

    Dictionaries.  The registries of the program are plain objects read and
    written as [obj[key]].  The maps that model them hold the own keys; a key
    that names a property every object inherits ([Registry.inheritedNames])
    is outside the model, see [Runtime.plainKey]. *)

From Stdlib Require Import Reals Lra Psatz.
From stdpp Require Import gmap strings list pretty.

#[local] Set Warnings "-abstract-large-number".

#[global] Instance Rlt_decision (x y : R) : Decision (x < y)%R := Rlt_dec x y.
#[global] Instance Rgt_decision (x y : R) : Decision (x > y)%R := Rgt_dec x y.
#[global] Instance R_eq_decision : EqDecision R := Req_dec_T.

(** ** three.js [Vector3] and the [Math] functions the code calls *)

Module Three.
Local Open Scope R_scope.

Record Vector3 := Vec3 { vx : R; vy : R; vz : R }.

Definition zero3 : Vector3 := Vec3 0 0 0.

(** [v.clone()]: a fresh vector with the same components. *)
Definition clone (v : Vector3) : Vector3 := v.

(** [a.sub(b)] *)
Definition sub (a b : Vector3) : Vector3 :=
  Vec3 (vx a - vx b) (vy a - vy b) (vz a - vz b).

(** [a.add(b)] *)
Definition add (a b : Vector3) : Vector3 :=
  Vec3 (vx a + vx b) (vy a + vy b) (vz a + vz b).

(** [v.length()] *)
Definition length3 (v : Vector3) : R :=
  sqrt (vx v * vx v + vy v * vy v + vz v * vz v).

(** [v.multiplyScalar(s)] *)
Definition multiplyScalar (v : Vector3) (s : R) : Vector3 :=
  Vec3 (vx v * s) (vy v * s) (vz v * s).

(** [v.divideScalar(s)] is [v.multiplyScalar(1 / s)]. *)
Definition divideScalar (v : Vector3) (s : R) : Vector3 :=
  multiplyScalar v (1 / s).

(** [v.normalize()] is [v.divideScalar(v.length() || 1)]. *)
Definition normalize (v : Vector3) : Vector3 :=
  divideScalar v (if decide (length3 v = 0) then 1 else length3 v).

(** [a.addScaledVector(v, s)] *)
Definition addScaledVector (a v : Vector3) (s : R) : Vector3 :=
  Vec3 (vx a + vx v * s) (vy a + vy v * s) (vz a + vz v * s).

(** [a.cross(b)], the vector product (the same in three.js and in the
    [Vec3] of cannon-es). *)
Definition cross (a b : Vector3) : Vector3 :=
  Vec3 (vy a * vz b - vz a * vy b)
       (vz a * vx b - vx a * vz b)
       (vx a * vy b - vy a * vx b).

(** [a.distanceTo(b)]: the Euclidean distance in all three coordinates. *)
Definition distanceTo (a b : Vector3) : R :=
  let dx := vx a - vx b in
  let dy := vy a - vy b in
  let dz := vz a - vz b in
  sqrt (dx * dx + dy * dy + dz * dz).

Definition set_x (v : Vector3) (x : R) : Vector3 := Vec3 x (vy v) (vz v).
Definition set_y (v : Vector3) (y : R) : Vector3 := Vec3 (vx v) y (vz v).
Definition set_z (v : Vector3) (z : R) : Vector3 := Vec3 (vx v) (vy v) z.

(** Not a three.js method: the horizontal distance of the specification,
    the y coordinates ignored. *)
Definition planarDistance (a b : Vector3) : R :=
  let dx := vx a - vx b in
  let dz := vz a - vz b in
  sqrt (dx * dx + dz * dz).

(** [Math.pow(x, y)] at the fractional exponents the code uses (0.7 and 1.5),
    for a base that is not negative: 0 at base 0, [exp (y * ln x)] above.
    (The code calls it on [Math.random()] and on [height / maxHeight] only.) *)
Definition Math_pow (x y : R) : R :=
  if decide (x = 0) then 0 else Rpower x y.

(** [Math.pow(x, 2)] *)
Definition Math_pow2 (x : R) : R := x ^ 2.

(** [Math.min(a, b)] *)
Definition Math_min (a b : R) : R := Rmin a b.

(** [generateUUID()] reads [Math.random()] four times.  The constructor of
    every three.js geometry, material and scene object ([BufferGeometry],
    [Material], [Object3D] and their subclasses) calls it once. *)
Definition uuidDraws : nat := 4.

End Three.

(** ** The tornado: particle pool and analytic force field *)

Module TornadoField.
Import Three.
Local Open Scope R_scope.

Record Particle := mkParticle {
  angle : R;
  height : R;
  targetRadiusFactor : R;
  spinSpeed : R;
  upwardSpeed : R;
  phase : R;
  turbulenceOffset : R;
  radialOscillation : R;
  radialPhase : R;
  chaosInitial : R;
  chaosFactor : R;
  chaosXFactor : R;
  chaosZFactor : R;
  chaosYFactor : R
}.

(** The fields of a [Tornado].  [positions] is the position attribute of the
    point cloud, one vector per particle (in the source a [Float32Array] of
    three numbers per particle).  The mesh, its material and the scene it is
    added to are rendering only and are left out. *)
Record Tornado := mkTornado {
  particleCount : nat;
  maxHeight : R;
  maxRadius : R;
  coreRadius : R;
  position : Vector3;
  velocity : Vector3;
  tornadoForceStrength : R;
  time : R;
  formationTime : R;
  formationDuration : R;
  particles : list Particle;
  positions : list Vector3
}.

Definition set_pool (t : Tornado) (n : nat) (ps : list Particle)
    (buf : list Vector3) : Tornado :=
  mkTornado n (maxHeight t) (maxRadius t) (coreRadius t) (position t)
    (velocity t) (tornadoForceStrength t) (time t) (formationTime t)
    (formationDuration t) ps buf.

Definition set_clock (t : Tornado) (tm ft : R) : Tornado :=
  mkTornado (particleCount t) (maxHeight t) (maxRadius t) (coreRadius t)
    (position t) (velocity t) (tornadoForceStrength t) tm ft
    (formationDuration t) (particles t) (positions t).

Definition set_position (t : Tornado) (p : Vector3) : Tornado :=
  mkTornado (particleCount t) (maxHeight t) (maxRadius t) (coreRadius t)
    p (velocity t) (tornadoForceStrength t) (time t) (formationTime t)
    (formationDuration t) (particles t) (positions t).

(** [calculateMaxRadius(height)] *)
Definition calculateMaxRadius (t : Tornado) (h : R) : R :=
  let normalized := h / maxHeight t in
  let profile := 0.15 + Math_pow normalized 0.7 * 0.85 in
  maxRadius t * profile.

(** [calculateAngularVelocity(radius, maxRadiusAtHeight, baseSpeed)].  The
    quotient [radius / maxRadiusAtHeight] is a real number only for a divisor
    other than 0.  With the divisor 0 and a radius other than 0 the quotient
    of the source is an infinity, and so is the argument of [Math.exp], whose
    value is then 0: the profile is 0.  With both 0 the quotient is NaN and
    so is the result, which the number model does not have; the profile 0 is
    what the model puts there, and no theorem below relies on it. *)
Definition calculateAngularVelocity (radius maxRadiusAtHeight baseSpeed : R)
    : R :=
  let velocityProfile :=
    if decide (maxRadiusAtHeight = 0) then 0
    else
      let normalized := radius / maxRadiusAtHeight in
      exp (- Math_pow2 ((normalized - 0.8) * 3)) in
  baseSpeed * (0.3 + velocityProfile * 2).

(** What [calculateForceOnObject] returns: [{ force, torque }]. *)
Record ForceResult := mkForceResult { force : Vector3; torque : Vector3 }.

(** The guard of [calculateForceOnObject]: the planar distance between the
    query and the tornado axis (the tornado position moved to the query's
    height). *)
Definition distanceToAxis (t : Tornado) (objectPos : Vector3) : R :=
  let tornadoCenter := set_y (clone (position t)) (vy objectPos) in
  length3 (sub (clone tornadoCenter) objectPos).

(** [falloff] as computed inside the guarded branch. *)
Definition falloffAt (t : Tornado) (distance : R) : R :=
  let normalizedDistance := distance / maxRadius t in
  Math_pow2 (1 - normalizedDistance).

(** [calculateForceOnObject(objectPos, mass)].  The second component lists
    the length of every vector [normalize()] was called on, in call order. *)
Definition calculateForceOnObject_traced (t : Tornado) (objectPos : Vector3)
    (mass : R) : ForceResult * list R :=
  let force := zero3 in
  let torque := zero3 in
  let tornadoCenter := set_y (clone (position t)) (vy objectPos) in
  let dirToCenter := sub (clone tornadoCenter) objectPos in
  let distance := length3 dirToCenter in
  if decide (distance < maxRadius t /\ distance > 0.1) then
    let normalized := normalize dirToCenter in
    let normalizedDistance := distance / maxRadius t in
    let falloff := Math_pow2 (1 - normalizedDistance) in
    let baseForce := (tornadoForceStrength t * falloff) / mass in
    let force := addScaledVector force normalized (baseForce * 0.7) in
    let liftForce := (200 * falloff) / mass in
    let force := set_y force (vy force + liftForce) in
    let tangential := Vec3 (- vz normalized) 0 (vx normalized) in
    let force := addScaledVector force tangential (baseForce * 0.5) in
    let torque := set_y torque (baseForce * 1.2) in
    let torque := set_x torque (sin (time t * 2) * baseForce * 0.3) in
    let torque := set_z torque (cos (time t * 2) * baseForce * 0.3) in
    (mkForceResult force torque, [length3 dirToCenter])
  else (mkForceResult force torque, []).

Definition calculateForceOnObject (t : Tornado) (objectPos : Vector3)
    (mass : R) : ForceResult :=
  fst (calculateForceOnObject_traced t objectPos mass).

Definition normalizedLengths (t : Tornado) (objectPos : Vector3) (mass : R)
    : list R :=
  snd (calculateForceOnObject_traced t objectPos mass).

Section Pool.

(** [Math.random()]: the n-th draw of the run. *)
Variable rnd : nat -> R.

(** One iteration of the loop of [createGeometryAndMesh], with the cursor [c]
    of the random stream: the particle pushed, the position written and the
    cursor after the fifteen draws. *)
Definition createParticle (t : Tornado) (c : nat)
    : Particle * Vector3 * nat :=
  let randomHeight := Math_pow (rnd c) 1.5 * maxHeight t in
  let particle := {|
    angle := rnd (c + 1) * 2 * PI;
    height := randomHeight;
    targetRadiusFactor := 0.7 + rnd (c + 2) * 0.3;
    spinSpeed := 2.0 + rnd (c + 3) * 2.5;
    upwardSpeed := 3.0 + rnd (c + 4) * 3.0;
    phase := rnd (c + 5) * PI * 2;
    turbulenceOffset := rnd (c + 6) * 10;
    radialOscillation := rnd (c + 7) * 0.5;
    radialPhase := rnd (c + 8) * PI * 2;
    chaosInitial := rnd (c + 9) * 5;
    chaosFactor := 2.0;
    chaosXFactor := rnd (c + 10) - 0.5;
    chaosZFactor := rnd (c + 11) - 0.5;
    chaosYFactor := rnd (c + 12) - 0.5
  |} in
  let y := height particle in
  let baseRadius := calculateMaxRadius t y in
  let initialChaosX := (rnd (c + 13) - 0.5) * chaosInitial particle in
  let initialChaosZ := (rnd (c + 14) - 0.5) * chaosInitial particle in
  let radius := baseRadius * targetRadiusFactor particle in
  let x := radius * cos (angle particle) + initialChaosX in
  let z := radius * sin (angle particle) + initialChaosZ in
  (particle, Vec3 x y z, (c + 15)%nat).

(** The loop [for (i = 0; i < particleCount; i++)] of
    [createGeometryAndMesh], [n] iterations from cursor [c]. *)
Fixpoint createParticles (t : Tornado) (n : nat) (c : nat)
    : list Particle * list Vector3 * nat :=
  match n with
  | O => ([], [], c)
  | S n' =>
      let '(p, pos, c1) := createParticle t c in
      let '(ps, buf, c2) := createParticles t n' c1 in
      (p :: ps, pos :: buf, c2)
  end.

(** [createGeometryAndMesh()]: a new pool and a new position buffer of
    [particleCount] entries.  The three three.js objects it constructs take
    their identifiers from [Math.random()] too: the geometry before the loop,
    the material and the point cloud after it. *)
Definition createGeometryAndMesh (t : Tornado) (c : nat) : Tornado * nat :=
  let c := (c + uuidDraws)%nat in (* new THREE.BufferGeometry() *)
  let '(ps, buf, c) := createParticles t (particleCount t) c in
  let c := (c + uuidDraws)%nat in (* new THREE.PointsMaterial(...) *)
  let c := (c + uuidDraws)%nat in (* new THREE.Points(geometry, material) *)
  (set_pool t (particleCount t) ps buf, c).

(** [new Tornado(scene)]: the class field initialisers, then the constructor
    body. *)
Definition new_Tornado (c : nat) : Tornado * nat :=
  createGeometryAndMesh
    {| particleCount := 10000;
       maxHeight := 50;
       maxRadius := 30;
       coreRadius := 5.0;
       position := Vec3 0 0 80;
       velocity := Vec3 0 0 0;
       tornadoForceStrength := 1500;
       time := 0;
       formationTime := 0;
       formationDuration := 0.01;
       particles := [];
       positions := [] |} c.

(** The recycle branch of [update]: height back to 0, angle and both phases
    drawn again. *)
Definition recycle (p : Particle) (c : nat) : Particle * nat :=
  (mkParticle (rnd c * 2 * PI) 0 (targetRadiusFactor p) (spinSpeed p)
     (upwardSpeed p) (rnd (c + 1) * PI * 2) (turbulenceOffset p)
     (radialOscillation p) (rnd (c + 2) * PI * 2) (chaosInitial p)
     (chaosFactor p) (chaosXFactor p) (chaosZFactor p) (chaosYFactor p),
   (c + 3)%nat).

Definition set_height (p : Particle) (h : R) : Particle :=
  mkParticle (angle p) h (targetRadiusFactor p) (spinSpeed p)
    (upwardSpeed p) (phase p) (turbulenceOffset p) (radialOscillation p)
    (radialPhase p) (chaosInitial p) (chaosFactor p) (chaosXFactor p)
    (chaosZFactor p) (chaosYFactor p).

Definition set_chaosFactor (p : Particle) (f : R) : Particle :=
  mkParticle (angle p) (height p) (targetRadiusFactor p) (spinSpeed p)
    (upwardSpeed p) (phase p) (turbulenceOffset p) (radialOscillation p)
    (radialPhase p) (chaosInitial p) f (chaosXFactor p)
    (chaosZFactor p) (chaosYFactor p).

Definition set_angle (p : Particle) (a : R) : Particle :=
  mkParticle a (height p) (targetRadiusFactor p) (spinSpeed p)
    (upwardSpeed p) (phase p) (turbulenceOffset p) (radialOscillation p)
    (radialPhase p) (chaosInitial p) (chaosFactor p) (chaosXFactor p)
    (chaosZFactor p) (chaosYFactor p).

(** The body of the particle loop of [update(delta)] for one particle; [t]
    is the tornado after its clocks and position were advanced. *)
Definition updateParticle (t : Tornado) (delta currentCeiling
    globalChaosFactor : R) (p : Particle) (c : nat)
    : Particle * Vector3 * nat :=
  let p := set_chaosFactor p globalChaosFactor in
  let p := set_height p (height p + upwardSpeed p * delta) in
  let '(p, c) :=
    if decide (height p > maxHeight t \/ height p > currentCeiling)
    then recycle p c else (p, c) in
  let maxRadiusAtHeight := calculateMaxRadius t (height p) in
  let oscillation := sin (time t * 2 + radialPhase p) * radialOscillation p in
  let targetRadius :=
    maxRadiusAtHeight * (targetRadiusFactor p + oscillation * 0.1) in
  let angularVel :=
    calculateAngularVelocity targetRadius maxRadiusAtHeight (spinSpeed p) in
  let p := set_angle p (angle p + angularVel * delta) in
  let turbStrength := 0.08 in
  let turbFreq := 2.5 in
  let turbulenceX :=
    sin (time t * turbFreq + turbulenceOffset p) * turbStrength in
  let turbulenceZ :=
    cos (time t * turbFreq * 1.3 + turbulenceOffset p) * turbStrength in
  let chaosStrength := 2.0 * chaosFactor p in
  let chaosX := chaosXFactor p * chaosStrength in
  let chaosZ := chaosZFactor p * chaosStrength in
  let chaosY := chaosYFactor p * chaosStrength * 0.5 in
  let helixAmp := 0.5 in
  let helixFreq := 10 in
  let helixOffset := sin (angle p * helixFreq + phase p) * helixAmp in
  let x := targetRadius * cos (angle p) + turbulenceX + chaosX
           + vx (position t) in
  let z := targetRadius * sin (angle p) + turbulenceZ + chaosZ
           + vz (position t) in
  let y := height p + helixOffset + chaosY + vy (position t) in
  (p, Vec3 x y z, c).

(** The loop [for (i = 0; i < particleCount; i++)] of [update]: [n]
    iterations over the pool, in index order.  [particles[i]] past the end of
    the pool is [undefined] and the first write to it raises a TypeError
    ([None]); particles past the count are left as they are. *)
Fixpoint updateParticles (t : Tornado) (delta currentCeiling
    globalChaosFactor : R) (n : nat) (ps : list Particle) (c : nat)
    : option (list Particle * list Vector3 * nat) :=
  match n with
  | O => Some (ps, [], c)
  | S n' =>
      match ps with
      | [] => None
      | p :: rest =>
          let '(p', pos, c1) :=
            updateParticle t delta currentCeiling globalChaosFactor p c in
          match updateParticles t delta currentCeiling globalChaosFactor
                  n' rest c1 with
          | None => None
          | Some (rest', buf, c2) => Some (p' :: rest', pos :: buf, c2)
          end
      end
  end.

(** Writing [written] at the front of the position buffer [old]: a typed
    array keeps its length, a write past its end is dropped. *)
Definition writePositions (old written : list Vector3) : list Vector3 :=
  take (length old) (written ++ drop (length written) old).

(** [update(delta)] *)
Definition update (delta : R) (t : Tornado) (c : nat)
    : option (Tornado * nat) :=
  let t := set_clock t (time t + delta) (formationTime t + delta) in
  let t := set_position t (addScaledVector (position t) (velocity t) delta) in
  let progress := Math_min (formationTime t / formationDuration t) 1.0 in
  let currentCeiling := maxHeight t * progress in
  let globalChaosFactor := 1 - progress in
  match updateParticles t delta currentCeiling globalChaosFactor
          (particleCount t) (particles t) c with
  | None => None
  | Some (ps, written, c') =>
      Some (set_pool t (particleCount t) ps
              (writePositions (positions t) written), c')
  end.

(** [setParticleCount(newCount)] *)
Definition setParticleCount (newCount : nat) (t : Tornado) (c : nat)
    : Tornado * nat :=
  if decide (newCount = particleCount t) then (t, c)
  else
    let t := set_pool t newCount (particles t) (positions t) in
    let '(t, c') := createGeometryAndMesh t c in
    (set_clock t 0 0, c').

(** What the frame loop and the parameter panel do to a tornado. *)
Inductive TornadoOp :=
  | OpUpdate (delta : R)
  | OpSetParticleCount (newCount : nat).

Definition runOp (op : TornadoOp) (t : Tornado) (c : nat)
    : option (Tornado * nat) :=
  match op with
  | OpUpdate delta => update delta t c
  | OpSetParticleCount n => Some (setParticleCount n t c)
  end.

Fixpoint runOps (ops : list TornadoOp) (t : Tornado) (c : nat)
    : option (Tornado * nat) :=
  match ops with
  | [] => Some (t, c)
  | op :: rest =>
      match runOp op t c with
      | None => None
      | Some (t', c') => runOps rest t' c'
      end
  end.

End Pool.

(** An update with a time delta that is not negative. *)
Definition opNonneg (op : TornadoOp) : Prop :=
  match op with
  | OpUpdate delta => 0 <= delta
  | OpSetParticleCount _ => True
  end.


(** *** Auxiliary notions the statements use *)

(** The tornado of the scenarios: class defaults of the first variant, the
    axis at the origin, no particles. *)
Definition scenarioTornado : Tornado :=
  {| particleCount := 0;
     maxHeight := 90;
     maxRadius := 30;
     coreRadius := 5.0;
     position := Vec3 0 0 0;
     velocity := Vec3 0 0 0;
     tornadoForceStrength := 150000;
     time := 0;
     formationTime := 0;
     formationDuration := 3;
     particles := [];
     positions := [] |}.

(** Squared length of the force: the mass enters as the factor [(/ mass)^2]
    in front of a quantity that does not depend on it. *)
Definition massFreeSquare (t : Tornado) (objectPos : Vector3) : R :=
  let d := distanceToAxis t objectPos in
  let n := normalize (sub (set_y (position t) (vy objectPos)) objectPos) in
  let f := falloffAt t d in
  let g := tornadoForceStrength t * f in
  (vx n * (g * 0.7) - vz n * (g * 0.5)) ^ 2
  + (200 * f) ^ 2
  + (vz n * (g * 0.7) + vx n * (g * 0.5)) ^ 2.

(** A particle within the height range, rising. *)
Definition particleOk (t : Tornado) (p : Particle) : Prop :=
  0 <= height p <= maxHeight t /\ 0 <= upwardSpeed p.

(** The pool invariant: one particle per count, each within range. *)
Definition poolOk (t : Tornado) : Prop :=
  0 <= maxHeight t
  /\ particleCount t = length (particles t)
  /\ Forall (particleOk t) (particles t).

End TornadoField.

(** ** The building registry, the model loader, the scene and the physics
    world *)

Module Registry.
Import Three TornadoField.
Local Open Scope R_scope.

(** *** Completions, objects, values *)

(** How a call ends: normally, or by a thrown error.  Either way the state is
    the one the call left behind. *)
Inductive Completion (A : Type) :=
  | Normal (a : A)
  | Throw (error : string) (a : A).
Arguments Normal {A} a.
Arguments Throw {A} error a.

Definition stateOf {A : Type} (r : Completion A) : A :=
  match r with Normal a => a | Throw _ a => a end.

Definition andThen {A : Type} (r : Completion A) (k : A -> Completion A)
    : Completion A :=
  match r with Normal a => k a | Throw e a => Throw e a end.

(** The property names a plain object inherits from [Object.prototype].
    Reading [obj[key]] under one of them finds the inherited function (for
    ["__proto__"], the prototype itself) where the object has no such key of
    its own, and writing under ["__proto__"] replaces the prototype instead
    of adding a key. *)
Definition inheritedNames : list string :=
  ["constructor"; "__defineGetter__"; "__defineSetter__"; "hasOwnProperty";
   "__lookupGetter__"; "__lookupSetter__"; "isPrototypeOf";
   "propertyIsEnumerable"; "toString"; "valueOf"; "__proto__";
   "toLocaleString"].

(** A JavaScript object used as a dictionary that the code also enumerates
    ([Object.entries]): its own keys in insertion order, no key twice.
    [objGet] is [obj[key]] for a key that is not one of [inheritedNames]. *)
Fixpoint objGet {V : Type} (k : string) (o : list (string * V)) : option V :=
  match o with
  | [] => None
  | (k', v) :: rest => if decide (k' = k) then Some v else objGet k rest
  end.

Fixpoint objSet {V : Type} (k : string) (v : V) (o : list (string * V))
    : list (string * V) :=
  match o with
  | [] => [(k, v)]
  | (k', v') :: rest =>
      if decide (k' = k) then (k, v) :: rest else (k', v') :: objSet k v rest
  end.

Fixpoint objDelete {V : Type} (k : string) (o : list (string * V))
    : list (string * V) :=
  match o with
  | [] => []
  | (k', v') :: rest =>
      if decide (k' = k) then rest else (k', v') :: objDelete k rest
  end.

(** [array.indexOf(x)] followed by [splice(index, 1)] when found. *)
Fixpoint removeFirst (x : nat) (l : list nat) : list nat :=
  match l with
  | [] => []
  | y :: rest => if decide (y = x) then rest else y :: removeFirst x rest
  end.

(** three.js [Quaternion]; [v.applyQuaternion(q)]. *)
Record Quaternion := Quat { qx : R; qy : R; qz : R; qw : R }.

Definition identityQuaternion : Quaternion := Quat 0 0 0 1.

Definition applyQuaternion (v : Vector3) (q : Quaternion) : Vector3 :=
  let tx := 2 * (qy q * vz v - qz q * vy v) in
  let ty := 2 * (qz q * vx v - qx q * vz v) in
  let tz := 2 * (qx q * vy v - qy q * vx v) in
  Vec3 (vx v + qw q * tx + qy q * tz - qz q * ty)
       (vy v + qw q * ty + qz q * tx - qx q * tz)
       (vz v + qw q * tz + qx q * ty - qy q * tx).

(** Handles: the identity of a three.js [Object3D] and of a [CANNON.Body]
    is its index in the store of the world. *)
Abbreviation NodeId := nat (only parsing).
Abbreviation BodyId := nat (only parsing).

(** An entry of [crackedBodies]: [{ mesh: child, body: pieceBody }]. *)
Record DebrisPart := mkDebrisPart { mesh : NodeId; body : BodyId }.

(** The values a property of the modelled objects can hold. *)
Inductive JsValue :=
  | JNode (n : NodeId)
  | JBody (b : BodyId)
  | JString (s : string)
  | JPart (d : DebrisPart).

(** JavaScript truthiness of a property read ([None] is [undefined]). *)
Definition truthy (v : option JsValue) : bool :=
  match v with
  | None => false
  | Some (JString s) => negb (String.eqb s "")
  | Some _ => true
  end.

(** *** Scene nodes and physics bodies *)

(** [geometry.boundingBox] *)
Record Box3 := mkBox3 { boxMin : Vector3; boxMax : Vector3 }.

(** [box.getSize(target)] and [box.getCenter(target)] of a box that is not
    empty. *)
Definition getSize (b : Box3) : Vector3 := sub (boxMax b) (boxMin b).
Definition getCenter (b : Box3) : Vector3 :=
  multiplyScalar (add (boxMin b) (boxMax b)) 0.5.

(** [geometry.translate(x, y, z)], as far as the bounding box goes. *)
Definition translateBox (b : Box3) (d : Vector3) : Box3 :=
  mkBox3 (add (boxMin b) d) (add (boxMax b) d).

(** What the code reads of a mesh: the bounding box of its geometry, and the
    decomposition of its world matrix, which three.js computes from the
    transform of the root of the loaded model (here as a function of the
    position and quaternion given to that root). *)
Record MeshData := mkMeshData {
  geometryBox : Box3;
  worldOf : Vector3 -> Quaternion -> Vector3 * Quaternion * Vector3
}.

(** A three.js node.  [nmesh] is [Some] exactly for a node with [isMesh];
    [nmeshes] lists, for the root of a loaded model, its mesh descendants
    in the order [traverse] visits them. *)
Record Node := mkNode {
  nposition : Vector3;
  nquaternion : Quaternion;
  nscale : Vector3;
  nvisible : bool;
  nmesh : option MeshData;
  nmeshes : list NodeId
}.

(** A [CANNON.Body] of cannon-es.  [bforce] and [btorque] are its two
    accumulators, [body.force] and [body.torque], which the engine reads at
    the next step.  The program creates every body without a [type]: the
    constructor makes it dynamic when its mass is above 0 and static
    otherwise, and nothing writes the mass or the type afterwards.  The world
    is created without [allowSleep], so no body ever sleeps. *)
Record Body := mkBody {
  bmass : R;
  bposition : Vector3;
  bquaternion : Quaternion;
  btorque : Vector3;
  halfExtents : Vector3;
  linearDamping : R;
  angularDamping : R;
  bforce : Vector3
}.

Definition set_btorque (b : Body) (t : Vector3) : Body :=
  mkBody (bmass b) (bposition b) (bquaternion b) t (halfExtents b)
    (linearDamping b) (angularDamping b) (bforce b).

(** [body.applyForce(force, relativePoint)] of cannon-es: nothing on a body
    that is not dynamic; otherwise the force is added to [body.force] and
    [relativePoint.cross(force)] to [body.torque].  The point is taken
    relative to the centre of mass of the body, not in world coordinates. *)
Definition applyForce (force relativePoint : Vector3) (b : Body) : Body :=
  if decide (bmass b > 0) then
    let rotForce := cross relativePoint force in
    mkBody (bmass b) (bposition b) (bquaternion b)
      (add (btorque b) rotForce) (halfExtents b)
      (linearDamping b) (angularDamping b) (add (bforce b) force)
  else b.

(** *** The registry *)

(** An entry of [this.slots].  [slotStamp] is the identity of the object: a
    callback that captured a slot writes to that object, which is the entry
    of the registry only while the stamps agree. *)
Record Slot := mkSlot {
  slotStamp : nat;
  slotPosition : Vector3;
  slotSize : R;
  occupied : bool;
  slotBuildingType : option string;
  slotBuildingId : option string
}.

(** An entry of [this.buildings]. *)
Record BuildingType := mkBuildingType {
  intact : string;
  cracked : string;
  debrisMass : R
}.

(** An entry of [this.slotVisuals]: [{ visual, body: null }]. *)
Record SlotVisual := mkSlotVisual { slotVisual : NodeId }.

(** An entry of [this.buildingVisuals].  [buildingStamp] is the identity of
    the object, as for slots. *)
Record Building := mkBuilding {
  buildingStamp : nat;
  visual : option JsValue;
  buildingBody : option JsValue;
  buildingType : string;
  buildingSlotId : string;
  buildingIntact : string;
  buildingCracked : string;
  damaged : bool;
  crackedBodies : list DebrisPart;
  originalPosition : Vector3
}.

Definition set_damaged (b : Building) (d : bool) : Building :=
  mkBuilding (buildingStamp b) (visual b) (buildingBody b) (buildingType b)
    (buildingSlotId b) (buildingIntact b) (buildingCracked b) d
    (crackedBodies b) (originalPosition b).

Definition set_visual (b : Building) (v : option JsValue) : Building :=
  mkBuilding (buildingStamp b) v (buildingBody b) (buildingType b)
    (buildingSlotId b) (buildingIntact b) (buildingCracked b) (damaged b)
    (crackedBodies b) (originalPosition b).

Definition set_crackedBodies (b : Building) (l : list DebrisPart)
    : Building :=
  mkBuilding (buildingStamp b) (visual b) (buildingBody b) (buildingType b)
    (buildingSlotId b) (buildingIntact b) (buildingCracked b) (damaged b)
    l (originalPosition b).

(** The [onLoad] closures the registry hands to the loader, with what each
    captures. *)
Inductive Callback :=
  | OnPlaced (slotId buildingType buildingId : string) (slotStamp : nat)
      (slotPosition : Vector3) (paths : BuildingType)
  | OnCracked (buildingId : string) (buildingStamp : nat)
      (position : Vector3) (quaternion : Quaternion) (debrisMass : R).

(** The handler given to [.catch] on the promise of a load. *)
Inductive CatchHandler :=
  | CatchSilent
  | CatchConsoleError.

(** A load the GLTF loader has been asked for and has not settled yet. *)
Record LoadRequest := mkLoadRequest {
  loadPath : string;
  loadMass : R;
  loadPosition : Vector3;
  loadScale : R;
  loadFriction : R;
  loadRestitution : R;
  loadOnLoad : option Callback;
  loadCatch : CatchHandler
}.

(** The whole state: the fields of [BuildingSlots], the [loadedModels] of the
    [ModelLoader], the children of the scene and the node store, the bodies
    of the physics world and the body store, the loads in flight, what
    [console.error] printed, the next object stamp and the cursor of the
    random numbers the debris loop draws.  As in [main.js], the registry and the loader share one
    scene and one physics world. *)
Record World := mkWorld {
  slots : gmap string Slot;
  buildings : gmap string BuildingType;
  slotVisuals : gmap string SlotVisual;
  buildingVisuals : list (string * Building);
  tornado : option Tornado;
  damageThreshold : R;
  loadedModels : list (gmap string JsValue);
  sceneChildren : list NodeId;
  nodes : list Node;
  worldBodies : list BodyId;
  bodies : list Body;
  pending : list LoadRequest;
  console : list string;
  nextStamp : nat;
  randomCursor : nat
}.

Definition set_slots (x : gmap string Slot) (w : World) : World :=
  mkWorld x (buildings w) (slotVisuals w) (buildingVisuals w) (tornado w)
    (damageThreshold w) (loadedModels w) (sceneChildren w) (nodes w)
    (worldBodies w) (bodies w) (pending w) (console w) (nextStamp w)
    (randomCursor w).

Definition set_buildings (x : gmap string BuildingType) (w : World) : World :=
  mkWorld (slots w) x (slotVisuals w) (buildingVisuals w) (tornado w)
    (damageThreshold w) (loadedModels w) (sceneChildren w) (nodes w)
    (worldBodies w) (bodies w) (pending w) (console w) (nextStamp w)
    (randomCursor w).

Definition set_slotVisuals (x : gmap string SlotVisual) (w : World) : World :=
  mkWorld (slots w) (buildings w) x (buildingVisuals w) (tornado w)
    (damageThreshold w) (loadedModels w) (sceneChildren w) (nodes w)
    (worldBodies w) (bodies w) (pending w) (console w) (nextStamp w)
    (randomCursor w).

Definition set_buildingVisuals (x : list (string * Building)) (w : World) : World :=
  mkWorld (slots w) (buildings w) (slotVisuals w) x (tornado w)
    (damageThreshold w) (loadedModels w) (sceneChildren w) (nodes w)
    (worldBodies w) (bodies w) (pending w) (console w) (nextStamp w)
    (randomCursor w).

Definition set_tornado (x : option Tornado) (w : World) : World :=
  mkWorld (slots w) (buildings w) (slotVisuals w) (buildingVisuals w) x
    (damageThreshold w) (loadedModels w) (sceneChildren w) (nodes w)
    (worldBodies w) (bodies w) (pending w) (console w) (nextStamp w)
    (randomCursor w).

Definition set_damageThreshold (x : R) (w : World) : World :=
  mkWorld (slots w) (buildings w) (slotVisuals w) (buildingVisuals w)
    (tornado w) x (loadedModels w) (sceneChildren w) (nodes w)
    (worldBodies w) (bodies w) (pending w) (console w) (nextStamp w)
    (randomCursor w).

Definition set_loadedModels (x : list (gmap string JsValue)) (w : World) : World :=
  mkWorld (slots w) (buildings w) (slotVisuals w) (buildingVisuals w)
    (tornado w) (damageThreshold w) x (sceneChildren w) (nodes w)
    (worldBodies w) (bodies w) (pending w) (console w) (nextStamp w)
    (randomCursor w).

Definition set_sceneChildren (x : list NodeId) (w : World) : World :=
  mkWorld (slots w) (buildings w) (slotVisuals w) (buildingVisuals w)
    (tornado w) (damageThreshold w) (loadedModels w) x (nodes w)
    (worldBodies w) (bodies w) (pending w) (console w) (nextStamp w)
    (randomCursor w).

Definition set_nodes (x : list Node) (w : World) : World :=
  mkWorld (slots w) (buildings w) (slotVisuals w) (buildingVisuals w)
    (tornado w) (damageThreshold w) (loadedModels w) (sceneChildren w) x
    (worldBodies w) (bodies w) (pending w) (console w) (nextStamp w)
    (randomCursor w).

Definition set_worldBodies (x : list BodyId) (w : World) : World :=
  mkWorld (slots w) (buildings w) (slotVisuals w) (buildingVisuals w)
    (tornado w) (damageThreshold w) (loadedModels w) (sceneChildren w)
    (nodes w) x (bodies w) (pending w) (console w) (nextStamp w)
    (randomCursor w).

Definition set_bodies (x : list Body) (w : World) : World :=
  mkWorld (slots w) (buildings w) (slotVisuals w) (buildingVisuals w)
    (tornado w) (damageThreshold w) (loadedModels w) (sceneChildren w)
    (nodes w) (worldBodies w) x (pending w) (console w) (nextStamp w)
    (randomCursor w).

Definition set_pending (x : list LoadRequest) (w : World) : World :=
  mkWorld (slots w) (buildings w) (slotVisuals w) (buildingVisuals w)
    (tornado w) (damageThreshold w) (loadedModels w) (sceneChildren w)
    (nodes w) (worldBodies w) (bodies w) x (console w) (nextStamp w)
    (randomCursor w).

Definition set_console (x : list string) (w : World) : World :=
  mkWorld (slots w) (buildings w) (slotVisuals w) (buildingVisuals w)
    (tornado w) (damageThreshold w) (loadedModels w) (sceneChildren w)
    (nodes w) (worldBodies w) (bodies w) (pending w) x (nextStamp w)
    (randomCursor w).

Definition set_nextStamp (x : nat) (w : World) : World :=
  mkWorld (slots w) (buildings w) (slotVisuals w) (buildingVisuals w)
    (tornado w) (damageThreshold w) (loadedModels w) (sceneChildren w)
    (nodes w) (worldBodies w) (bodies w) (pending w) (console w) x
    (randomCursor w).

Definition set_randomCursor (x : nat) (w : World) : World :=
  mkWorld (slots w) (buildings w) (slotVisuals w) (buildingVisuals w)
    (tornado w) (damageThreshold w) (loadedModels w) (sceneChildren w)
    (nodes w) (worldBodies w) (bodies w) (pending w) (console w)
    (nextStamp w) x.

(** *** The scene, the physics world, the stores *)

(** [scene.add(object)]: the object leaves its parent, then becomes the last
    child of the scene. *)
Definition sceneAdd (n : NodeId) (w : World) : World :=
  set_sceneChildren (removeFirst n (sceneChildren w) ++ [n]) w.

(** [scene.remove(object)]: nothing happens when the argument is not among
    the children. *)
Definition sceneRemove (v : option JsValue) (w : World) : World :=
  match v with
  | Some (JNode n) => set_sceneChildren (removeFirst n (sceneChildren w)) w
  | _ => w
  end.

(** [physicsWorld.addBody(body)] *)
Definition worldAddBody (b : BodyId) (w : World) : World :=
  if decide (b ∈ worldBodies w) then w
  else set_worldBodies (worldBodies w ++ [b]) w.

(** [physicsWorld.removeBody(x)]: [bodies.indexOf(x)], then the splice when
    the index is not -1.  An argument that is not a body of the world is
    found at no index. *)
Definition worldRemoveBody (v : JsValue) (w : World) : World :=
  match v with
  | JBody b => set_worldBodies (removeFirst b (worldBodies w)) w
  | _ => w
  end.

(** [if (x) physicsWorld.removeBody(x)] on a property read. *)
Definition removeBodyIf (x : option JsValue) (w : World) : World :=
  match x with
  | Some v => if truthy x then worldRemoveBody v w else w
  | None => w
  end.

Definition allocNode (n : Node) (w : World) : NodeId * World :=
  (length (nodes w), set_nodes (nodes w ++ [n]) w).

Definition allocBody (b : Body) (w : World) : BodyId * World :=
  (length (bodies w), set_bodies (bodies w ++ [b]) w).

(** The node a property holds, when it holds one. *)
Definition nodeOf (v : option JsValue) (w : World) : option Node :=
  match v with
  | Some (JNode n) => nodes w !! n
  | _ => None
  end.

Definition setNodeVisible (n : NodeId) (v : bool) (w : World) : World :=
  set_nodes
    (alter (fun nd => mkNode (nposition nd) (nquaternion nd) (nscale nd) v
                        (nmesh nd) (nmeshes nd)) n (nodes w)) w.

Definition setNodeTransform (n : NodeId) (p : Vector3) (q : Quaternion)
    (w : World) : World :=
  set_nodes
    (alter (fun nd => mkNode p q (nscale nd) (nvisible nd) (nmesh nd)
                        (nmeshes nd)) n (nodes w)) w.

(** A write through a captured slot or building object: it reaches the
    registry when the entry under the key is still that object. *)
Definition writeSlot (slotId : string) (stamp : nat) (f : Slot -> Slot)
    (w : World) : World :=
  match slots w !! slotId with
  | Some slot =>
      if decide (slotStamp slot = stamp)
      then set_slots (<[slotId := f slot]> (slots w)) w else w
  | None => w
  end.

Definition writeBuilding (buildingId : string) (stamp : nat)
    (f : Building -> Building) (w : World) : World :=
  match objGet buildingId (buildingVisuals w) with
  | Some building =>
      if decide (buildingStamp building = stamp)
      then set_buildingVisuals
             (objSet buildingId (f building) (buildingVisuals w)) w
      else w
  | None => w
  end.

(** [x || d] on a number that may be absent. *)
Definition numberOr (x : option R) (d : R) : R :=
  match x with
  | Some v => if decide (v = 0) then d else v
  | None => d
  end.

(** [x || null] on a string that may be absent. *)
Definition stringOrNull (x : option string) : option string :=
  match x with
  | Some s => if decide (s = "") then None else Some s
  | None => None
  end.

(** *** [ModelLoader] *)

(** [load(path, options)]: the promise is pending until the GLTF loader
    settles it; [handler] is what the caller chains with [.catch]. *)
Definition load (path : string) (mass : R) (position : Vector3)
    (scale friction restitution : R) (onLoad : option Callback)
    (handler : CatchHandler) (w : World) : World :=
  set_pending
    (pending w ++ [mkLoadRequest path mass position scale friction
                     restitution onLoad handler]) w.

(** A mesh of a loaded file, and the file as the loader delivers it:
    [assetSize] is the size of the box [Box3.setFromObject] measures. *)
Record Piece := mkPiece {
  piecePosition : Vector3;
  pieceQuaternion : Quaternion;
  pieceScale : Vector3;
  pieceMesh : MeshData
}.

Record Asset := mkAsset { assetSize : Vector3; assetPieces : list Piece }.

Inductive LoadOutcome :=
  | Loaded (asset : Asset)
  | Failed (error : string).

(** [createPhysicsBody(model, mass, friction, restitution)] *)
Definition createPhysicsBody (modelPosition size : Vector3) (mass : R)
    : Body :=
  mkBody mass
    (Vec3 (vx modelPosition) (vy modelPosition) (vz modelPosition))
    identityQuaternion zero3
    (Vec3 (vx size / 2) (vy size / 2) (vz size / 2)) 0.02 0.3 zero3.

(** [gltf.scene] placed in the node store: the root, then its meshes. *)
Definition instantiate (req : LoadRequest) (asset : Asset) (w : World)
    : NodeId * World :=
  let rootId := length (nodes w) in
  let pieceIds := seq (S rootId) (length (assetPieces asset)) in
  let scale := loadScale req in
  let root := mkNode (loadPosition req) identityQuaternion
                (Vec3 scale scale scale) true None pieceIds in
  let pieceNodes :=
    (fun p => mkNode (piecePosition p) (pieceQuaternion p)
                (pieceScale p) true (Some (pieceMesh p)) [])
      <$> assetPieces asset in
  (rootId, set_nodes (nodes w ++ root :: pieceNodes) w).

(** *** [BuildingSlots] *)

(** [new BuildingSlots(...)] next to a new loader, an empty scene and an
    empty physics world. *)
Definition newWorld : World :=
  {| slots := ∅; buildings := ∅; slotVisuals := ∅; buildingVisuals := [];
     tornado := None; damageThreshold := 30; loadedModels := [];
     sceneChildren := []; nodes := []; worldBodies := []; bodies := [];
     pending := []; console := []; nextStamp := 0; randomCursor := 0 |}.

(** [addBuilding(buildingType, paths, options)] *)
Definition addBuilding (buildingType intactPath crackedPath : string)
    (optionsDebrisMass : option R) (w : World) : World :=
  set_buildings
    (<[buildingType := mkBuildingType intactPath crackedPath
                         (numberOr optionsDebrisMass 0.5)]> (buildings w)) w.

(** [setTornado(tornado)] *)
Definition setTornado (t : Tornado) (w : World) : World :=
  set_tornado (Some t) w.

(** [addSlot(slotId, position, options)] *)
Definition addSlot (slotId : string) (position : Vector3)
    (optionsSize : option R) (optionsBuildingType : option string)
    (w : World) : World :=
  let size := numberOr optionsSize 1 in
  let slotSize := 5 * size in
  let half := slotSize / 2 in
  let geometry :=
    mkMeshData (mkBox3 (Vec3 (- half) (- half) (- half)) (Vec3 half half half))
      (fun _ _ => (position, identityQuaternion, Vec3 1 1 1)) in
  let '(visual, w) :=
    allocNode (mkNode position identityQuaternion (Vec3 1 1 1) true
                 (Some geometry) []) w in
  let w := sceneAdd visual w in
  let stamp := nextStamp w in
  let w := set_nextStamp (S stamp) w in
  let w :=
    set_slots (<[slotId := mkSlot stamp position size false
                             (stringOrNull optionsBuildingType) None]>
                 (slots w)) w in
  set_slotVisuals (<[slotId := mkSlotVisual visual]> (slotVisuals w)) w.

(** [this.slotVisuals[slotId].visual.visible = v] *)
Definition setSlotVisible (slotId : string) (v : bool) (w : World)
    : Completion World :=
  match slotVisuals w !! slotId with
  | None => Throw "TypeError" w
  | Some sv => Normal (setNodeVisible (slotVisual sv) v w)
  end.

(** [demolishBuilding(slotId)].  The slot is looked up among the own keys of
    [slots]: what the call does under one of [inheritedNames] is not
    modelled. *)
Definition demolishBuilding (slotId : string) (w : World)
    : Completion World :=
  match slots w !! slotId with
  | None => Throw "TypeError" w
  | Some slot =>
      match occupied slot, stringOrNull (slotBuildingId slot) with
      | true, Some buildingId =>
          let w :=
            match objGet buildingId (buildingVisuals w) with
            | Some building =>
                let w := sceneRemove (visual building) w in
                let w := removeBodyIf (buildingBody building) w in
                let w :=
                  foldl (fun w part => worldRemoveBody (JPart part) w) w
                    (crackedBodies building) in
                set_buildingVisuals
                  (objDelete buildingId (buildingVisuals w)) w
            | None => w
            end in
          let w :=
            set_slots
              (<[slotId := mkSlot (slotStamp slot) (slotPosition slot)
                             (slotSize slot) false None None]> (slots w)) w in
          setSlotVisible slotId true w
      | _, _ => Normal w
      end
  end.

(** [placeBuilding(slotId, buildingType)]; [now] is what [Date.now()]
    returns.  Both keys are looked up among the own keys of the registries:
    what the call does under one of [inheritedNames] is not modelled. *)
Definition placeBuilding (slotId buildingType : string) (now : N)
    (w : World) : Completion World :=
  match slots w !! slotId with
  | None => Throw "TypeError" w
  | Some slot =>
      andThen (if occupied slot then demolishBuilding slotId w else Normal w)
        (fun w =>
           match buildings w !! buildingType with
           | None => Normal w
           | Some buildingPaths =>
               let buildingId :=
                 slotId +:+ "_" +:+ buildingType +:+ "_" +:+ pretty now in
               Normal
                 (load (intact buildingPaths) 0 (slotPosition slot) 1 0.5 0.2
                    (Some (OnPlaced slotId buildingType buildingId
                             (slotStamp slot) (slotPosition slot)
                             buildingPaths))
                    CatchSilent w)
           end)
  end.

(** [damageBuilding(buildingId)].  The id is looked up among the own keys
    of [buildingVisuals]: what the call does under one of [inheritedNames]
    is not modelled. *)
Definition damageBuilding (buildingId : string) (w : World)
    : Completion World :=
  match objGet buildingId (buildingVisuals w) with
  | None => Normal w
  | Some building =>
      if damaged building then Normal w
      else
        let w :=
          set_buildingVisuals
            (objSet buildingId (set_damaged building true)
               (buildingVisuals w)) w in
        match nodeOf (visual building) w with
        | None => Throw "TypeError" w
        | Some node =>
            let position := clone (nposition node) in
            let quaternion := nquaternion node in
            let debrisMass :=
              match buildings w !! buildingType building with
              | Some buildingConfig =>
                  numberOr (Some (debrisMass buildingConfig)) 10
              | None => 10
              end in
            let w := sceneRemove (visual building) w in
            let w := removeBodyIf (buildingBody building) w in
            Normal
              (load (buildingCracked building) 0
                 (Vec3 (vx position) (vy position) (vz position)) 1 0.3 0.3
                 (Some (OnCracked buildingId (buildingStamp building)
                          position quaternion debrisMass))
                 CatchConsoleError w)
        end
  end.

(** The world right after the synchronous part of a damage call on an intact
    building whose visual is the scene node [n]. *)
Definition damagedWorld (buildingId : string) (b : Building) (node : Node)
    (w : World) : World :=
  let w1 :=
    set_buildingVisuals
      (objSet buildingId (set_damaged b true) (buildingVisuals w)) w in
  let w2 := sceneRemove (visual b) w1 in
  let w3 := removeBodyIf (buildingBody b) w2 in
  load (buildingCracked b) 0
    (Vec3 (vx (nposition node)) (vy (nposition node)) (vz (nposition node)))
    1 0.3 0.3
    (Some (OnCracked buildingId (buildingStamp b) (nposition node)
             (nquaternion node)
             match buildings w !! buildingType b with
             | Some cfg => numberOr (Some (debrisMass cfg)) 10
             | None => 10
             end))
    CatchConsoleError w3.

(** *** Settling a load *)

(** The [onLoad] closure of [placeBuilding]. *)
Definition onPlaced (slotId buildingType buildingId : string)
    (stamp : nat) (position : Vector3) (buildingPaths : BuildingType)
    (modelData : gmap string JsValue) (w : World) : Completion World :=
  let fresh := nextStamp w in
  let w := set_nextStamp (S fresh) w in
  let w :=
    set_buildingVisuals
      (objSet buildingId
         (mkBuilding fresh (modelData !! "visual") (modelData !! "body")
            buildingType slotId (intact buildingPaths)
            (cracked buildingPaths) false [] position)
         (buildingVisuals w)) w in
  let w :=
    writeSlot slotId stamp
      (fun slot => mkSlot (slotStamp slot) (slotPosition slot)
                     (slotSize slot) true (Some buildingType)
                     (Some buildingId)) w in
  setSlotVisible slotId false w.

(** One iteration of [debrisParts.forEach] in the [onLoad] closure of
    [damageBuilding], for the mesh [child] of the broken model [root]. *)
Definition makeDebris (buildingId : string) (stamp : nat) (root : NodeId)
    (position : Vector3) (quaternion : Quaternion) (debrisMass : R)
    (child : NodeId) (w : World) : Completion World :=
  match nodes w !! child with
  | None => Throw "TypeError" w
  | Some nd =>
      match nmesh nd with
      | None => Throw "TypeError" w
      | Some md =>
          let '(worldPos, worldQuat, worldScale) :=
            worldOf md position quaternion in
          let box := geometryBox md in
          let size := getSize box in
          let center := getCenter box in
          let md :=
            mkMeshData
              (translateBox box
                 (Vec3 (- vx center) (- vy center) (- vz center)))
              (worldOf md) in
          let centerOffset := applyQuaternion (clone center) worldQuat in
          let realCenterPos := add (clone worldPos) centerOffset in
          let w :=
            set_nodes
              (alter (fun r => mkNode (nposition r) (nquaternion r)
                                 (nscale r) (nvisible r) (nmesh r)
                                 (removeFirst child (nmeshes r)))
                 root (nodes w)) w in
          let w := sceneAdd child w in
          let childPosition :=
            set_y realCenterPos (vy realCenterPos + 0.2) in
          let w :=
            set_nodes
              (<[child := mkNode childPosition worldQuat worldScale
                            (nvisible nd) (Some md) (nmeshes nd)]>
                 (nodes w)) w in
          let physicsSize := multiplyScalar (clone size) 0.85 in
          let '(pieceBody, w) :=
            allocBody
              (mkBody debrisMass childPosition worldQuat zero3
                 (Vec3 (vx physicsSize / 2) (vy physicsSize / 2)
                    (vz physicsSize / 2)) 0.05 0.05 zero3) w in
          let w := worldAddBody pieceBody w in
          Normal
            (writeBuilding buildingId stamp
               (fun b => set_crackedBodies b
                           (crackedBodies b ++ [mkDebrisPart child pieceBody]))
               w)
      end
  end.

(** The [onLoad] closure of [damageBuilding]. *)
Definition onCracked (buildingId : string) (stamp : nat)
    (position : Vector3) (quaternion : Quaternion) (debrisMass : R)
    (crackedData : gmap string JsValue) (w : World) : Completion World :=
  let w :=
    writeBuilding buildingId stamp
      (fun b => set_visual b (crackedData !! "visual")) w in
  match crackedData !! "visual" with
  | Some (JNode root) =>
      let w := setNodeTransform root position quaternion w in
      let w := removeBodyIf (crackedData !! "body") w in
      let w :=
        writeBuilding buildingId stamp (fun b => set_crackedBodies b []) w in
      let debrisParts :=
        match nodes w !! root with
        | Some nd => nmeshes nd
        | None => []
        end in
      foldl (fun r child =>
               andThen r (makeDebris buildingId stamp root position
                            quaternion debrisMass child))
        (Normal w) debrisParts
  | _ => Throw "TypeError" w
  end.

Definition runCallback (cb : Callback) (modelData : gmap string JsValue)
    (w : World) : Completion World :=
  match cb with
  | OnPlaced slotId buildingType buildingId stamp position paths =>
      onPlaced slotId buildingType buildingId stamp position paths
        modelData w
  | OnCracked buildingId stamp position quaternion debrisMass =>
      onCracked buildingId stamp position quaternion debrisMass modelData w
  end.

(** The success callback [load] gives the GLTF loader. *)
Definition onGltfLoaded (req : LoadRequest) (asset : Asset) (w : World)
    : Completion World :=
  let '(model, w) := instantiate req asset w in
  let w := sceneAdd model w in
  let physicsBody :=
    createPhysicsBody (loadPosition req) (assetSize asset) (loadMass req) in
  let '(bodyId, w) := allocBody physicsBody w in
  let w := worldAddBody bodyId w in
  let modelData : gmap string JsValue :=
    {[ "visual" := JNode model; "physics" := JBody bodyId;
       "path" := JString (loadPath req) ]} in
  let w := set_loadedModels (loadedModels w ++ [modelData]) w in
  match loadOnLoad req with
  | Some cb => runCallback cb modelData w
  | None => Normal w
  end.

(** The [.catch] handler of a load: [placeBuilding] swallows the error,
    [damageBuilding] passes it to [console.error]. *)
Definition runCatch (handler : CatchHandler) (error : string) (w : World)
    : World :=
  match handler with
  | CatchSilent => w
  | CatchConsoleError => set_console (console w ++ [error]) w
  end.

(** The GLTF loader settles the [k]-th load in flight.  An error thrown by
    the success callback reaches the loader's error callback, which rejects
    the promise, so it ends in the [.catch] handler as well: nothing a load
    does is thrown into the frame loop. *)
Definition settleLoad (k : nat) (outcome : LoadOutcome) (w : World)
    : World :=
  match pending w !! k with
  | None => w
  | Some req =>
      let w := set_pending (delete k (pending w)) w in
      match outcome with
      | Loaded asset =>
          match onGltfLoaded req asset w with
          | Normal w' => w'
          | Throw error w' => runCatch (loadCatch req) error w'
          end
      | Failed error => runCatch (loadCatch req) error w
      end
  end.

(** *** Per-frame force application *)

(** The body of the loop of [ModelLoader.applyTornadoForces(tornado)] for
    the physics body of one loaded model. *)
Definition modelForces (t : Tornado) (physics : Body) : Body :=
  if decide (bmass physics > 0) then
    let tornadoResult :=
      calculateForceOnObject t (clone (bposition physics)) (bmass physics) in
    let f := force tornadoResult in
    if decide (vx f <> 0 \/ vy f <> 0 \/ vz f <> 0) then
      let lift := Vec3 0 (vy f) 0 in
      let physics :=
        if decide (vy lift <> 0)
        then applyForce lift (bposition physics) physics else physics in
      let horizontal := Vec3 (vx f) 0 (vz f) in
      let physics :=
        if decide (vx horizontal <> 0 \/ vz horizontal <> 0) then
          let offsetPoint := add (bposition physics) (Vec3 0 0.8 0) in
          applyForce horizontal offsetPoint physics
        else physics in
      let tq := btorque physics in
      let tq := set_x tq (vx tq + vx (torque tornadoResult)) in
      let tq := set_y tq (vy tq + vy (torque tornadoResult)) in
      let tq := set_z tq (vz tq + vz (torque tornadoResult)) in
      set_btorque physics tq
    else physics
  else physics.

(** [ModelLoader.applyTornadoForces(tornado)] *)
Definition loaderApplyTornadoForces (t : Tornado) (w : World)
    : Completion World :=
  foldl (fun r (modelData : gmap string JsValue) =>
           andThen r (fun w =>
             match modelData !! "physics" with
             | Some (JBody b) =>
                 Normal (set_bodies (alter (modelForces t) b (bodies w)) w)
             | _ => Throw "TypeError" w
             end))
    (Normal w) (loadedModels w).

Section Frame.

(** [Math.random()] as the debris loop sees it: the n-th number the loop
    draws.  (Between two frames three.js takes identifiers from the same
    generator, for the marker of a new slot and for the objects of a loaded
    model; those draws are not numbered here.) *)
Variable rnd : nat -> R.

(** The body of [crackedBodies.forEach] in
    [BuildingSlots.applyTornadoForces] for the body of one fragment; [c] is
    the cursor of the random stream. *)
Definition debrisForces (t : Tornado) (c : nat) (body : Body) : Body :=
  let debrisPos :=
    Vec3 (vx (bposition body)) (vy (bposition body)) (vz (bposition body)) in
  let tornadoResult := calculateForceOnObject t debrisPos (bmass body) in
  let lift := Vec3 0 (vy (force tornadoResult)) 0 in
  let horizontal :=
    Vec3 (vx (force tornadoResult)) 0 (vz (force tornadoResult)) in
  let body := applyForce lift (bposition body) body in
  let body := applyForce horizontal (bposition body) body in
  let tq := btorque body in
  let tq := set_x tq (vx tq + (rnd c - 0.5) * 10) in
  let tq := set_y tq (vy tq + (rnd (c + 1) - 0.5) * 10) in
  set_btorque body tq.

Definition moveDebrisPart (t : Tornado) (w : World) (debris : DebrisPart)
    : World :=
  let c := randomCursor w in
  set_randomCursor (c + 2)
    (set_bodies (alter (debrisForces t c) (body debris) (bodies w)) w).

(** The first half of the loop body of [BuildingSlots.applyTornadoForces]:
    the proximity test of a building that is not damaged yet. *)
Definition damageScan (t : Tornado) (realBuildingId : string) (w : World)
    : Completion World :=
  match objGet realBuildingId (buildingVisuals w) with
  | None => Normal w
  | Some building =>
      if damaged building then Normal w
      else
        match nodeOf (visual building) w with
        | None => Throw "TypeError" w
        | Some node =>
            let buildingPos := nposition node in
            let tornadoPos := position t in
            let distance := distanceTo buildingPos tornadoPos in
            if decide (distance < damageThreshold w)
            then damageBuilding realBuildingId w
            else Normal w
        end
  end.

(** The second half: the fragments of a damaged building are moved. *)
Definition moveDebris (t : Tornado) (realBuildingId : string) (w : World)
    : World :=
  match objGet realBuildingId (buildingVisuals w) with
  | None => w
  | Some building =>
      if damaged building
      then foldl (moveDebrisPart t) w (crackedBodies building)
      else w
  end.

(** One iteration of the [forEach] of [BuildingSlots.applyTornadoForces],
    after the iterations before it ended as [r]: an error thrown in the
    loop ends it. *)
Definition scanStep (t : Tornado) (r : Completion World)
    (entry : string * Building) : Completion World :=
  andThen r (fun w =>
    andThen (damageScan t entry.1 w) (fun w =>
      Normal (moveDebris t entry.1 w))).

(** [BuildingSlots.applyTornadoForces()].  The loop runs over the entries
    [Object.entries] listed when it started; no iteration adds, removes or
    replaces an entry, so each iteration finds its building under its key. *)
Definition applyTornadoForces (w : World) : Completion World :=
  match tornado w with
  | None => Normal w
  | Some t => foldl (scanStep t) (Normal w) (buildingVisuals w)
  end.

End Frame.

End Registry.

(** ** Concrete registries the statements are evaluated on *)

Module Scenarios.
Import Three TornadoField Registry.
Local Open Scope R_scope.

(** What [main.js] sets up, with one slot ["s"] at [slotAt]: the tornado at
    the origin, the building type ["Casa"], the default threshold of 30. *)
Definition registeredWorld (slotAt : Vector3) : World :=
  addSlot "s" slotAt (Some 1) None
    (addBuilding "Casa" "./assets/casa_0.glb" "./assets/casa_0_cracked.glb"
       (Some 2)
       (setTornado scenarioTornado newWorld)).

(** The intact model: no mesh the code looks at. *)
Definition casaAsset : Asset := mkAsset (Vec3 4 6 4) [].

(** The broken model: two pieces. *)
Definition crackedPiece (offset : Vector3) : Piece :=
  mkPiece offset identityQuaternion (Vec3 1 1 1)
    (mkMeshData (mkBox3 (Vec3 (-1) 0 (-1)) (Vec3 1 2 1))
       (fun p q => (add p offset, q, Vec3 1 1 1))).

Definition crackedAsset : Asset :=
  mkAsset (Vec3 4 6 4)
    [crackedPiece (Vec3 (-1) 0 0); crackedPiece (Vec3 1 0 0)].

Definition casaId : string := "s_Casa_1700".

(** ["Casa"] placed on the slot at time 1700, its model loaded. *)
Definition builtWorld (slotAt : Vector3) : World :=
  settleLoad 0 (Loaded casaAsset)
    (stateOf (placeBuilding "s" "Casa" 1700 (registeredWorld slotAt))).

(** The building damaged, the broken model loaded. *)
Definition ruinedWorld (slotAt : Vector3) : World :=
  settleLoad 0 (Loaded crackedAsset)
    (stateOf (damageBuilding casaId (builtWorld slotAt))).

(** "All prior state intact" for the building [buildingId], between the
    state [w] before a damage call and the state [w2] after its load has
    failed, as the specification words it: the flag still false, no fragment, the
    intact visual still in the scene. *)
Definition priorStateIntact (buildingId : string) (w w2 : World) : Prop :=
  exists b b2,
    objGet buildingId (buildingVisuals w) = Some b
    /\ objGet buildingId (buildingVisuals w2) = Some b2
    /\ damaged b2 = false
    /\ crackedBodies b2 = []
    /\ forall n, visual b = Some (JNode n) -> n ∈ sceneChildren w2.

(** A call that returned normally. *)
Definition returned {A : Type} (r : Completion A) : bool :=
  match r with Normal _ => true | Throw _ _ => false end.

(** What the specification says the force application does to a body,
    between the body [b] before and [b'] after: the lift applied at the
    centre of the body (where a force turns nothing), the horizontal force
    applied at some fixed height above the centre (where it turns the body by
    the vector product of the offset and the force), the torque of the
    field added to the torque of the body. *)
Definition splitApplied (t : Tornado) (b b' : Body) : Prop :=
  let r := calculateForceOnObject t (bposition b) (bmass b) in
  let lift := Vec3 0 (vy (force r)) 0 in
  let horizontal := Vec3 (vx (force r)) 0 (vz (force r)) in
  exists offset,
    0 < offset
    /\ bforce b' = add (add (bforce b) lift) horizontal
    /\ btorque b'
       = add (add (btorque b) (cross (Vec3 0 offset 0) horizontal))
           (torque r).

(** A fragment of mass 5 at rest at (15,0,0). *)
Definition fragmentBody : Body :=
  mkBody 5 (Vec3 15 0 0) identityQuaternion zero3 (Vec3 1 1 1) 0.05 0.05
    zero3.

(** The same fragment and the same field with the origin of the world at
    the fragment: the tornado of the scenarios moved to (-15,0,0) and a
    fragment of mass 5 at rest at (0,0,0).  There the world position of the
    body is the zero vector. *)
Definition awayTornado : Tornado :=
  set_position scenarioTornado (Vec3 (-15) 0 0).

Definition originBody : Body :=
  mkBody 5 (Vec3 0 0 0) identityQuaternion zero3 (Vec3 1 1 1) 0.05 0.05
    zero3.

(** Every building that is not damaged has a scene node as its visual. *)
Definition visualsLoaded (w : World) : Prop :=
  forall id b,
    objGet id (buildingVisuals w) = Some b -> damaged b = false ->
    exists node, nodeOf (visual b) w = Some node.

(** "The scan triggers the transition of the building [buildingId] exactly
    when its horizontal distance to the field centre is below the
    threshold", between the state [w] before a scan and the state [w']
    after it, as the specification words it. *)
Definition planarTrigger (t : Tornado) (buildingId : string) (w w' : World)
    : Prop :=
  forall b node,
    objGet buildingId (buildingVisuals w) = Some b ->
    damaged b = false ->
    nodeOf (visual b) w = Some node ->
    exists b',
      objGet buildingId (buildingVisuals w') = Some b'
      /\ (damaged b' = true
          <-> planarDistance (nposition node) (position t)
              < damageThreshold w).

(** The proximity test of the building [b] of the initial registry [w0]. *)
Definition near (t : Tornado) (w0 : World) (b : Building) : Prop :=
  forall node,
    nodeOf (visual b) w0 = Some node ->
    distanceTo (nposition node) (position t) < damageThreshold w0.

(** What the loop maintains, [done] being the keys already visited. *)
Definition scanInv (t : Tornado) (w0 : World) (done : list string)
    (w : World) : Prop :=
  nodes w = nodes w0
  /\ damageThreshold w = damageThreshold w0
  /\ forall id b,
       objGet id (buildingVisuals w0) = Some b ->
       exists b',
         objGet id (buildingVisuals w) = Some b'
         /\ visual b' = visual b
         /\ (damaged b = true -> damaged b' = true)
         /\ (damaged b = false -> damaged b' = true -> near t w0 b)
         /\ (damaged b = false -> id ∈ done -> near t w0 b ->
             damaged b' = true).

(** The building and the visual of [builtWorld]. *)
Definition casaBuilding (slotAt : Vector3) : Building :=
  mkBuilding 1%nat (Some (JNode 1%nat)) None "Casa" "s" "./assets/casa_0.glb"
    "./assets/casa_0_cracked.glb" false [] slotAt.

Definition casaNode (slotAt : Vector3) : Node :=
  mkNode slotAt identityQuaternion (Vec3 1 1 1) true None [].

(** A node of the store that is a mesh. *)
Definition isMeshNode (w : World) (c : NodeId) : Prop :=
  exists nd md, nodes w !! c = Some nd /\ nmesh nd = Some md.

End Scenarios.

(** ** Further notions about the particle pool *)

Module PoolNotions.
Import Three TornadoField.
Local Open Scope R_scope.

(** The ranges [createGeometryAndMesh] draws the constant fields of a
    particle from, with a height and a rising speed that are not negative. *)
Definition particleRanges (p : Particle) : Prop :=
  0 <= height p
  /\ 0 <= upwardSpeed p
  /\ 0.7 <= targetRadiusFactor p <= 1
  /\ 0 <= radialOscillation p <= 0.5
  /\ -0.5 <= chaosXFactor p <= 0.5
  /\ -0.5 <= chaosYFactor p <= 0.5
  /\ -0.5 <= chaosZFactor p <= 0.5.

(** A pool as the constructor and [setParticleCount] leave it, with the
    parameters in the ranges of the parameter panel. *)
Definition poolSane (t : Tornado) : Prop :=
  0 < maxHeight t
  /\ 0 <= maxRadius t
  /\ 0 < formationDuration t
  /\ 0 <= formationTime t
  /\ particleCount t = length (particles t)
  /\ length (positions t) = particleCount t
  /\ Forall particleRanges (particles t).

(** [formationProgress] after the clocks moved by [delta]. *)
Definition progressAfter (t : Tornado) (delta : R) : R :=
  Math_min ((formationTime t + delta) / formationDuration t) 1.0.

(** The recycle test of the loop of [update(delta)], on a particle as the
    call finds it: the advanced height is above [maxHeight] or above the
    formation ceiling of this call. *)
Definition overflows (t : Tornado) (delta : R) (p : Particle) : Prop :=
  let h := height p + upwardSpeed p * delta in
  h > maxHeight t \/ h > maxHeight t * progressAfter t delta.

(** How many particles of [ps] pass the recycle test with the bounds [mh]
    and [ceiling]. *)
Fixpoint recycledCount (mh ceiling delta : R) (ps : list Particle) : nat :=
  match ps with
  | [] => 0
  | p :: rest =>
      let h := height p + upwardSpeed p * delta in
      let one := if decide (h > mh \/ h > ceiling) then 1%nat else 0%nat in
      (one + recycledCount mh ceiling delta rest)%nat
  end.

(** How many of the first [i] particles of the pool [update(delta)]
    recycles. *)
Definition recycledBefore (t : Tornado) (delta : R) (i : nat) : nat :=
  recycledCount (maxHeight t) (maxHeight t * progressAfter t delta) delta
    (take i (particles t)).

(** The angular velocity the loop of [update] computes for the particle [p]
    (taken after the recycle test) of the tornado [t] (taken after its
    clocks moved). *)
Definition spinOf (t : Tornado) (p : Particle) : R :=
  let maxRadiusAtHeight := calculateMaxRadius t (height p) in
  let oscillation := sin (time t * 2 + radialPhase p) * radialOscillation p in
  let targetRadius :=
    maxRadiusAtHeight * (targetRadiusFactor p + oscillation * 0.1) in
  calculateAngularVelocity targetRadius maxRadiusAtHeight (spinSpeed p).

(** The fields of a particle that [update] never writes. *)
Definition constants (p : Particle)
    : R * R * R * R * R * R * R * R * R :=
  (targetRadiusFactor p, spinSpeed p, upwardSpeed p, turbulenceOffset p,
   radialOscillation p, chaosInitial p, chaosXFactor p, chaosZFactor p,
   chaosYFactor p).

(** The time a list of operations lets pass. *)
Fixpoint elapsed (deltas : list R) : R :=
  match deltas with
  | [] => 0
  | d :: rest => d + elapsed rest
  end.

(** Where [update] writes a particle: within 1.05 times [maxRadius] plus
    1.08 of the axis in x and in z, and between 1 below the base and 1 above
    [maxHeight] in y. *)
Definition inCloudBox (t : Tornado) (v : Vector3) : Prop :=
  - (1.05 * maxRadius t + 1.08) <= vx v - vx (position t)
    <= 1.05 * maxRadius t + 1.08
  /\ - (1.05 * maxRadius t + 1.08) <= vz v - vz (position t)
     <= 1.05 * maxRadius t + 1.08
  /\ -1 <= vy v - vy (position t) <= maxHeight t + 1.

End PoolNotions.

(** ** The frame loop, and runs of the program *)

Module Runtime.
Import Three TornadoField Registry.
Local Open Scope R_scope.

(** [node.position.copy(body.position)] and
    [node.quaternion.copy(body.quaternion)]. *)
Definition copyTransform (n : NodeId) (b : BodyId) (w : World) : World :=
  match bodies w !! b with
  | Some physics =>
      setNodeTransform n (bposition physics) (bquaternion physics) w
  | None => w
  end.

(** [ModelLoader.updateModels()] *)
Definition updateModels (w : World) : Completion World :=
  foldl (fun r (modelData : gmap string JsValue) =>
           andThen r (fun w =>
             match modelData !! "visual", modelData !! "physics" with
             | Some (JNode visual), Some (JBody physics) =>
                 Normal (copyTransform visual physics w)
             | _, _ => Throw "TypeError" w
             end))
    (Normal w) (loadedModels w).

(** The body of the loop of [BuildingSlots.update()] for one building. *)
Definition updateBuilding (r : Completion World) (entry : string * Building)
    : Completion World :=
  andThen r (fun w =>
    let building := entry.2 in
    if damaged building then
      Normal
        (foldl (fun w part => copyTransform (mesh part) (body part) w) w
           (crackedBodies building))
    else if truthy (buildingBody building) then
      match visual building, buildingBody building with
      | Some (JNode visual), Some (JBody physics) =>
          Normal (copyTransform visual physics w)
      | Some (JNode visual), Some (JNode other) =>
          match nodes w !! other with
          | Some nd =>
              Normal (setNodeTransform visual (nposition nd) (nquaternion nd)
                        w)
          | None => Normal w
          end
      | _, _ => Throw "TypeError" w
      end
    else Normal w).

(** [BuildingSlots.update()] *)
Definition updateBuildings (w : World) : Completion World :=
  foldl updateBuilding (Normal w) (buildingVisuals w).

(** The argument of [ModelLoader.remove(modelData)]: the object at an index
    of [loadedModels], or an object that is not in the array. *)
Inductive ModelRef :=
  | Entry (index : nat)
  | Foreign (modelData : gmap string JsValue).

(** [physicsWorld.removeBody(modelData.physics)]: the call writes
    [body.world] first, which raises on [undefined]. *)
Definition removePhysics (modelData : gmap string JsValue) (w : World)
    : Completion World :=
  match modelData !! "physics" with
  | Some v => Normal (worldRemoveBody v w)
  | None => Throw "TypeError" w
  end.

(** [ModelLoader.remove(modelData)] *)
Definition remove (ref : ModelRef) (w : World) : Completion World :=
  match ref with
  | Entry index =>
      match loadedModels w !! index with
      | Some modelData =>
          andThen (removePhysics modelData
                     (sceneRemove (modelData !! "visual") w))
            (fun w =>
               Normal (set_loadedModels (delete index (loadedModels w)) w))
      | None => Normal w
      end
  | Foreign modelData =>
      removePhysics modelData (sceneRemove (modelData !! "visual") w)
  end.

(** [ModelLoader.removeAll()] *)
Definition removeAll (w : World) : Completion World :=
  andThen
    (foldl (fun r (modelData : gmap string JsValue) =>
              andThen r (fun w =>
                removePhysics modelData
                  (sceneRemove (modelData !! "visual") w)))
       (Normal w) (loadedModels w))
    (fun w => Normal (set_loadedModels [] w)).

(** The nodes and the bodies the loader holds. *)
Definition loaderVisuals (w : World) : list NodeId :=
  omap (fun modelData : gmap string JsValue =>
          match modelData !! "visual" with
          | Some (JNode n) => Some n
          | _ => None
          end) (loadedModels w).

Definition loaderBodies (w : World) : list BodyId :=
  omap (fun modelData : gmap string JsValue =>
          match modelData !! "physics" with
          | Some (JBody b) => Some b
          | _ => None
          end) (loadedModels w).

(** The fragments of the damaged buildings, in the order [update] visits
    them. *)
Definition fragments (w : World) : list DebrisPart :=
  flat_map (fun entry : string * Building =>
              if damaged entry.2 then crackedBodies entry.2 else [])
    (buildingVisuals w).

(** The copies the two update functions make, as (node, body) pairs. *)
Definition syncAll (pairs : list (NodeId * BodyId)) (w : World) : World :=
  foldl (fun w pair => copyTransform pair.1 pair.2 w) w pairs.

Definition fragmentPairs (w : World) : list (NodeId * BodyId) :=
  (fun part => (mesh part, body part)) <$> fragments w.

Definition modelPairs (w : World) : list (NodeId * BodyId) :=
  omap (fun modelData : gmap string JsValue =>
          match modelData !! "visual", modelData !! "physics" with
          | Some (JNode n), Some (JBody b) => Some (n, b)
          | _, _ => None
          end) (loadedModels w).

(** A node after it took the position and the quaternion of a body. *)
Definition movedTo (physics : Body) (nd : Node) : Node :=
  mkNode (bposition physics) (bquaternion physics) (nscale nd) (nvisible nd)
    (nmesh nd) (nmeshes nd).

(** A fragment that is in place: its mesh is a child of the scene, its
    body is in the physics world with the mass [mass], and the body sits
    where the mesh is. *)
Definition fragmentReady (mass : R) (w : World) (part : DebrisPart) : Prop :=
  exists nd physics,
    nodes w !! mesh part = Some nd
    /\ bodies w !! body part = Some physics
    /\ bmass physics = mass
    /\ bposition physics = nposition nd
    /\ bquaternion physics = nquaternion nd
    /\ mesh part ∈ sceneChildren w
    /\ body part ∈ worldBodies w.

(** The mass [damageBuilding] gives the fragments of a building of the type
    [buildingType]. *)
Definition debrisMassOf (w : World) (buildingType : string) : R :=
  match buildings w !! buildingType with
  | Some buildingConfig => numberOr (Some (debrisMass buildingConfig)) 10
  | None => 10
  end.

(** *** Runs *)

(** What the page does to the registry and the loader: the calls of
    [main.js] and of the menus, the frame loop, the GLTF loader settling a
    load, and the physics engine moving the bodies. *)
Inductive Call :=
  | AddBuilding (buildingType intactPath crackedPath : string)
      (optionsDebrisMass : option R)
  | SetTornado (t : Tornado)
  | AddSlot (slotId : string) (position : Vector3) (optionsSize : option R)
      (optionsBuildingType : option string)
  | PlaceBuilding (slotId buildingType : string) (now : N)
  | DemolishBuilding (slotId : string)
  | DamageBuilding (buildingId : string)
  | ApplyTornadoForces
  | UpdateBuildings
  | UpdateModels
  | LoaderApplyTornadoForces (t : Tornado)
  | Load (path : string) (mass : R) (position : Vector3)
      (scale friction restitution : R) (handler : CatchHandler)
  | Settle (k : nat) (outcome : LoadOutcome)
  | PhysicsStep (moved : Body -> Body).

(** The keys under which a call reads or writes a registry. *)
Definition callKeys (c : Call) : list string :=
  match c with
  | AddBuilding buildingType _ _ _ => [buildingType]
  | AddSlot slotId _ _ _ => [slotId]
  | PlaceBuilding slotId buildingType _ => [slotId; buildingType]
  | DemolishBuilding slotId => [slotId]
  | DamageBuilding buildingId => [buildingId]
  | _ => []
  end.

(** A key under which a plain object is a dictionary: none of the names it
    inherits.  (The ids [placeBuilding] makes end in the digits of
    [Date.now()] and are such keys.) *)
Definition plainKey (k : string) : Prop := k ∉ inheritedNames.

(** A call that uses the registries as dictionaries only. *)
Definition plainCall (c : Call) : Prop := Forall plainKey (callKeys c).

Section Run.

Variable rnd : nat -> R.

(** One call.  [Load] is a load whose [onLoad] closure only logs, as the
    ones of [main.js] and of [PlacementSystem]; [PhysicsStep] is
    [physicsWorld.step], of which the program sees the bodies change. *)
Definition call (c : Call) (w : World) : Completion World :=
  match c with
  | AddBuilding buildingType intactPath crackedPath optionsDebrisMass =>
      Normal (addBuilding buildingType intactPath crackedPath
                optionsDebrisMass w)
  | SetTornado t => Normal (setTornado t w)
  | AddSlot slotId position optionsSize optionsBuildingType =>
      Normal (addSlot slotId position optionsSize optionsBuildingType w)
  | PlaceBuilding slotId buildingType now =>
      placeBuilding slotId buildingType now w
  | DemolishBuilding slotId => demolishBuilding slotId w
  | DamageBuilding buildingId => damageBuilding buildingId w
  | ApplyTornadoForces => applyTornadoForces rnd w
  | UpdateBuildings => updateBuildings w
  | UpdateModels => updateModels w
  | LoaderApplyTornadoForces t => loaderApplyTornadoForces t w
  | Load path mass position scale friction restitution handler =>
      Normal (load path mass position scale friction restitution None
                handler w)
  | Settle k outcome => Normal (settleLoad k outcome w)
  | PhysicsStep moved => Normal (set_bodies (moved <$> bodies w) w)
  end.

(** A sequence of calls from the state [w]: a call that raises ends there,
    and the next one starts from the state it left. *)
Definition run (calls : list Call) (w : World) : World :=
  foldl (fun w c => stateOf (call c w)) w calls.

End Run.

(** A short run: the type ["Casa"] is registered, the slot ["s"] is added,
    the house is placed on it at time 1700, and its model loads. *)
Definition sampleCalls : list Call :=
  [AddBuilding "Casa" "./assets/casa_0.glb" "./assets/casa_0_cracked.glb"
     (Some 2);
   AddSlot "s" (Vec3 0 0.4 0) (Some 1) None;
   PlaceBuilding "s" "Casa" 1700;
   Settle 0 (Loaded Scenarios.casaAsset)].

(** *** What holds of every state a run reaches *)

(** A building as [placeBuilding] makes it: no [body], and a scene node as
    its visual while it is intact. *)
Definition goodBuilding (w : World) (b : Building) : Prop :=
  buildingBody b = None
  /\ (damaged b = false ->
      exists n, visual b = Some (JNode n) /\ (n < length (nodes w))%nat).

(** An entry of [loadedModels] as [load] makes it. *)
Definition goodModel (modelData : gmap string JsValue) : Prop :=
  (exists n, modelData !! "visual" = Some (JNode n))
  /\ (exists b, modelData !! "physics" = Some (JBody b))
  /\ modelData !! "body" = None.

(** A load in flight: the one of a placement names a slot that has its
    marker, and a building id that is not empty. *)
Definition goodRequest (w : World) (req : LoadRequest) : Prop :=
  match loadOnLoad req with
  | Some (OnPlaced slotId _ buildingId _ _ _) =>
      is_Some (slotVisuals w !! slotId) /\ buildingId <> ""
  | _ => True
  end.

(** A slot is occupied exactly when it names a building. *)
Definition goodSlot (slot : Slot) : Prop :=
  if occupied slot
  then exists id, slotBuildingId slot = Some id /\ id <> ""
  else slotBuildingId slot = None.

Definition sound (w : World) : Prop :=
  (forall s slot,
     slots w !! s = Some slot ->
     goodSlot slot /\ is_Some (slotVisuals w !! s))
  /\ Forall (fun entry => goodBuilding w entry.2) (buildingVisuals w)
  /\ Forall goodModel (loadedModels w)
  /\ Forall (goodRequest w) (pending w).

(** [w'] differs from [w] at most in the transforms and the visibility of
    the nodes, the data of the bodies, the children of the scene, the next
    stamp and the cursor of the random stream. *)
Definition agree (w w' : World) : Prop :=
  slots w' = slots w
  /\ buildings w' = buildings w
  /\ slotVisuals w' = slotVisuals w
  /\ buildingVisuals w' = buildingVisuals w
  /\ tornado w' = tornado w
  /\ damageThreshold w' = damageThreshold w
  /\ loadedModels w' = loadedModels w
  /\ length (nodes w') = length (nodes w)
  /\ worldBodies w' = worldBodies w
  /\ pending w' = pending w
  /\ console w' = console w.

(** From [w] to [w']: soundness is kept, no body leaves the physics world,
    the loader forgets no model, no marker and no node is lost, and
    nothing is printed to [console.error]. *)
Definition extends (w w' : World) : Prop :=
  sound w ->
  sound w'
  /\ worldBodies w `prefix_of` worldBodies w'
  /\ loadedModels w `prefix_of` loadedModels w'
  /\ console w' = console w.

End Runtime.

(** ** [MovementControls]: the fly camera *)

Module Controls.
Local Open Scope R_scope.

(** What the camera's quaternion was last set from: whatever it was at
    construction, or the Euler angles (order YXZ) a drag applied. *)
Inductive Orientation :=
  | Initial
  | FromEuler (x y z : R).

(** The fields of [MovementControls] the handlers read and write, and the
    orientation of the camera. *)
Record MovementControls := mkControls {
  moveSpeed : R;
  lookSensitivity : R;
  moveForward : bool;
  moveBackward : bool;
  moveLeft : bool;
  moveRight : bool;
  moveUp : bool;
  moveDown : bool;
  scrollPressed : bool;
  lastMouseX : R;
  lastMouseY : R;
  eulerX : R;
  eulerY : R;
  eulerZ : R;
  cameraOrientation : Orientation
}.

(** [new MovementControls(camera, domElement)]; [x], [y], [z] are the Euler
    angles [updateEulerFromCamera] reads off the camera. *)
Definition new_MovementControls (x y z : R) : MovementControls :=
  mkControls 50 0.003 false false false false false false false 0 0 x y z
    Initial.

Inductive Event :=
  | PointerDown (button : Z) (clientX clientY : R)
  | PointerUp (button : Z)
  | PointerMove (clientX clientY : R)
  | KeyDown (code : string)
  | KeyUp (code : string).

(** [onPointerDown(event)] *)
Definition onPointerDown (button : Z) (clientX clientY : R)
    (c : MovementControls) : MovementControls :=
  if decide (button = 1%Z) then
    mkControls (moveSpeed c) (lookSensitivity c) (moveForward c)
      (moveBackward c) (moveLeft c) (moveRight c) (moveUp c) (moveDown c)
      true clientX clientY (eulerX c) (eulerY c) (eulerZ c)
      (cameraOrientation c)
  else c.

(** [onPointerUp(event)] *)
Definition onPointerUp (button : Z) (c : MovementControls)
    : MovementControls :=
  if decide (button = 1%Z) then
    mkControls (moveSpeed c) (lookSensitivity c) (moveForward c)
      (moveBackward c) (moveLeft c) (moveRight c) (moveUp c) (moveDown c)
      false (lastMouseX c) (lastMouseY c) (eulerX c) (eulerY c) (eulerZ c)
      (cameraOrientation c)
  else c.

(** [onPointerMove(event)] *)
Definition onPointerMove (clientX clientY : R) (c : MovementControls)
    : MovementControls :=
  if scrollPressed c then
    let deltaX := clientX - lastMouseX c in
    let deltaY := clientY - lastMouseY c in
    let y := eulerY c - deltaX * lookSensitivity c in
    let x := eulerX c - deltaY * lookSensitivity c in
    let x := Rmax (- PI / 2) (Rmin (PI / 2) x) in
    mkControls (moveSpeed c) (lookSensitivity c) (moveForward c)
      (moveBackward c) (moveLeft c) (moveRight c) (moveUp c) (moveDown c)
      (scrollPressed c) clientX clientY x y (eulerZ c)
      (FromEuler x y (eulerZ c))
  else c.

(** The [switch] of [onKeyDown] and [onKeyUp]: the flag [value] is written
    to the field the key is bound to. *)
Definition setKey (code : string) (value : bool) (c : MovementControls)
    : MovementControls :=
  let flags f b l r u d :=
    mkControls (moveSpeed c) (lookSensitivity c) f b l r u d
      (scrollPressed c) (lastMouseX c) (lastMouseY c) (eulerX c) (eulerY c)
      (eulerZ c) (cameraOrientation c) in
  if decide (code = "KeyW") then
    flags value (moveBackward c) (moveLeft c) (moveRight c) (moveUp c)
      (moveDown c)
  else if decide (code = "KeyS") then
    flags (moveForward c) value (moveLeft c) (moveRight c) (moveUp c)
      (moveDown c)
  else if decide (code = "KeyA") then
    flags (moveForward c) (moveBackward c) value (moveRight c) (moveUp c)
      (moveDown c)
  else if decide (code = "KeyD") then
    flags (moveForward c) (moveBackward c) (moveLeft c) value (moveUp c)
      (moveDown c)
  else if decide (code = "Space") then
    flags (moveForward c) (moveBackward c) (moveLeft c) (moveRight c) value
      (moveDown c)
  else if decide (code = "ShiftLeft" \/ code = "KeyC") then
    flags (moveForward c) (moveBackward c) (moveLeft c) (moveRight c)
      (moveUp c) value
  else c.

(** [onKeyDown(event)] and [onKeyUp(event)] *)
Definition onKeyDown (code : string) (c : MovementControls)
    : MovementControls := setKey code true c.

Definition onKeyUp (code : string) (c : MovementControls)
    : MovementControls := setKey code false c.

(** The listeners the constructor installs. *)
Definition handle (c : MovementControls) (e : Event) : MovementControls :=
  match e with
  | PointerDown button clientX clientY => onPointerDown button clientX clientY c
  | PointerUp button => onPointerUp button c
  | PointerMove clientX clientY => onPointerMove clientX clientY c
  | KeyDown code => onKeyDown code c
  | KeyUp code => onKeyUp code c
  end.

Definition handleAll (events : list Event) (c : MovementControls)
    : MovementControls := foldl handle c events.

(** *** Notions the statements use *)

(** Whether the last event on one of the keys [codes] was a press
    ([Some true]) or a release ([Some false]); [None] when the events touch
    none of them. *)
Fixpoint lastKey (codes : list string) (events : list Event)
    : option bool :=
  match events with
  | [] => None
  | e :: rest =>
      match lastKey codes rest with
      | Some v => Some v
      | None =>
          match e with
          | KeyDown code => if decide (code ∈ codes) then Some true else None
          | KeyUp code => if decide (code ∈ codes) then Some false else None
          | _ => None
          end
      end
  end.

(** The six movement flags. *)
Definition flagsOf (c : MovementControls) : list bool :=
  [moveForward c; moveBackward c; moveLeft c; moveRight c; moveUp c;
   moveDown c].

(** The keys of the six flags, in the same order. *)
Definition keysOf : list (list string) :=
  [["KeyW"]; ["KeyS"]; ["KeyA"]; ["KeyD"]; ["Space"]; ["ShiftLeft"; "KeyC"]].

(** An event that starts a drag. *)
Definition startsDrag (e : Event) : Prop :=
  match e with
  | PointerDown button _ _ => button = 1%Z
  | _ => False
  end.

End Controls.

(** ** [PlacementSystem]: objects placed from the context menu *)

Module Placement.
Import Three Registry.
Local Open Scope R_scope.

(** An entry of [this.assets]: [{ path, options }]; an options object maps
    the names of the options that are present to their numbers. *)
Record AssetData := mkAssetData {
  assetPath : string;
  assetOptions : gmap string R
}.

(** The fields of [PlacementSystem] the two functions read and write;
    [selectedObject] is the point of the last right click that hit a
    model. *)
Record PlacementSystem := mkPlacementSystem {
  assets : gmap string AssetData;
  selectedObject : option Vector3
}.

(** [addAsset(name, path, options)]: the three defaults, then the spread
    [...options], whose properties win. *)
Definition addAsset (name path : string) (options : gmap string R)
    (p : PlacementSystem) : PlacementSystem :=
  let defaults : gmap string R :=
    {[ "mass" := numberOr (options !! "mass") 2;
       "friction" := numberOr (options !! "friction") 0.5;
       "restitution" := numberOr (options !! "restitution") 0.3 ]} in
  mkPlacementSystem
    (<[name := mkAssetData path (options ∪ defaults)]> (assets p))
    (selectedObject p).

(** [placeAsset(assetName)].  The [onLoad] closure only logs and the
    [.catch] handler only shows an alert: neither touches the state.  A
    parameter of [load] that is [undefined] takes the default of [load]. *)
Definition placeAsset (assetName : string) (p : PlacementSystem) (w : World)
    : World :=
  match selectedObject p with
  | None => w
  | Some point =>
      match assets p !! assetName with
      | None =>
          set_console (console w ++ ["Asset no encontrado: " +:+ assetName])
            w
      | Some assetData =>
          let position := Vec3 (vx point) (vy point + 5) (vz point) in
          let options := assetOptions assetData in
          load (assetPath assetData) (default 1 (options !! "mass")) position
            1 (default 0.3 (options !! "friction"))
            (default 0.3 (options !! "restitution")) None CatchSilent w
      end
  end.

End Placement.

(** * Properties of the force field *)

Module TornadoFacts.
Import Three TornadoField PoolNotions.
Local Open Scope R_scope.

(** The distance the guard tests is the horizontal distance between the
    query and the tornado position. *)
Lemma distanceToAxis_planar (t : Tornado) (objectPos : Vector3) :
  distanceToAxis t objectPos = planarDistance objectPos (position t).
Proof.
  unfold distanceToAxis, planarDistance, length3, sub, set_y, clone. cbn.
  f_equal. ring.
Qed.

Lemma traced_outside (t : Tornado) (objectPos : Vector3) (mass : R) :
  distanceToAxis t objectPos >= maxRadius t
  \/ distanceToAxis t objectPos <= 0.1 ->
  calculateForceOnObject_traced t objectPos mass
  = (mkForceResult zero3 zero3, []).
Proof.
  intros Hout. unfold calculateForceOnObject_traced.
  fold (distanceToAxis t objectPos).
  destruct (decide _) as [Hin|Hin]; [|reflexivity].
  exfalso. unfold distanceToAxis in *. simpl in *. lra.
Qed.

Lemma normalized_lengths_inside (t : Tornado) (objectPos : Vector3)
    (mass : R) :
  Forall (fun l => 0.1 < l) (normalizedLengths t objectPos mass).
Proof.
  unfold normalizedLengths, calculateForceOnObject_traced.
  destruct (decide _) as [Hin|Hin]; simpl.
  - constructor; [lra | constructor].
  - constructor.
Qed.

(** C1.  When the distance between the query and the tornado centre is at
    least [maxRadius], or at most 0.1 (the dead zone),
    [calculateForceOnObject] returns the zero force and the zero torque and
    normalises nothing; whatever the query, a vector it does normalise is
    longer than 0.1.  The distance is the one the code tests: the centre is
    the tornado position taken at the height of the query, so the distance
    is horizontal. *)
Theorem calculateForceOnObject_zero_outside (t : Tornado)
    (objectPos : Vector3) (mass : R) :
  planarDistance objectPos (position t) >= maxRadius t
  \/ planarDistance objectPos (position t) <= 0.1 ->
  distanceToAxis t objectPos = planarDistance objectPos (position t)
  /\ force (calculateForceOnObject t objectPos mass) = Vec3 0 0 0
  /\ torque (calculateForceOnObject t objectPos mass) = Vec3 0 0 0
  /\ normalizedLengths t objectPos mass = []
  /\ (forall p m, Forall (fun l => 0.1 < l) (normalizedLengths t p m)).
Proof.
  rewrite <- distanceToAxis_planar. intros Hout.
  split; [reflexivity|].
  unfold calculateForceOnObject, normalizedLengths.
  rewrite (traced_outside t objectPos mass Hout). simpl.
  repeat split; try reflexivity.
  intros p m. apply normalized_lengths_inside.
Qed.

Lemma calculateForceOnObject_zero_outside_witness :
  force (calculateForceOnObject scenarioTornado (Vec3 40 7 0) 5) = Vec3 0 0 0
  /\ torque (calculateForceOnObject scenarioTornado (Vec3 40 7 0) 5)
     = Vec3 0 0 0
  /\ normalizedLengths scenarioTornado (Vec3 40 7 0) 5 = [].
Proof.
  destruct (calculateForceOnObject_zero_outside scenarioTornado
              (Vec3 40 7 0) 5) as (_ & Hf & Ht & Hn & _).
  - left. unfold planarDistance. simpl.
    replace ((40 - 0) * (40 - 0) + (0 - 0) * (0 - 0)) with (40 * 40) by lra.
    rewrite sqrt_square by lra. lra.
  - split; [exact Hf|]. split; [exact Ht | exact Hn].
Defined.

(** Inside the field the traced function takes its guarded branch. *)
Lemma force_inside (t : Tornado) (objectPos : Vector3) (mass : R) :
  0.1 < distanceToAxis t objectPos < maxRadius t ->
  let d := distanceToAxis t objectPos in
  let n := normalize (sub (set_y (position t) (vy objectPos)) objectPos) in
  let f := falloffAt t d in
  let b := tornadoForceStrength t * f / mass in
  calculateForceOnObject t objectPos mass
  = mkForceResult
      (Vec3 (0 + vx n * (b * 0.7) + - vz n * (b * 0.5))
            (0 + vy n * (b * 0.7) + 200 * f / mass + 0 * (b * 0.5))
            (0 + vz n * (b * 0.7) + vx n * (b * 0.5)))
      (Vec3 (sin (time t * 2) * b * 0.3) (b * 1.2)
            (cos (time t * 2) * b * 0.3)).
Proof.
  intros Hin. unfold calculateForceOnObject, calculateForceOnObject_traced.
  fold (distanceToAxis t objectPos).
  destruct (decide _) as [_|Hout]; [|exfalso; lra].
  reflexivity.
Qed.

Lemma normalize_axis_y (t : Tornado) (objectPos : Vector3) :
  vy (normalize (sub (set_y (position t) (vy objectPos)) objectPos)) = 0.
Proof.
  unfold normalize, divideScalar, multiplyScalar, sub, set_y. simpl. lra.
Qed.

Lemma falloff_pos (t : Tornado) (d : R) :
  0.1 < d < maxRadius t -> 0 < falloffAt t d.
Proof.
  intros [Hd HR]. unfold falloffAt, Math_pow2.
  assert (HR0 : 0 < maxRadius t) by lra.
  assert (Hq : d / maxRadius t < 1).
  { apply (Rmult_lt_reg_r (maxRadius t)); [exact HR0|].
    unfold Rdiv. rewrite Rmult_assoc, Rinv_l by lra. lra. }
  assert (0 < 1 - d / maxRadius t) by lra.
  simpl. nra.
Qed.

Lemma force_square (t : Tornado) (objectPos : Vector3) (mass : R) :
  0.1 < distanceToAxis t objectPos < maxRadius t -> 0 < mass ->
  let F := force (calculateForceOnObject t objectPos mass) in
  vx F * vx F + vy F * vy F + vz F * vz F
  = (/ mass) ^ 2 * massFreeSquare t objectPos.
Proof.
  intros Hin Hm. rewrite (force_inside t objectPos mass Hin).
  unfold massFreeSquare. cbv zeta. cbn [force vx vy vz].
  rewrite normalize_axis_y.
  field. lra.
Qed.

Lemma massFreeSquare_pos (t : Tornado) (objectPos : Vector3) :
  0.1 < distanceToAxis t objectPos < maxRadius t ->
  0 < massFreeSquare t objectPos.
Proof.
  intros Hin. pose proof (falloff_pos t _ Hin) as Hf.
  unfold massFreeSquare. cbv zeta.
  set (f := falloffAt t (distanceToAxis t objectPos)) in *.
  set (a := vx _ * _ - _). set (b := vz _ * _ + _).
  assert (0 <= a ^ 2) by (simpl; nra).
  assert (0 <= b ^ 2) by (simpl; nra).
  assert (0 < (200 * f) ^ 2) by (simpl; nra).
  lra.
Qed.

(** C2.  At a position strictly inside the field (horizontal distance to
    the tornado position between 0.1 and [maxRadius]) the force on the lighter of two bodies of positive mass
    is strictly longer than the force on the heavier one. *)
Theorem force_norm_decreases_with_mass (t : Tornado) (p : Vector3)
    (mass1 mass2 : R) :
  0.1 < planarDistance p (position t) < maxRadius t ->
  0 < mass1 -> mass1 < mass2 ->
  length3 (force (calculateForceOnObject t p mass1))
  > length3 (force (calculateForceOnObject t p mass2)).
Proof.
  rewrite <- distanceToAxis_planar. intros Hin Hm1 Hlt.
  assert (Hm2 : 0 < mass2) by lra.
  unfold length3, Rgt.
  rewrite (force_square t p mass1 Hin Hm1), (force_square t p mass2 Hin Hm2).
  pose proof (massFreeSquare_pos t p Hin) as HS.
  assert (Hinv : / mass2 < / mass1)
    by (apply Rinv_lt_contravar; [nra | exact Hlt]).
  assert (Hi2 : 0 < / mass2) by (apply Rinv_0_lt_compat; exact Hm2).
  apply sqrt_lt_1.
  - simpl. nra.
  - simpl. nra.
  - apply Rmult_lt_compat_r; [exact HS|]. simpl. nra.
Qed.

(** Inside the field the direction is a horizontal unit vector. *)
Lemma direction_unit (t : Tornado) (objectPos : Vector3) :
  0.1 < distanceToAxis t objectPos ->
  let n := normalize (sub (set_y (position t) (vy objectPos)) objectPos) in
  vx n * vx n + vz n * vz n = 1.
Proof.
  intros Hd. cbv zeta. unfold normalize.
  set (v := sub (set_y (position t) (vy objectPos)) objectPos).
  assert (HL : length3 v = distanceToAxis t objectPos) by reflexivity.
  assert (Hvy : vy v = 0) by (unfold v, sub, set_y; cbn; lra).
  destruct (decide (length3 v = 0)) as [Hz|_]; [rewrite HL in Hz; lra|].
  assert (Hsq : length3 v * length3 v = vx v * vx v + vz v * vz v).
  { unfold length3. rewrite sqrt_sqrt; [rewrite Hvy; lra|].
    rewrite Hvy. nra. }
  unfold divideScalar, multiplyScalar. cbn [vx vz].
  rewrite <- HL in Hd. set (L := length3 v) in *.
  replace (vx v * (1 / L) * (vx v * (1 / L)) + vz v * (1 / L) * (vz v * (1 / L)))
    with ((vx v * vx v + vz v * vz v) / (L * L)) by (field; lra).
  rewrite <- Hsq. field. lra.
Qed.

(** Inside the field, on a body of positive mass, the lift is positive;
    the horizontal force vanishes only when [tornadoForceStrength] is 0. *)
Lemma force_parts_inside (t : Tornado) (objectPos : Vector3) (mass : R) :
  0.1 < distanceToAxis t objectPos < maxRadius t -> 0 < mass ->
  let f := force (calculateForceOnObject t objectPos mass) in
  0 < vy f
  /\ (tornadoForceStrength t <> 0 -> vx f <> 0 \/ vz f <> 0).
Proof.
  intros Hin Hm. cbv zeta. rewrite (force_inside t objectPos mass Hin).
  cbv zeta. cbn [force vx vy vz]. rewrite normalize_axis_y.
  pose proof (falloff_pos t _ Hin) as Hf.
  pose proof (direction_unit t objectPos (proj1 Hin)) as Hunit.
  cbv zeta in Hunit.
  set (n := normalize _) in *.
  set (fo := falloffAt t (distanceToAxis t objectPos)) in *.
  assert (Hinv : 0 < / mass) by (apply Rinv_0_lt_compat; exact Hm).
  split.
  - unfold Rdiv. nra.
  - intros HF.
    set (b := tornadoForceStrength t * fo / mass).
    assert (Hb : b <> 0).
    { unfold b, Rdiv. intros Hz.
      apply Rmult_integral in Hz. destruct Hz as [Hz|Hz]; [|lra].
      apply Rmult_integral in Hz. destruct Hz; lra. }
    destruct (Req_dec (0 + vx n * (b * 0.7) + - vz n * (b * 0.5)) 0)
      as [Hx|Hx]; [|left; exact Hx].
    right. intros Hz. apply Hb.
    assert (Hsum : (vx n * vx n + vz n * vz n) * (b * b) = 0) by nra.
    rewrite Hunit in Hsum. nra.
Qed.

Lemma scenario_distance :
  distanceToAxis scenarioTornado (Vec3 15 0 0) = 15.
Proof.
  unfold distanceToAxis, length3, sub, set_y, clone. simpl.
  replace ((0 - 15) * (0 - 15) + (0 - 0) * (0 - 0) + (0 - 0) * (0 - 0))
    with (15 * 15) by lra.
  apply sqrt_square. lra.
Qed.

Lemma force_norm_decreases_with_mass_witness :
  length3 (force (calculateForceOnObject scenarioTornado (Vec3 15 0 0) 2))
  > length3 (force (calculateForceOnObject scenarioTornado (Vec3 15 0 0) 5)).
Proof.
  apply (force_norm_decreases_with_mass scenarioTornado (Vec3 15 0 0) 2 5).
  - rewrite <- distanceToAxis_planar, scenario_distance. simpl. lra.
  - lra.
  - lra.
Defined.

Section Scenario.

Variable t : Tornado.
Hypothesis Hpos : position t = Vec3 0 0 0.
Hypothesis Hrad : maxRadius t = 30.
Hypothesis Hstr : tornadoForceStrength t = 150000.
Hypothesis Htime : time t = 0.

Lemma scenario_axis_distance : distanceToAxis t (Vec3 15 0 0) = 15.
Proof.
  unfold distanceToAxis, length3, sub, set_y, clone. rewrite Hpos. simpl.
  replace ((0 - 15) * (0 - 15) + (0 - 0) * (0 - 0) + (0 - 0) * (0 - 0))
    with (15 * 15) by lra.
  apply sqrt_square. lra.
Qed.

Lemma scenario_direction :
  normalize (sub (set_y (position t) 0) (Vec3 15 0 0)) = Vec3 (-1) 0 0.
Proof.
  pose proof scenario_axis_distance as Hd.
  unfold distanceToAxis, clone in Hd. simpl in Hd.
  unfold normalize. rewrite Hd.
  destruct (decide (15 = 0)) as [Hz|_]; [exfalso; lra|].
  unfold divideScalar, multiplyScalar, sub, set_y. rewrite Hpos. simpl.
  f_equal; lra.
Qed.

Lemma scenario_falloff : falloffAt t (distanceToAxis t (Vec3 15 0 0)) = 0.25.
Proof.
  rewrite scenario_axis_distance. unfold falloffAt, Math_pow2.
  rewrite Hrad. simpl. lra.
Qed.

Lemma scenario_result :
  calculateForceOnObject t (Vec3 15 0 0) 5
  = mkForceResult (Vec3 (-5250) 10 (-3750)) (Vec3 0 9000 2250).
Proof.
  rewrite force_inside by (rewrite scenario_axis_distance, Hrad; lra).
  cbv zeta. cbn [vy]. rewrite scenario_direction, scenario_falloff.
  rewrite Hstr, Htime. cbn [vx vy vz].
  replace (0 * 2) with 0 by lra. rewrite sin_0, cos_0.
  f_equal; f_equal; lra.
Qed.

End Scenario.

(** The field looks at the offset between the body and the axis only:
    moving the tornado and the body by the same amount changes nothing. *)
Lemma force_translation (t : Tornado) (pos' p p' : Vector3) (mass : R) :
  sub (set_y pos' (vy p')) p' = sub (set_y (position t) (vy p)) p ->
  calculateForceOnObject (set_position t pos') p' mass
  = calculateForceOnObject t p mass.
Proof.
  intros H.
  unfold calculateForceOnObject, calculateForceOnObject_traced, clone.
  cbn [position set_position maxRadius tornadoForceStrength time].
  rewrite H. reflexivity.
Qed.

(** C3, the claim as stated, fails: at time 0 the z component of the torque
    is [cos 0 * 0.3 * baseForce = 2250], not 0. *)
Lemma scenario_torque_z_not_zero :
  let r := calculateForceOnObject scenarioTornado (Vec3 15 0 0) 5 in
  ~ (falloffAt scenarioTornado (distanceToAxis scenarioTornado (Vec3 15 0 0))
     = 0.25
     /\ vx (force r) < 0 /\ vy (force r) > 0 /\ vy (torque r) > 0
     /\ vx (torque r) = 0 /\ vz (torque r) = 0).
Proof.
  cbv zeta.
  rewrite (scenario_result scenarioTornado eq_refl eq_refl eq_refl eq_refl).
  simpl. lra.
Qed.

(** C3, amended.  With the axis at the origin, [maxRadius = 30],
    [tornadoForceStrength = 150000] and [time = 0], the query at (15,0,0)
    with mass 5 has falloff 0.25, force (-5250, 10, -3750) (pull along -x,
    lift along +y) and torque (0, 9000, 2250): the y torque is positive, the
    x torque is zero and the z torque is [0.3 * baseForce], not zero. *)
Theorem scenario_force_and_torque (t : Tornado) :
  position t = Vec3 0 0 0 -> maxRadius t = 30 ->
  tornadoForceStrength t = 150000 -> time t = 0 ->
  let r := calculateForceOnObject t (Vec3 15 0 0) 5 in
  falloffAt t (distanceToAxis t (Vec3 15 0 0)) = 0.25
  /\ force r = Vec3 (-5250) 10 (-3750)
  /\ torque r = Vec3 0 9000 2250
  /\ vx (force r) < 0 /\ vy (force r) > 0
  /\ vy (torque r) > 0 /\ vx (torque r) = 0
  /\ vz (torque r) = 0.3 * (150000 * 0.25 / 5).
Proof.
  intros Hpos Hrad Hstr Htime. cbv zeta.
  rewrite (scenario_result t Hpos Hrad Hstr Htime).
  rewrite (scenario_falloff t Hpos Hrad). simpl.
  repeat split; lra.
Qed.

Lemma scenario_force_and_torque_witness :
  let r := calculateForceOnObject scenarioTornado (Vec3 15 0 0) 5 in
  falloffAt scenarioTornado (distanceToAxis scenarioTornado (Vec3 15 0 0))
  = 0.25
  /\ force r = Vec3 (-5250) 10 (-3750)
  /\ torque r = Vec3 0 9000 2250
  /\ vx (force r) < 0 /\ vy (force r) > 0
  /\ vy (torque r) > 0 /\ vx (torque r) = 0
  /\ vz (torque r) = 0.3 * (150000 * 0.25 / 5).
Proof.
  apply (scenario_force_and_torque scenarioTornado);
    reflexivity.
Defined.

(** ** The recycle invariant of the particle pool *)

Section PoolInvariant.

Variable rnd : nat -> R.
Hypothesis rnd_range : forall n, 0 <= rnd n < 1.

Lemma Math_pow_unit (x y : R) : 0 <= x < 1 -> 0 < y -> 0 <= Math_pow x y <= 1.
Proof.
  intros [Hx0 Hx1] Hy. unfold Math_pow.
  destruct (decide (x = 0)) as [_|Hne]; [lra|].
  assert (Hx : 0 < x) by lra.
  unfold Rpower. split.
  - left. apply exp_pos.
  - rewrite <- exp_0. left. apply exp_increasing.
    assert (Hln : ln x < 0) by (rewrite <- ln_1; apply ln_increasing; lra).
    nra.
Qed.

Lemma createParticle_ok (t : Tornado) (c : nat) :
  0 <= maxHeight t ->
  forall t', maxHeight t' = maxHeight t ->
  particleOk t' (createParticle rnd t c).1.1.
Proof.
  intros HH t' Heq. unfold particleOk, createParticle. cbn.
  rewrite Heq.
  pose proof (Math_pow_unit (rnd c) 1.5 (rnd_range c) ltac:(lra)) as Hp.
  pose proof (rnd_range (c + 4)) as Hr.
  repeat split; nra.
Qed.

Lemma createParticles_ok (t : Tornado) (n c : nat) :
  0 <= maxHeight t ->
  forall t', maxHeight t' = maxHeight t ->
  length (createParticles rnd t n c).1.1 = n
  /\ Forall (particleOk t') (createParticles rnd t n c).1.1.
Proof.
  intros HH t' Heq. revert c.
  induction n as [|n IH]; intros c; [split; [reflexivity|constructor]|].
  cbn [createParticles].
  pose proof (createParticle_ok t c HH t' Heq) as Hp.
  destruct (createParticle rnd t c) as [[p pos] c1].
  specialize (IH c1).
  destruct (createParticles rnd t n c1) as [[ps buf] c2].
  cbn in *. destruct IH as [Hlen Hall]. split.
  - now rewrite Hlen.
  - constructor; assumption.
Qed.

Lemma createGeometryAndMesh_ok (t : Tornado) (c : nat) :
  0 <= maxHeight t -> poolOk (createGeometryAndMesh rnd t c).1.
Proof.
  intros HH. unfold createGeometryAndMesh. cbv zeta.
  pose proof (createParticles_ok t (particleCount t) (c + uuidDraws) HH)
    as Hc.
  destruct (createParticles rnd t (particleCount t) (c + uuidDraws))
    as [[ps buf] c'].
  specialize (Hc (set_pool t (particleCount t) ps buf) eq_refl).
  cbn in *. destruct Hc as [Hlen Hall].
  unfold poolOk. cbn. repeat split; [exact HH | now rewrite Hlen | exact Hall].
Qed.

Lemma new_Tornado_ok (c : nat) : poolOk (new_Tornado rnd c).1.
Proof. apply createGeometryAndMesh_ok. simpl. lra. Qed.

Lemma updateParticle_height (t : Tornado) (delta ceiling chaos : R)
    (p : Particle) (c : nat) :
  let h := height p + upwardSpeed p * delta in
  let r := updateParticle rnd t delta ceiling chaos p c in
  upwardSpeed r.1.1 = upwardSpeed p
  /\ (h > maxHeight t \/ h > ceiling ->
      height r.1.1 = 0 /\ r.2 = (c + 3)%nat
      /\ phase r.1.1 = rnd (c + 1) * PI * 2
      /\ radialPhase r.1.1 = rnd (c + 2) * PI * 2)
  /\ (~ (h > maxHeight t \/ h > ceiling) ->
      height r.1.1 = h /\ r.2 = c
      /\ phase r.1.1 = phase p /\ radialPhase r.1.1 = radialPhase p).
Proof.
  cbv zeta. unfold updateParticle. cbn [set_chaosFactor set_height height
    upwardSpeed].
  destruct (decide _) as [Hover|Hin]; cbn; repeat split; tauto.
Qed.

Lemma updateParticle_ok (t : Tornado) (delta ceiling chaos : R)
    (p : Particle) (c : nat) :
  0 <= maxHeight t -> 0 <= delta -> 0 <= height p -> 0 <= upwardSpeed p ->
  forall t', maxHeight t' = maxHeight t ->
  particleOk t' (updateParticle rnd t delta ceiling chaos p c).1.1.
Proof.
  intros HH Hd Hh Hu t' Heq.
  pose proof (updateParticle_height t delta ceiling chaos p c) as Hup.
  cbv zeta in Hup. destruct Hup as (Hspeed & Hover & Hin).
  unfold particleOk. rewrite Hspeed, Heq.
  destruct (Rgt_dec (height p + upwardSpeed p * delta) (maxHeight t))
    as [H1|H1].
  - destruct (Hover (or_introl H1)) as (-> & _). lra.
  - destruct (Rgt_dec (height p + upwardSpeed p * delta) ceiling) as [H2|H2].
    + destruct (Hover (or_intror H2)) as (-> & _). lra.
    + destruct (Hin ltac:(tauto)) as (-> & _). nra.
Qed.

Lemma updateParticles_ok (t : Tornado) (delta ceiling chaos : R) :
  0 <= maxHeight t -> 0 <= delta ->
  forall t', maxHeight t' = maxHeight t ->
  forall (n : nat) (ps : list Particle) (c : nat),
  (n <= length ps)%nat -> Forall (particleOk t) ps ->
  exists ps' buf c',
    updateParticles rnd t delta ceiling chaos n ps c = Some (ps', buf, c')
    /\ length ps' = length ps /\ Forall (particleOk t') ps'.
Proof.
  intros HH Hd t' Heq n.
  induction n as [|n IH]; intros ps c Hlen Hall.
  - exists ps, [], c. repeat split.
    eapply Forall_impl; [exact Hall|]. unfold particleOk. now rewrite Heq.
  - destruct ps as [|p rest]; [simpl in Hlen; lia|].
    apply Forall_cons in Hall. destruct Hall as [[[Hp0 Hp1] Hp2] Hrest].
    cbn [updateParticles].
    pose proof (updateParticle_ok t delta ceiling chaos p c HH Hd Hp0 Hp2
                  t' Heq) as Hp'.
    destruct (updateParticle rnd t delta ceiling chaos p c) as [[p' pos] c1].
    destruct (IH rest c1 ltac:(simpl in Hlen; lia) Hrest)
      as (ps' & buf & c' & -> & Hlen' & Hall').
    exists (p' :: ps'), (pos :: buf), c'. repeat split.
    + simpl. now rewrite Hlen'.
    + constructor; assumption.
Qed.

Lemma update_ok (delta : R) (t : Tornado) (c : nat) :
  0 <= delta -> poolOk t ->
  exists t' c', update rnd delta t c = Some (t', c') /\ poolOk t'.
Proof.
  intros Hd (HH & Hcount & Hall). unfold update.
  match goal with
  | |- context [updateParticles rnd ?u delta ?ce ?ch ?n ?ps c] =>
      destruct (updateParticles_ok u delta ce ch HH Hd u eq_refl n ps c)
        as (ps' & buf & c' & Hrun & Hlen & Hall')
  end.
  - cbn. lia.
  - exact Hall.
  - rewrite Hrun. eexists _, _. split; [reflexivity|].
    repeat split; cbn in *; [exact HH | lia | exact Hall'].
Qed.

Lemma setParticleCount_ok (n : nat) (t : Tornado) (c : nat) :
  poolOk t -> poolOk (setParticleCount rnd n t c).1.
Proof.
  intros Hok. unfold setParticleCount.
  destruct (decide _) as [_|_]; [exact Hok|].
  destruct Hok as (HH & _ & _).
  pose proof (createGeometryAndMesh_ok
                (set_pool t n (particles t) (positions t)) c HH) as Hc.
  destruct (createGeometryAndMesh rnd _ c) as [t1 c1].
  exact Hc.
Qed.

Lemma runOps_ok (ops : list TornadoOp) :
  Forall opNonneg ops ->
  forall (t : Tornado) (c : nat), poolOk t ->
  exists t' c', runOps rnd ops t c = Some (t', c') /\ poolOk t'.
Proof.
  induction 1 as [|op ops Hop _ IH]; intros t c Hok.
  - exists t, c. split; [reflexivity | exact Hok].
  - cbn [runOps]. destruct op as [delta|n]; cbn [runOp].
    + destruct (update_ok delta t c Hop Hok) as (t1 & c1 & -> & Hok1).
      apply IH. exact Hok1.
    + pose proof (setParticleCount_ok n t c Hok) as Hok1.
      destruct (setParticleCount rnd n t c) as [t1 c1].
      apply IH. exact Hok1.
Qed.

Lemma updateParticle_cases (t : Tornado) (delta ceiling chaos : R)
    (p : Particle) (c : nat) :
  let h := height p + upwardSpeed p * delta in
  let r := updateParticle rnd t delta ceiling chaos p c in
  constants r.1.1 = constants p
  /\ chaosFactor r.1.1 = chaos
  /\ (h > maxHeight t \/ h > ceiling ->
      r.2 = (c + 3)%nat
      /\ height r.1.1 = 0
      /\ angle r.1.1 = rnd c * 2 * PI + spinOf t r.1.1 * delta
      /\ phase r.1.1 = rnd (c + 1) * PI * 2
      /\ radialPhase r.1.1 = rnd (c + 2) * PI * 2)
  /\ (~ (h > maxHeight t \/ h > ceiling) ->
      r.2 = c
      /\ height r.1.1 = h
      /\ angle r.1.1 = angle p + spinOf t r.1.1 * delta
      /\ phase r.1.1 = phase p
      /\ radialPhase r.1.1 = radialPhase p).
Proof.
  cbv zeta. unfold updateParticle. cbn [set_chaosFactor set_height height
    upwardSpeed].
  destruct (decide _) as [Hover|Hin]; cbn; repeat split; tauto.
Qed.

Lemma updateParticles_lookup (t : Tornado) (delta ceiling chaos : R) :
  forall (n : nat) (ps : list Particle) (c : nat),
  (n <= length ps)%nat ->
  exists ps' buf,
    updateParticles rnd t delta ceiling chaos n ps c
    = Some (ps', buf,
            (c + 3 * recycledCount (maxHeight t) ceiling delta
                       (take n ps))%nat)
    /\ length ps' = length ps
    /\ forall i p, (i < n)%nat -> ps !! i = Some p ->
       ps' !! i
       = Some (updateParticle rnd t delta ceiling chaos p
                 (c + 3 * recycledCount (maxHeight t) ceiling delta
                            (take i ps))).1.1.
Proof.
  induction n as [|n IH]; intros ps c Hlen.
  - exists ps, []. cbn. rewrite ?Nat.mul_0_r, ?Nat.add_0_r.
    split; [reflexivity|]. split; [reflexivity|]. intros i p Hi. lia.
  - destruct ps as [|q rest]; [simpl in Hlen; lia|].
    cbn [updateParticles firstn take recycledCount].
    pose proof (updateParticle_cases t delta ceiling chaos q c) as Hq.
    cbv zeta in Hq. destruct Hq as (_ & _ & Hover & Hin).
    destruct (updateParticle rnd t delta ceiling chaos q c)
      as [[q' pos] c1] eqn:Hupd.
    cbn [fst snd] in Hover, Hin.
    cbv zeta.
    set (one := if decide
                   (height q + upwardSpeed q * delta > maxHeight t
                    \/ height q + upwardSpeed q * delta > ceiling)
                then 1%nat else 0%nat).
    assert (Hc1 : c1 = (c + 3 * one)%nat).
    { unfold one. destruct (decide _) as [Ho|Hi].
      - destruct (Hover Ho) as [-> _]. lia.
      - destruct (Hin Hi) as [-> _]. lia. }
    destruct (IH rest c1 ltac:(simpl in Hlen; lia))
      as (ps' & buf & -> & Hlen' & Hlook).
    exists (q' :: ps'), (pos :: buf). split; [|split].
    + replace (c1 + 3 * recycledCount (maxHeight t) ceiling delta
                         (take n rest))%nat
        with (c + 3 * (one + recycledCount (maxHeight t) ceiling delta
                               (take n rest)))%nat by lia.
      reflexivity.
    + simpl. now rewrite Hlen'.
    + intros i p Hi Hp. destruct i as [|i].
      * cbn in Hp. injection Hp as <-. cbn [take firstn recycledCount].
        replace (c + 3 * 0)%nat with c by lia. now rewrite Hupd.
      * cbn [take firstn recycledCount].
        change ((q' :: ps') !! S i) with (ps' !! i).
        change ((q :: rest) !! S i) with (rest !! i) in Hp.
        rewrite (Hlook i p ltac:(lia) Hp). cbv zeta. fold one.
        replace (c1 + 3 * recycledCount (maxHeight t) ceiling delta
                         (take i rest))%nat
          with (c + 3 * (one + recycledCount (maxHeight t) ceiling delta
                                 (take i rest)))%nat by lia.
        reflexivity.
Qed.

(** What one [update] does to each particle of a pool within range. *)
Lemma update_recycles (delta : R) (t : Tornado) (c : nat) :
  0 <= delta -> poolOk t ->
  exists t' c',
    update rnd delta t c = Some (t', c')
    /\ poolOk t'
    /\ maxHeight t' = maxHeight t
    /\ time t' = time t + delta
    /\ length (particles t') = length (particles t)
    /\ c' = (c + 3 * recycledBefore t delta (length (particles t)))%nat
    /\ forall i p, particles t !! i = Some p ->
       exists p', particles t' !! i = Some p'
         /\ constants p' = constants p
         /\ (overflows t delta p ->
             height p' = 0
             /\ angle p'
                = rnd (c + 3 * recycledBefore t delta i)%nat * 2 * PI
                  + spinOf t' p' * delta
             /\ phase p'
                = rnd (c + 3 * recycledBefore t delta i + 1)%nat * PI * 2
             /\ radialPhase p'
                = rnd (c + 3 * recycledBefore t delta i + 2)%nat * PI * 2)
         /\ (~ overflows t delta p ->
             height p' = height p + upwardSpeed p * delta
             /\ angle p' = angle p + spinOf t' p' * delta
             /\ phase p' = phase p
             /\ radialPhase p' = radialPhase p).
Proof.
  intros Hd Hok.
  destruct (update_ok delta t c Hd Hok) as (t' & c' & Hrun & Hok').
  exists t', c'. split; [exact Hrun|]. split; [exact Hok'|].
  destruct Hok as (HH & Hcount & Hall).
  unfold update in Hrun. cbv zeta in Hrun.
  match type of Hrun with
  | context [updateParticles rnd ?u delta ?ce ?ch ?n ?ps c] =>
      destruct (updateParticles_lookup u delta ce ch n ps c)
        as (ps' & buf & Hupd & Hlen & Hlook);
        [cbn; lia|]; set (u0 := u) in *; set (ce0 := ce) in *;
        set (ch0 := ch) in *
  end.
  rewrite Hupd in Hrun. injection Hrun as <- <-.
  cbn [set_pool maxHeight time particles].
  split; [reflexivity|]. split; [reflexivity|].
  split; [exact Hlen|]. split.
  { cbn [particleCount set_position set_clock particles]. rewrite Hcount.
    reflexivity. }
  intros i p Hp.
  assert (Hi : (i < particleCount t)%nat).
  { rewrite Hcount. apply lookup_lt_Some in Hp. exact Hp. }
  specialize (Hlook i p Hi Hp).
  eexists. split; [exact Hlook|].
  pose proof (updateParticle_cases u0 delta ce0 ch0 p
                (c + 3 * recycledCount (maxHeight u0) ce0 delta
                           (take i (particles u0)))) as Hcases.
  cbv zeta in Hcases. destruct Hcases as (Hconst & _ & Hover & Hin).
  split; [exact Hconst|]. split.
  - intros Ho. destruct (Hover Ho) as (_ & Hh & Ha & Hph & Hrp).
    repeat split; assumption.
  - intros Hn. destruct (Hin Hn) as (_ & Hh & Ha & Hph & Hrp).
    repeat split; assumption.
Qed.

End PoolInvariant.

(** C4.  From a new tornado, any finite sequence of [update] calls with
    time deltas that are not negative (0 and arbitrarily large ones
    included, pool rebuilds by [setParticleCount] in between allowed)
    returns, and after it every particle of the pool has its height in
    [[0, maxHeight]].  One more [update(delta)] from there returns too and
    treats every particle of the pool by the recycle test: a particle whose
    advanced height [height + upwardSpeed * delta] is above [maxHeight] or
    above the formation ceiling comes out with height 0 and with its angle,
    phase and radialPhase drawn again, from the next three numbers of
    [Math.random()] in pool order (the angle then advanced by the spin of
    this frame); any other particle comes out with the advanced height, its
    phases kept and its angle advanced by the spin.  The call draws three
    numbers per recycled particle and no other, and it writes no other field
    of a particle but [chaosFactor]. *)
Theorem particle_height_in_range (rnd : nat -> R) (ops : list TornadoOp)
    (c0 : nat) :
  (forall n, 0 <= rnd n < 1) ->
  Forall opNonneg ops ->
  exists t c,
    runOps rnd ops (new_Tornado rnd c0).1 (new_Tornado rnd c0).2
    = Some (t, c)
    /\ Forall (fun p => 0 <= height p <= maxHeight t) (particles t)
    /\ forall delta, 0 <= delta ->
       exists t' c',
         update rnd delta t c = Some (t', c')
         /\ maxHeight t' = maxHeight t
         /\ length (particles t') = length (particles t)
         /\ Forall (fun p => 0 <= height p <= maxHeight t) (particles t')
         /\ c' = (c + 3 * recycledBefore t delta (length (particles t)))%nat
         /\ forall i p, particles t !! i = Some p ->
            exists p', particles t' !! i = Some p'
              /\ constants p' = constants p
              /\ (overflows t delta p ->
                  height p' = 0
                  /\ angle p'
                     = rnd (c + 3 * recycledBefore t delta i)%nat * 2 * PI
                       + spinOf t' p' * delta
                  /\ phase p'
                     = rnd (c + 3 * recycledBefore t delta i + 1)%nat
                       * PI * 2
                  /\ radialPhase p'
                     = rnd (c + 3 * recycledBefore t delta i + 2)%nat
                       * PI * 2)
              /\ (~ overflows t delta p ->
                  height p' = height p + upwardSpeed p * delta
                  /\ angle p' = angle p + spinOf t' p' * delta
                  /\ phase p' = phase p
                  /\ radialPhase p' = radialPhase p).
Proof.
  intros Hrnd Hops.
  destruct (runOps_ok rnd Hrnd ops Hops (new_Tornado rnd c0).1
              (new_Tornado rnd c0).2 (new_Tornado_ok rnd Hrnd c0))
    as (t & c & Hrun & Hok).
  exists t, c. split; [exact Hrun|]. split.
  { destruct Hok as (_ & _ & Hall).
    eapply Forall_impl; [exact Hall|]. intros p [Hp _]. exact Hp. }
  intros delta Hd.
  destruct (update_recycles rnd delta t c Hd Hok)
    as (t' & c' & Hupd & Hok' & HH & _ & Hlen & Hc & Hlook).
  exists t', c'. split; [exact Hupd|]. split; [exact HH|].
  split; [exact Hlen|]. split; [|split; [exact Hc | exact Hlook]].
  destruct Hok' as (_ & _ & Hall). rewrite <- HH.
  eapply Forall_impl; [exact Hall|]. intros p [Hp _]. exact Hp.
Qed.

Lemma particle_height_in_range_witness :
  let rnd := fun _ : nat => 0.5 in
  let ops := [OpUpdate 0; OpUpdate 1000; OpUpdate 0.016] in
  exists t c,
    runOps rnd ops (new_Tornado rnd 0).1 (new_Tornado rnd 0).2 = Some (t, c)
    /\ Forall (fun p => 0 <= height p <= maxHeight t) (particles t)
    /\ forall delta, 0 <= delta ->
       exists t' c',
         update rnd delta t c = Some (t', c')
         /\ maxHeight t' = maxHeight t
         /\ length (particles t') = length (particles t)
         /\ Forall (fun p => 0 <= height p <= maxHeight t) (particles t')
         /\ c' = (c + 3 * recycledBefore t delta (length (particles t)))%nat
         /\ forall i p, particles t !! i = Some p ->
            exists p', particles t' !! i = Some p'
              /\ constants p' = constants p
              /\ (overflows t delta p ->
                  height p' = 0
                  /\ angle p'
                     = rnd (c + 3 * recycledBefore t delta i)%nat * 2 * PI
                       + spinOf t' p' * delta
                  /\ phase p'
                     = rnd (c + 3 * recycledBefore t delta i + 1)%nat
                       * PI * 2
                  /\ radialPhase p'
                     = rnd (c + 3 * recycledBefore t delta i + 2)%nat
                       * PI * 2)
              /\ (~ overflows t delta p ->
                  height p' = height p + upwardSpeed p * delta
                  /\ angle p' = angle p + spinOf t' p' * delta
                  /\ phase p' = phase p
                  /\ radialPhase p' = radialPhase p).
Proof.
  apply (particle_height_in_range (fun _ => 0.5)
           [OpUpdate 0; OpUpdate 1000; OpUpdate 0.016] 0).
  - intros n. lra.
  - repeat constructor; simpl; lra.
Defined.

End TornadoFacts.

(** * Properties of the building registry *)

Module RegistryFacts.
Import Three TornadoField Registry Scenarios.
Local Open Scope R_scope.

#[local] Arguments sceneRemove : simpl never.
#[local] Arguments worldRemoveBody : simpl never.
#[local] Arguments removeBodyIf : simpl never.

Lemma placeBuilding_unknown_slot (slotId buildingType : string) (now : N)
    (w : World) :
  slots w !! slotId = None ->
  placeBuilding slotId buildingType now w = Throw "TypeError" w.
Proof. intros H. unfold placeBuilding. now rewrite H. Qed.

Lemma demolishBuilding_unknown_slot (slotId : string) (w : World) :
  slots w !! slotId = None ->
  demolishBuilding slotId w = Throw "TypeError" w.
Proof. intros H. unfold demolishBuilding. now rewrite H. Qed.

Lemma damageBuilding_unknown (buildingId : string) (w : World) :
  objGet buildingId (buildingVisuals w) = None ->
  damageBuilding buildingId w = Normal w.
Proof. intros H. unfold damageBuilding. now rewrite H. Qed.

(** C7.  On the registry of the scenario, where no slot and no building is
    called ["ghost"]: [damageBuilding "ghost"] returns and changes nothing,
    but [placeBuilding "ghost" "Casa"] and [demolishBuilding "ghost"] raise a
    TypeError (the state is unchanged, the call does not return normally). *)
Theorem unknown_slot_raises :
  let w := builtWorld (Vec3 0 0.4 0) in
  slots w !! "ghost" = None
  /\ objGet "ghost" (buildingVisuals w) = None
  /\ damageBuilding "ghost" w = Normal w
  /\ placeBuilding "ghost" "Casa" 1800 w = Throw "TypeError" w
  /\ demolishBuilding "ghost" w = Throw "TypeError" w.
Proof.
  cbv zeta.
  assert (Hs : slots (builtWorld (Vec3 0 0.4 0)) !! "ghost" = None)
    by (vm_compute; reflexivity).
  assert (Hb : objGet "ghost" (buildingVisuals (builtWorld (Vec3 0 0.4 0)))
               = None) by (vm_compute; reflexivity).
  split; [exact Hs|]. split; [exact Hb|]. split; [|split].
  - apply damageBuilding_unknown, Hb.
  - apply placeBuilding_unknown_slot, Hs.
  - apply demolishBuilding_unknown_slot, Hs.
Qed.

(** ** Dictionary lemmas *)

Lemma objGet_objSet_eq {V : Type} (k : string) (v : V)
    (o : list (string * V)) :
  objGet k (objSet k v o) = Some v.
Proof.
  induction o as [|[k' v'] rest IH]; simpl.
  - now rewrite decide_True.
  - destruct (decide (k' = k)) as [->|Hne]; simpl.
    + now rewrite decide_True.
    + now rewrite decide_False.
Qed.

Lemma objGet_objSet_ne {V : Type} (k k2 : string) (v : V)
    (o : list (string * V)) :
  k <> k2 -> objGet k2 (objSet k v o) = objGet k2 o.
Proof.
  intros Hne. induction o as [|[k' v'] rest IH]; simpl.
  - now rewrite decide_False.
  - destruct (decide (k' = k)) as [->|Hk]; simpl.
    + now rewrite !decide_False.
    + destruct (decide (k' = k2)); [reflexivity | exact IH].
Qed.

(** ** The damage transition *)

Lemma damageBuilding_damaged (buildingId : string) (w : World)
    (b : Building) :
  objGet buildingId (buildingVisuals w) = Some b -> damaged b = true ->
  damageBuilding buildingId w = Normal w.
Proof. intros Hb Hd. unfold damageBuilding. now rewrite Hb, Hd. Qed.

Lemma damageScan_damaged (t : Tornado) (buildingId : string) (w : World)
    (b : Building) :
  objGet buildingId (buildingVisuals w) = Some b -> damaged b = true ->
  damageScan t buildingId w = Normal w.
Proof. intros Hb Hd. unfold damageScan. now rewrite Hb, Hd. Qed.

Lemma damageBuilding_intact (buildingId : string) (w : World)
    (b : Building) (node : Node) :
  objGet buildingId (buildingVisuals w) = Some b -> damaged b = false ->
  nodeOf (visual b) w = Some node ->
  damageBuilding buildingId w = Normal (damagedWorld buildingId b node w).
Proof.
  intros Hb Hd Hn. unfold damageBuilding. rewrite Hb, Hd.
  replace (nodeOf (visual b) (set_buildingVisuals _ w))
    with (nodeOf (visual b) w) by (destruct (visual b) as [[]|]; reflexivity).
  rewrite Hn. reflexivity.
Qed.

Lemma buildingVisuals_sceneRemove (v : option JsValue) (w : World) :
  buildingVisuals (sceneRemove v w) = buildingVisuals w.
Proof. destruct v as [[]|]; reflexivity. Qed.

Lemma buildingVisuals_worldRemoveBody (v : JsValue) (w : World) :
  buildingVisuals (worldRemoveBody v w) = buildingVisuals w.
Proof. destruct v; reflexivity. Qed.

Lemma buildingVisuals_removeBodyIf (x : option JsValue) (w : World) :
  buildingVisuals (removeBodyIf x w) = buildingVisuals w.
Proof.
  unfold removeBodyIf. destruct x as [v|]; [|reflexivity].
  destruct (truthy _); [apply buildingVisuals_worldRemoveBody|reflexivity].
Qed.

Lemma pending_removeBodyIf (x : option JsValue) (w : World) :
  pending (removeBodyIf x w) = pending w.
Proof.
  unfold removeBodyIf. destruct x as [v|]; [|reflexivity].
  destruct (truthy _); [destruct v; reflexivity|reflexivity].
Qed.

Lemma pending_sceneRemove (v : option JsValue) (w : World) :
  pending (sceneRemove v w) = pending w.
Proof. destruct v as [[]|]; reflexivity. Qed.

Lemma pending_worldRemoveBody (v : JsValue) (w : World) :
  pending (worldRemoveBody v w) = pending w.
Proof. destruct v; reflexivity. Qed.

Lemma damagedWorld_buildingVisuals (buildingId : string) (b : Building)
    (node : Node) (w : World) :
  buildingVisuals (damagedWorld buildingId b node w)
  = objSet buildingId (set_damaged b true) (buildingVisuals w).
Proof.
  unfold damagedWorld, load. cbn.
  now rewrite buildingVisuals_removeBodyIf, buildingVisuals_sceneRemove.
Qed.

Lemma damagedWorld_pending (buildingId : string) (b : Building)
    (node : Node) (w : World) :
  exists req,
    pending (damagedWorld buildingId b node w) = pending w ++ [req]
    /\ loadCatch req = CatchConsoleError
    /\ loadOnLoad req
       = Some (OnCracked buildingId (buildingStamp b) (nposition node)
                 (nquaternion node)
                 match buildings w !! buildingType b with
                 | Some cfg => numberOr (Some (debrisMass cfg)) 10
                 | None => 10
                 end).
Proof.
  unfold damagedWorld, load. cbn. eexists. split.
  - rewrite pending_removeBodyIf, pending_sceneRemove. reflexivity.
  - split; reflexivity.
Qed.

(** After a damage call, however it ends, the building (if there is one) has
    its damaged flag set. *)
Lemma damageBuilding_sets_flag (buildingId : string) (w : World) :
  match objGet buildingId
          (buildingVisuals (stateOf (damageBuilding buildingId w))) with
  | Some b => damaged b = true
  | None => objGet buildingId (buildingVisuals w) = None
  end.
Proof.
  unfold damageBuilding.
  destruct (objGet buildingId (buildingVisuals w)) as [b|] eqn:Hb;
    [|cbn; now rewrite Hb].
  destruct (damaged b) eqn:Hd; [cbn; now rewrite Hb|].
  destruct (nodeOf (visual b) _) as [node|]; cbn.
  - rewrite buildingVisuals_removeBodyIf, buildingVisuals_sceneRemove.
    cbn. now rewrite objGet_objSet_eq.
  - now rewrite objGet_objSet_eq.
Qed.

(** ** A load that fails *)

Lemma settleLoad_failed_last (w : World) (req : LoadRequest) (l : list
    LoadRequest) (error : string) :
  pending w = l ++ [req] ->
  settleLoad (length l) (Failed error) w
  = runCatch (loadCatch req) error (set_pending l w).
Proof.
  intros Hp. unfold settleLoad. rewrite Hp.
  rewrite lookup_app_r, Nat.sub_diag by lia. cbn [lookup list_lookup].
  replace (delete (length l) (l ++ [req])) with l; [reflexivity|].
  clear. induction l as [|x l IH]; [reflexivity|]. cbn. f_equal. exact IH.
Qed.

(** C6, the claim as stated, fails: on the scenario registry, after the load
    of the broken model has failed the building is flagged damaged and its
    intact visual is gone from the scene. *)
Lemma failed_load_not_rolled_back :
  let w := builtWorld (Vec3 0 0.4 0) in
  let w2 := settleLoad 0 (Failed "404") (stateOf (damageBuilding casaId w)) in
  ~ priorStateIntact casaId w w2.
Proof.
  cbv zeta. intros (b & b2 & _ & Hb2 & Hd & _).
  assert (Hflag :
    damaged <$> objGet casaId
                  (buildingVisuals
                     (settleLoad 0 (Failed "404")
                        (stateOf (damageBuilding casaId
                                    (builtWorld (Vec3 0 0.4 0))))))
    = Some true) by (vm_compute; reflexivity).
  rewrite Hb2 in Hflag. cbn in Hflag. congruence.
Qed.

(** C6, amended.  When the load of the broken model fails during a damage
    transition of an intact building, nothing is thrown: the error goes to
    [console.error] and the load is no longer pending.  The transition is
    not undone: the building stays registered with its damaged flag set and
    its fragment list as it was, its intact visual has been removed from the
    scene, and a later damage call on it changes nothing. *)
Theorem failed_load_leaves_building_damaged (buildingId : string)
    (w : World) (b : Building) (n : NodeId) (node : Node) (error : string) :
  objGet buildingId (buildingVisuals w) = Some b ->
  damaged b = false ->
  visual b = Some (JNode n) ->
  nodes w !! n = Some node ->
  let w1 := stateOf (damageBuilding buildingId w) in
  let w2 := settleLoad (length (pending w)) (Failed error) w1 in
  damageBuilding buildingId w = Normal w1
  /\ console w2 = console w ++ [error]
  /\ pending w2 = pending w
  /\ objGet buildingId (buildingVisuals w2) = Some (set_damaged b true)
  /\ crackedBodies (set_damaged b true) = crackedBodies b
  /\ sceneChildren w2 = removeFirst n (sceneChildren w)
  /\ damageBuilding buildingId w2 = Normal w2.
Proof.
  intros Hb Hd Hv Hn. cbv zeta.
  assert (Hnode : nodeOf (visual b) w = Some node) by (now rewrite Hv).
  rewrite (damageBuilding_intact buildingId w b node Hb Hd Hnode).
  cbn [stateOf].
  destruct (damagedWorld_pending buildingId b node w)
    as (req & Hp & Hcatch & _).
  rewrite (settleLoad_failed_last _ req (pending w) error Hp), Hcatch.
  cbn [runCatch].
  assert (Hbv :
    objGet buildingId
      (buildingVisuals
         (set_console (console (set_pending (pending w)
                                  (damagedWorld buildingId b node w))
                       ++ [error])
            (set_pending (pending w) (damagedWorld buildingId b node w))))
    = Some (set_damaged b true)).
  { cbn [buildingVisuals set_console set_pending].
    rewrite damagedWorld_buildingVisuals. apply objGet_objSet_eq. }
  split; [reflexivity|]. split.
  { cbn [console set_console set_pending]. f_equal.
    unfold damagedWorld, load. cbn [console set_pending].
    unfold removeBodyIf.
    destruct (buildingBody b) as [v|];
      [destruct (truthy _); [destruct v|]|]; rewrite ?Hv; reflexivity. }
  split; [reflexivity|]. split; [exact Hbv|]. split; [reflexivity|]. split.
  { cbn [sceneChildren set_console set_pending].
    unfold damagedWorld, load. cbn [sceneChildren set_pending].
    unfold removeBodyIf.
    destruct (buildingBody b) as [v|];
      [destruct (truthy _); [destruct v|]|]; rewrite ?Hv; reflexivity. }
  eapply damageBuilding_damaged; [exact Hbv | reflexivity].
Qed.

Lemma failed_load_leaves_building_damaged_witness :
  let w := builtWorld (Vec3 0 0.4 0) in
  let w1 := stateOf (damageBuilding casaId w) in
  let w2 := settleLoad (length (pending w)) (Failed "404") w1 in
  damageBuilding casaId w = Normal w1
  /\ console w2 = console w ++ ["404"]
  /\ pending w2 = pending w
  /\ (exists b, objGet casaId (buildingVisuals w2) = Some b
                /\ damaged b = true)
  /\ sceneChildren w2 = removeFirst 1%nat (sceneChildren w)
  /\ damageBuilding casaId w2 = Normal w2.
Proof.
  cbv zeta.
  assert (Hb : exists b,
    objGet casaId (buildingVisuals (builtWorld (Vec3 0 0.4 0))) = Some b
    /\ damaged b = false /\ visual b = Some (JNode 1%nat))
    by (vm_compute; eexists; repeat split).
  destruct Hb as (b & Hb & Hd & Hv).
  assert (Hn : exists node,
    nodes (builtWorld (Vec3 0 0.4 0)) !! 1%nat = Some node)
    by (vm_compute; eexists; reflexivity).
  destruct Hn as (node & Hn).
  destruct (failed_load_leaves_building_damaged casaId
              (builtWorld (Vec3 0 0.4 0)) b 1%nat node "404" Hb Hd Hv Hn)
    as (H1 & H2 & H3 & H4 & _ & H6 & H7).
  split; [exact H1|]. split; [exact H2|]. split; [exact H3|].
  split; [exists (set_damaged b true); split; [exact H4 | reflexivity]|].
  split; [exact H6 | exact H7].
Defined.

(** ** Placing on an occupied slot *)

(** C10.  On the scenario registry, [placeBuilding] on the occupied slot
    ["s"] returns, deletes the building, clears the slot and requests the
    load of the new model, and the root of the old visual leaves the scene;
    but every physics body stays in the world (the intact body 0 of a
    building that is not damaged; the bodies 0 and 1 of the two loaded
    models and the fragment bodies 2 and 3 of a damaged one), and so do the
    fragment meshes 3 and 4 in the scene. *)
Theorem replacement_keeps_bodies :
  let place w := placeBuilding "s" "Casa" 1800 w in
  let intactW := builtWorld (Vec3 0 0.4 0) in
  let ruinW := ruinedWorld (Vec3 0 0.4 0) in
  (occupied <$> slots intactW !! "s" = Some true
   /\ returned (place intactW) = true
   /\ buildingVisuals (stateOf (place intactW)) = []
   /\ (fun s => (occupied s, slotBuildingId s))
        <$> slots (stateOf (place intactW)) !! "s" = Some (false, None)
   /\ length (pending (stateOf (place intactW))) = 1%nat
   /\ sceneChildren intactW = [0; 1]%nat
   /\ sceneChildren (stateOf (place intactW)) = [0]%nat
   /\ worldBodies intactW = [0]%nat
   /\ worldBodies (stateOf (place intactW)) = [0]%nat)
  /\ (occupied <$> slots ruinW !! "s" = Some true
      /\ returned (place ruinW) = true
      /\ buildingVisuals (stateOf (place ruinW)) = []
      /\ (fun s => (occupied s, slotBuildingId s))
           <$> slots (stateOf (place ruinW)) !! "s" = Some (false, None)
      /\ length (pending (stateOf (place ruinW))) = 1%nat
      /\ sceneChildren ruinW = [0; 2; 3; 4]%nat
      /\ sceneChildren (stateOf (place ruinW)) = [0; 3; 4]%nat
      /\ worldBodies ruinW = [0; 1; 2; 3]%nat
      /\ worldBodies (stateOf (place ruinW)) = [0; 1; 2; 3]%nat).
Proof.
  cbv zeta. split; (repeat (split; [vm_compute; reflexivity|]));
    vm_compute; reflexivity.
Qed.

(** ** Per-frame force application *)

Lemma modelForces_static (t : Tornado) (b : Body) :
  ~ bmass b > 0 -> modelForces t b = b.
Proof. intros H. unfold modelForces. now rewrite decide_False. Qed.

Lemma modelForces_outside (t : Tornado) (b : Body) :
  force (calculateForceOnObject t (bposition b) (bmass b)) = Vec3 0 0 0 ->
  modelForces t b = b.
Proof.
  intros Hz. unfold modelForces, clone.
  destruct (decide (bmass b > 0)); [|reflexivity].
  rewrite Hz. cbn [vx vy vz]. rewrite decide_False by tauto. reflexivity.
Qed.

(** For a positive mass the field lifts wherever it acts: a result with no
    lift is the zero result. *)
Lemma no_lift_no_field (t : Tornado) (objectPos : Vector3) (mass : R) :
  0 < mass ->
  vy (force (calculateForceOnObject t objectPos mass)) = 0 ->
  calculateForceOnObject t objectPos mass = mkForceResult zero3 zero3.
Proof.
  intros Hm Hy.
  destruct (Rlt_dec 0.1 (distanceToAxis t objectPos)) as [H1|H1].
  - destruct (Rlt_dec (distanceToAxis t objectPos) (maxRadius t)) as [H2|H2].
    + destruct (TornadoFacts.force_parts_inside t objectPos mass
                  (conj H1 H2) Hm) as [Hpos _].
      cbv zeta in Hpos. lra.
    + unfold calculateForceOnObject.
      rewrite TornadoFacts.traced_outside by (left; lra). reflexivity.
  - unfold calculateForceOnObject.
    rewrite TornadoFacts.traced_outside by (right; lra). reflexivity.
Qed.

Lemma Rzero_of_not_ne (x : R) : ~ x <> 0 -> x = 0.
Proof. intros H. destruct (Req_dec x 0); tauto. Qed.

Ltac vec3_eq :=
  unfold add, cross, set_x, set_y, set_z, zero3;
  cbn [vx vy vz bmass bposition bquaternion btorque halfExtents
       linearDamping angularDamping bforce];
  f_equal; ring.

(** What [ModelLoader.applyTornadoForces] leaves of a dynamic body. *)
Lemma modelForces_dynamic (t : Tornado) (b : Body) :
  bmass b > 0 ->
  let r := calculateForceOnObject t (bposition b) (bmass b) in
  let lift := Vec3 0 (vy (force r)) 0 in
  let horizontal := Vec3 (vx (force r)) 0 (vz (force r)) in
  modelForces t b
  = mkBody (bmass b) (bposition b) (bquaternion b)
      (add (add (add (btorque b) (cross (bposition b) lift))
              (cross (add (bposition b) (Vec3 0 0.8 0)) horizontal))
         (torque r))
      (halfExtents b) (linearDamping b) (angularDamping b)
      (add (add (bforce b) lift) horizontal).
Proof.
  intros Hm. cbv zeta. unfold modelForces, clone.
  rewrite decide_True by exact Hm.
  pose proof (no_lift_no_field t (bposition b) (bmass b) Hm) as Hout.
  destruct b as [m p q tq he ld ad fo]. cbn [bmass bposition] in *.
  remember (calculateForceOnObject t p m) as r eqn:Hr. clear Hr.
  destruct r as [[fx fy fz] [tx ty tz]]. cbn [force torque vx vy vz] in *.
  destruct tq as [qx qy qz], fo as [ox oy oz], p as [px py pz].
  destruct (decide (fx <> 0 \/ fy <> 0 \/ fz <> 0)) as [Hany|Hnone].
  - destruct (decide (fy <> 0)) as [Hy|Hy];
      destruct (decide (fx <> 0 \/ fz <> 0)) as [Hxz|Hxz];
      unfold applyForce, set_btorque;
      repeat (cbn [bmass bposition bquaternion btorque halfExtents
                   linearDamping angularDamping bforce];
              destruct (decide (m > 0)) as [_|Hn]; [|contradiction]);
      cbn [bmass bposition bquaternion btorque halfExtents linearDamping
           angularDamping bforce];
      try (apply Rzero_of_not_ne in Hy; subst fy);
      try (assert (fx = 0) by (apply Rzero_of_not_ne; tauto);
           assert (fz = 0) by (apply Rzero_of_not_ne; tauto); subst fx fz);
      f_equal; vec3_eq.
  - assert (fx = 0) by (apply Rzero_of_not_ne; tauto).
    assert (fy = 0) by (apply Rzero_of_not_ne; tauto).
    assert (fz = 0) by (apply Rzero_of_not_ne; tauto). subst fx fy fz.
    specialize (Hout eq_refl). injection Hout as -> -> ->.
    f_equal; vec3_eq.
Qed.

(** What the debris loop of [BuildingSlots.applyTornadoForces] leaves of a
    dynamic body. *)
Lemma debrisForces_dynamic (rnd : nat -> R) (t : Tornado) (c : nat)
    (b : Body) :
  bmass b > 0 ->
  let r := calculateForceOnObject t (bposition b) (bmass b) in
  let lift := Vec3 0 (vy (force r)) 0 in
  let horizontal := Vec3 (vx (force r)) 0 (vz (force r)) in
  debrisForces rnd t c b
  = mkBody (bmass b) (bposition b) (bquaternion b)
      (add (add (add (btorque b) (cross (bposition b) lift))
              (cross (bposition b) horizontal))
         (Vec3 ((rnd c - 0.5) * 10) ((rnd (c + 1)%nat - 0.5) * 10) 0))
      (halfExtents b) (linearDamping b) (angularDamping b)
      (add (add (bforce b) lift) horizontal).
Proof.
  intros Hm. cbv zeta. unfold debrisForces, applyForce, set_btorque.
  destruct b as [m p q tq he ld ad fo]. cbn [bmass bposition] in *.
  destruct p as [px py pz]. cbn [vx vy vz].
  remember (calculateForceOnObject t (Vec3 px py pz) m) as r eqn:Hr. clear Hr.
  destruct r as [[fx fy fz] [tx ty tz]]. cbn [force torque vx vy vz].
  repeat (cbn [bmass bposition bquaternion btorque halfExtents
               linearDamping angularDamping bforce];
          destruct (decide (m > 0)) as [_|Hn]; [|contradiction]).
  cbn [bmass bposition bquaternion btorque halfExtents linearDamping
       angularDamping bforce].
  destruct tq as [qx qy qz], fo as [ox oy oz].
  f_equal; vec3_eq.
Qed.

(** On a body that is not dynamic the debris loop still writes the random
    spin: [applyForce] does nothing, the two additions to [body.torque] are
    the loop's own. *)
Lemma debrisForces_static (rnd : nat -> R) (t : Tornado) (c : nat)
    (b : Body) :
  ~ bmass b > 0 ->
  debrisForces rnd t c b
  = set_btorque b
      (add (btorque b)
         (Vec3 ((rnd c - 0.5) * 10) ((rnd (c + 1)%nat - 0.5) * 10) 0)).
Proof.
  intros Hm. unfold debrisForces, applyForce, set_btorque.
  destruct b as [m p q [qx qy qz] he ld ad fo]. cbn [bmass] in Hm.
  repeat (cbn [bmass bposition bquaternion btorque halfExtents
               linearDamping angularDamping bforce];
          destruct (decide (m > 0)) as [Hn|_]; [contradiction|]).
  cbn [bmass bposition bquaternion btorque halfExtents linearDamping
       angularDamping bforce].
  f_equal; vec3_eq.
Qed.

Lemma away_result :
  calculateForceOnObject awayTornado (Vec3 0 0 0) 5
  = mkForceResult (Vec3 (-5250) 10 (-3750)) (Vec3 0 9000 2250).
Proof.
  unfold awayTornado.
  rewrite (TornadoFacts.force_translation scenarioTornado _ (Vec3 15 0 0)).
  - apply (TornadoFacts.scenario_result scenarioTornado
             eq_refl eq_refl eq_refl eq_refl).
  - unfold sub, set_y. cbn [vx vy vz position scenarioTornado].
    f_equal; lra.
Qed.

(** With the origin of the world at the body, the point [applyForce] is
    given is the centre of the body, and [ModelLoader.applyTornadoForces]
    does what the claim says, with the offset 0.8. *)
Lemma model_forces_split_at_origin :
  splitApplied awayTornado originBody (modelForces awayTornado originBody).
Proof.
  unfold splitApplied. cbv zeta. exists 0.8. split; [lra|].
  rewrite (modelForces_dynamic awayTornado originBody)
    by (cbn [bmass originBody]; lra).
  cbv zeta. cbn [bposition bmass btorque bforce originBody].
  rewrite away_result. cbn [force torque vx vy vz].
  split; [reflexivity|]. unfold add, cross, zero3. cbn [vx vy vz].
  f_equal; lra.
Qed.

(** C9, the claim as stated, fails for debris fragments.  With the origin of
    the world at the fragment (so that the point given to [applyForce] is
    the centre of the body), the debris loop leaves the torque of the body
    at zero: the horizontal force is not applied above the centre and the
    torque of the field, (0, 9000, 2250) there, is not added. *)
Lemma debris_forces_not_split :
  btorque (debrisForces (fun _ => 0.5) awayTornado 0 originBody) = zero3
  /\ ~ splitApplied awayTornado originBody
         (debrisForces (fun _ => 0.5) awayTornado 0 originBody).
Proof.
  rewrite (debrisForces_dynamic (fun _ => 0.5) awayTornado 0 originBody)
    by (cbn [bmass originBody]; lra).
  cbv zeta. cbn [bposition bmass btorque bforce originBody].
  rewrite away_result. cbn [force torque vx vy vz].
  split.
  - unfold add, cross, zero3. cbn [vx vy vz]. f_equal; lra.
  - unfold splitApplied. cbv zeta.
    cbn [bposition bmass btorque bforce originBody].
    rewrite away_result. cbn [force torque vx vy vz].
    intros (offset & _ & _ & H).
    unfold add, cross, zero3 in H. cbn [vx vy vz] in H.
    injection H as _ H _. lra.
Qed.

(** C9, amended.  For every dynamic body (mass above 0), with [r] the result
    of [calculateForceOnObject] at the body, both loops split the force of
    the field into the lift and the horizontal force, apply the two at a
    point [point] with [applyForce], and so add both to the force of the
    body.  [ModelLoader.applyTornadoForces] applies the horizontal force 0.8
    above the point of the lift and then adds the torque of the field to
    the torque of the body.  The debris loop of
    [BuildingSlots.applyTornadoForces] applies both forces at the same
    point, does not add the torque of the field, and adds a random amount in
    [[-5, 5)] to the x and to the y torque instead.  (Which point of the
    body [point] is, is not part of the statement; [modelForces_dynamic]
    and [debrisForces_dynamic] give what the code passes.) *)
Theorem force_application_by_kind (rnd : nat -> R) (t : Tornado)
    (c : nat) (b : Body) :
  (forall n, 0 <= rnd n < 1) ->
  bmass b > 0 ->
  let r := calculateForceOnObject t (bposition b) (bmass b) in
  let lift := Vec3 0 (vy (force r)) 0 in
  let horizontal := Vec3 (vx (force r)) 0 (vz (force r)) in
  exists point,
    (bforce (modelForces t b) = add (add (bforce b) lift) horizontal
     /\ btorque (modelForces t b)
        = add (add (add (btorque b) (cross point lift))
                 (cross (add point (Vec3 0 0.8 0)) horizontal))
            (torque r))
    /\ (bforce (debrisForces rnd t c b)
        = add (add (bforce b) lift) horizontal
        /\ exists dx dy,
             -5 <= dx < 5 /\ -5 <= dy < 5
             /\ btorque (debrisForces rnd t c b)
                = add (add (add (btorque b) (cross point lift))
                         (cross point horizontal))
                    (Vec3 dx dy 0)).
Proof.
  intros Hrnd Hm. cbv zeta. exists (bposition b).
  rewrite (modelForces_dynamic t b Hm), (debrisForces_dynamic rnd t c b Hm).
  cbv zeta. cbn [bforce btorque].
  split; [split; reflexivity|]. split; [reflexivity|].
  exists ((rnd c - 0.5) * 10), ((rnd (c + 1)%nat - 0.5) * 10).
  pose proof (Hrnd c). pose proof (Hrnd (c + 1)%nat).
  split; [lra|]. split; [lra|]. reflexivity.
Qed.

Lemma force_application_by_kind_witness :
  let rnd := fun _ : nat => 0.5 in
  let t := scenarioTornado in
  let b := fragmentBody in
  let r := calculateForceOnObject t (bposition b) (bmass b) in
  let lift := Vec3 0 (vy (force r)) 0 in
  let horizontal := Vec3 (vx (force r)) 0 (vz (force r)) in
  exists point,
    (bforce (modelForces t b) = add (add (bforce b) lift) horizontal
     /\ btorque (modelForces t b)
        = add (add (add (btorque b) (cross point lift))
                 (cross (add point (Vec3 0 0.8 0)) horizontal))
            (torque r))
    /\ (bforce (debrisForces rnd t 0 b)
        = add (add (bforce b) lift) horizontal
        /\ exists dx dy,
             -5 <= dx < 5 /\ -5 <= dy < 5
             /\ btorque (debrisForces rnd t 0 b)
                = add (add (add (btorque b) (cross point lift))
                         (cross point horizontal))
                    (Vec3 dx dy 0)).
Proof.
  apply (force_application_by_kind (fun _ => 0.5) scenarioTornado 0
           fragmentBody).
  - intros n. lra.
  - cbn. lra.
Defined.

(** What the code passes as the point: the position of the body in the
    world, which [applyForce] takes relative to the centre of the body.  For
    the fragment of the scenario, 15 from the origin of the world, the
    torque of a loaded model becomes (-3000, 65250, 6600), where the lift at
    the centre, the horizontal force 0.8 above it and the torque of the
    field give (-3000, 9000, 6450); the torque of a debris fragment becomes
    (0, 56250, 150). *)
Lemma world_position_as_point :
  btorque (modelForces scenarioTornado fragmentBody)
  = Vec3 (-3000) 65250 6600
  /\ add (add zero3 (cross (Vec3 0 0.8 0) (Vec3 (-5250) 0 (-3750))))
       (Vec3 0 9000 2250)
     = Vec3 (-3000) 9000 6450
  /\ btorque (debrisForces (fun _ => 0.5) scenarioTornado 0 fragmentBody)
     = Vec3 0 56250 150.
Proof.
  rewrite (modelForces_dynamic scenarioTornado fragmentBody)
    by (cbn [bmass fragmentBody]; lra).
  rewrite (debrisForces_dynamic (fun _ => 0.5) scenarioTornado 0
             fragmentBody) by (cbn [bmass fragmentBody]; lra).
  cbv zeta. cbn [bposition bmass btorque bforce fragmentBody].
  rewrite (TornadoFacts.scenario_result scenarioTornado
             eq_refl eq_refl eq_refl eq_refl).
  cbn [force torque vx vy vz].
  unfold add, cross, zero3. cbn [vx vy vz].
  split; [|split]; f_equal; lra.
Qed.

(** ** The proximity scan *)

Lemma damagedWorld_nodes (buildingId : string) (b : Building) (node : Node)
    (w : World) :
  nodes (damagedWorld buildingId b node w) = nodes w
  /\ damageThreshold (damagedWorld buildingId b node w) = damageThreshold w.
Proof.
  unfold damagedWorld, load, removeBodyIf, sceneRemove, worldRemoveBody.
  destruct (buildingBody b) as [v|];
    [destruct (truthy _); [destruct v|]|];
    destruct (visual b) as [[]|]; split; reflexivity.
Qed.

Lemma damageScan_intact (t : Tornado) (buildingId : string) (w : World)
    (b : Building) (node : Node) :
  objGet buildingId (buildingVisuals w) = Some b -> damaged b = false ->
  nodeOf (visual b) w = Some node ->
  damageScan t buildingId w
  = if decide (distanceTo (nposition node) (position t) < damageThreshold w)
    then damageBuilding buildingId w else Normal w.
Proof.
  intros Hb Hd Hn. unfold damageScan. now rewrite Hb, Hd, Hn.
Qed.

Section Scan.

Variable rnd : nat -> R.
Variable t : Tornado.

Lemma moveDebrisParts_frame (l : list DebrisPart) (w : World) :
  buildingVisuals (foldl (moveDebrisPart rnd t) w l) = buildingVisuals w
  /\ nodes (foldl (moveDebrisPart rnd t) w l) = nodes w
  /\ damageThreshold (foldl (moveDebrisPart rnd t) w l) = damageThreshold w.
Proof.
  revert w. induction l as [|d l IH]; intros w; [repeat split|].
  cbn [foldl]. destruct (IH (moveDebrisPart rnd t w d)) as (-> & -> & ->).
  repeat split.
Qed.

Lemma moveDebris_frame (buildingId : string) (w : World) :
  buildingVisuals (moveDebris rnd t buildingId w) = buildingVisuals w
  /\ nodes (moveDebris rnd t buildingId w) = nodes w
  /\ damageThreshold (moveDebris rnd t buildingId w) = damageThreshold w.
Proof.
  unfold moveDebris.
  destruct (objGet buildingId (buildingVisuals w)) as [b|]; [|repeat split].
  destruct (damaged b); [apply moveDebrisParts_frame|repeat split].
Qed.

Lemma nodeOf_frame (v : option JsValue) (w w0 : World) :
  nodes w = nodes w0 -> nodeOf v w = nodeOf v w0.
Proof. intros H. unfold nodeOf. now rewrite H. Qed.

Lemma scanStep_inv (w0 : World) (done : list string) (w : World)
    (entry : string * Building) :
  visualsLoaded w0 ->
  is_Some (objGet entry.1 (buildingVisuals w0)) ->
  scanInv t w0 done w ->
  exists w',
    scanStep rnd t (Normal w) entry = Normal w'
    /\ scanInv t w0 (done ++ [entry.1]) w'.
Proof.
  intros Hwf [b0 Hb0] (Hnodes & Hthr & Hall).
  destruct entry as [k e]. cbn [fst] in *. unfold scanStep. cbn [andThen fst].
  destruct (Hall k b0 Hb0) as (bk & Hbk & Hvis & Hkeep & Hnear & Hdone).
  destruct (damaged bk) eqn:Hdk.
  - rewrite (damageScan_damaged t k w bk Hbk Hdk). cbn [andThen].
    eexists. split; [reflexivity|].
    destruct (moveDebris_frame k w) as (Hbv & Hn & Ht).
    split; [congruence|]. split; [congruence|].
    intros id b Hb. rewrite Hbv.
    destruct (Hall id b Hb) as (b' & Hb' & Hv' & Hk' & Hn' & Hd').
    exists b'. repeat split; try assumption.
    intros Hfalse Hin Hcond. apply elem_of_app in Hin.
    destruct Hin as [Hin|Hin]; [now apply Hd'|].
    apply list_elem_of_singleton in Hin. subst id.
    rewrite Hb' in Hbk. now inversion Hbk; subst.
  - assert (Hd0 : damaged b0 = false)
      by (destruct (damaged b0); [discriminate (Hkeep eq_refl)|reflexivity]).
    destruct (Hwf k b0 Hb0 Hd0) as (node & Hnode).
    assert (Hnodek : nodeOf (visual bk) w = Some node)
      by (rewrite Hvis, (nodeOf_frame _ w w0 Hnodes); exact Hnode).
    rewrite (damageScan_intact t k w bk node Hbk Hdk Hnodek).
    destruct (decide _) as [Hc|Hc].
    + rewrite (damageBuilding_intact k w bk node Hbk Hdk Hnodek).
      cbn [andThen]. eexists. split; [reflexivity|].
      destruct (moveDebris_frame k (damagedWorld k bk node w))
        as (Hbv & Hn & Ht).
      destruct (damagedWorld_nodes k bk node w) as (Hn2 & Ht2).
      split; [congruence|]. split; [congruence|].
      intros id b Hb. rewrite Hbv, damagedWorld_buildingVisuals.
      destruct (decide (k = id)) as [->|Hne].
      * rewrite objGet_objSet_eq. exists (set_damaged bk true).
        rewrite Hb in Hb0. inversion Hb0; subst b0.
        repeat split; try reflexivity; try assumption.
        intros _ _ node' Hnode'. rewrite Hnode in Hnode'.
        inversion Hnode'; subst node'. rewrite <- Hthr. exact Hc.
      * rewrite (objGet_objSet_ne k id _ _ Hne).
        destruct (Hall id b Hb) as (b' & Hb' & Hv' & Hk' & Hn' & Hd').
        exists b'. repeat split; try assumption.
        intros Hfalse Hin Hcond. apply elem_of_app in Hin.
        destruct Hin as [Hin|Hin]; [now apply Hd'|].
        apply list_elem_of_singleton in Hin. congruence.
    + cbn [andThen]. eexists. split; [reflexivity|].
      destruct (moveDebris_frame k w) as (Hbv & Hn & Ht).
      split; [congruence|]. split; [congruence|].
      intros id b Hb. rewrite Hbv.
      destruct (Hall id b Hb) as (b' & Hb' & Hv' & Hk' & Hn' & Hd').
      exists b'. repeat split; try assumption.
      intros Hfalse Hin Hcond. apply elem_of_app in Hin.
      destruct Hin as [Hin|Hin]; [now apply Hd'|].
      apply list_elem_of_singleton in Hin. subst id.
      rewrite Hb in Hb0. inversion Hb0; subst b0.
      exfalso. apply Hc. rewrite Hthr. apply Hcond. exact Hnode.
Qed.

Lemma scanLoop_inv (w0 : World) (l : list (string * Building)) :
  visualsLoaded w0 ->
  forall (done : list string) (w : World),
  (forall entry, entry ∈ l ->
     is_Some (objGet entry.1 (buildingVisuals w0))) ->
  scanInv t w0 done w ->
  exists w',
    foldl (scanStep rnd t) (Normal w) l = Normal w'
    /\ scanInv t w0 (done ++ l.*1) w'.
Proof.
  intros Hwf. induction l as [|entry l IH]; intros done w Hkeys Hinv.
  - exists w. split; [reflexivity|]. cbn. now rewrite app_nil_r.
  - cbn [foldl].
    destruct (scanStep_inv w0 done w entry Hwf
                (Hkeys entry ltac:(left)) Hinv) as (w1 & -> & Hinv1).
    destruct (IH (done ++ [entry.1]) w1
                (fun e He => Hkeys e ltac:(right; exact He)) Hinv1)
      as (w' & Hrun & Hinv').
    exists w'. split; [exact Hrun|].
    cbn [fmap list_fmap]. now rewrite <- app_assoc in Hinv'.
Qed.

Lemma objGet_elem {V : Type} (k : string) (v : V) (o : list (string * V)) :
  objGet k o = Some v -> k ∈ o.*1.
Proof.
  induction o as [|[k' v'] o IH]; [discriminate|]. cbn.
  destruct (decide (k' = k)) as [->|Hne]; intros H.
  - left.
  - right. now apply IH.
Qed.

Lemma elem_objGet {V : Type} (entry : string * V) (o : list (string * V)) :
  entry ∈ o -> is_Some (objGet entry.1 o).
Proof.
  induction o as [|[k' v'] o IH]; intros Hin; [inversion Hin|]. cbn.
  destruct (decide (k' = entry.1)) as [_|Hne]; [eexists; reflexivity|].
  apply IH. apply elem_of_cons in Hin. destruct Hin as [->|Hin];
    [cbn in Hne; congruence | exact Hin].
Qed.

Lemma applyTornadoForces_scans (w : World) :
  tornado w = Some t -> visualsLoaded w ->
  exists w',
    applyTornadoForces rnd w = Normal w'
    /\ forall id b node,
         objGet id (buildingVisuals w) = Some b ->
         damaged b = false ->
         nodeOf (visual b) w = Some node ->
         exists b',
           objGet id (buildingVisuals w') = Some b'
           /\ (damaged b' = true
               <-> distanceTo (nposition node) (position t)
                   < damageThreshold w).
Proof.
  intros Ht Hwf. unfold applyTornadoForces. rewrite Ht.
  assert (Hinv0 : scanInv t w [] w).
  { split; [reflexivity|]. split; [reflexivity|].
    intros id b Hb. exists b. repeat split; try assumption; try tauto.
    - intros -> Hd. discriminate.
    - intros _ Hin. inversion Hin. }
  destruct (scanLoop_inv w (buildingVisuals w) Hwf [] w
              (fun e He => elem_objGet e _ He) Hinv0)
    as (w' & Hrun & _ & _ & Hall).
  exists w'. split; [exact Hrun|].
  intros id b node Hb Hd Hnode.
  destruct (Hall id b Hb) as (b' & Hb' & _ & _ & Hnear & Hdone).
  exists b'. split; [exact Hb'|]. split.
  - intros Hd'. apply (Hnear Hd Hd'). exact Hnode.
  - intros Hc. apply (Hdone Hd).
    + cbn. eapply objGet_elem. exact Hb.
    + intros node' Hnode'. rewrite Hnode in Hnode'.
      now inversion Hnode'; subst.
Qed.

End Scan.

Lemma builtWorld_facts (slotAt : Vector3) :
  tornado (builtWorld slotAt) = Some scenarioTornado
  /\ buildingVisuals (builtWorld slotAt) = [(casaId, casaBuilding slotAt)]
  /\ nodes (builtWorld slotAt) !! 1%nat = Some (casaNode slotAt)
  /\ damageThreshold (builtWorld slotAt) = 30.
Proof.
  split; [vm_compute; reflexivity|]. split; [vm_compute; reflexivity|].
  split; vm_compute; reflexivity.
Qed.

Lemma builtWorld_visualsLoaded (slotAt : Vector3) :
  visualsLoaded (builtWorld slotAt).
Proof.
  destruct (builtWorld_facts slotAt) as (_ & Hbv & Hn & _).
  intros id b Hb _. rewrite Hbv in Hb. cbn in Hb.
  destruct (decide (casaId = id)); [|discriminate].
  inversion Hb; subst b. exists (casaNode slotAt). exact Hn.
Qed.

Lemma grazing_distances :
  planarDistance (Vec3 29.998 0.4 0) (Vec3 0 0 0) < 30
  /\ ~ distanceTo (Vec3 29.998 0.4 0) (Vec3 0 0 0) < 30.
Proof.
  unfold planarDistance, distanceTo. cbn [vx vy vz]. split.
  - replace ((29.998 - 0) * (29.998 - 0) + (0 - 0) * (0 - 0))
      with (29.998 * 29.998) by lra.
    rewrite sqrt_square by lra. lra.
  - apply Rle_not_lt. rewrite <- (sqrt_square 30) at 1 by lra.
    apply sqrt_le_1; lra.
Qed.

(** C8, the claim as stated, fails: with the tornado at the origin and a
    building on a slot at (29.998, 0.4, 0), the horizontal distance 29.998
    is below the threshold 30, yet the scan does not damage the building:
    the distance it tests counts the 0.4 of height and is above 30. *)
Lemma scan_ignores_planar_distance :
  let w := builtWorld (Vec3 29.998 0.4 0) in
  ~ planarTrigger scenarioTornado casaId w
      (stateOf (applyTornadoForces (fun _ => 0.5) w)).
Proof.
  cbv zeta. intros Hclaim.
  set (at0 := Vec3 29.998 0.4 0) in *.
  destruct (builtWorld_facts at0) as (Ht & Hbv & Hn & Hthr).
  assert (Hb : objGet casaId (buildingVisuals (builtWorld at0))
               = Some (casaBuilding at0))
    by (rewrite Hbv; cbn; now rewrite decide_True).
  assert (Hnode : nodeOf (visual (casaBuilding at0)) (builtWorld at0)
                  = Some (casaNode at0)) by exact Hn.
  destruct (applyTornadoForces_scans (fun _ => 0.5) scenarioTornado
              (builtWorld at0) Ht (builtWorld_visualsLoaded at0))
    as (w' & Hrun & Hscan).
  rewrite Hrun in Hclaim. cbn [stateOf] in Hclaim.
  destruct (Hclaim (casaBuilding at0) (casaNode at0) Hb eq_refl Hnode)
    as (b1 & Hb1 & Hplanar).
  destruct (Hscan casaId (casaBuilding at0) (casaNode at0) Hb eq_refl Hnode)
    as (b2 & Hb2 & Hspatial).
  rewrite Hb1 in Hb2. inversion Hb2; subst b2.
  rewrite Hthr in *. destruct grazing_distances as (Hp & Hd).
  apply Hd. apply Hspatial. apply Hplanar. exact Hp.
Qed.

(** C8, amended.  With a tornado set and every intact building showing a
    loaded visual, the per-frame scan returns and, for every building that
    was not damaged, tests the distance in all three coordinates ([distanceTo],
    height included) between the position of the building's visual and the
    position of the tornado: the damage transition of that building is
    called, and its damaged flag set, exactly when that distance is below
    [damageThreshold]. *)
Theorem scan_triggers_on_spatial_distance (rnd : nat -> R) (t : Tornado)
    (w : World) :
  tornado w = Some t -> visualsLoaded w ->
  (forall id b node,
     objGet id (buildingVisuals w) = Some b -> damaged b = false ->
     nodeOf (visual b) w = Some node ->
     damageScan t id w
     = if decide (distanceTo (nposition node) (position t)
                  < damageThreshold w)
       then damageBuilding id w else Normal w)
  /\ exists w',
       applyTornadoForces rnd w = Normal w'
       /\ forall id b node,
            objGet id (buildingVisuals w) = Some b ->
            damaged b = false ->
            nodeOf (visual b) w = Some node ->
            exists b',
              objGet id (buildingVisuals w') = Some b'
              /\ (damaged b' = true
                  <-> distanceTo (nposition node) (position t)
                      < damageThreshold w).
Proof.
  intros Ht Hwf. split.
  - intros id b node Hb Hd Hn.
    exact (damageScan_intact t id w b node Hb Hd Hn).
  - apply applyTornadoForces_scans; assumption.
Qed.

Lemma scan_triggers_on_spatial_distance_witness :
  let w := builtWorld (Vec3 3 0.4 4) in
  exists w',
    applyTornadoForces (fun _ => 0.5) w = Normal w'
    /\ forall id b node,
         objGet id (buildingVisuals w) = Some b ->
         damaged b = false ->
         nodeOf (visual b) w = Some node ->
         exists b',
           objGet id (buildingVisuals w') = Some b'
           /\ (damaged b' = true
               <-> distanceTo (nposition node) (position scenarioTornado)
                   < damageThreshold w).
Proof.
  apply (scan_triggers_on_spatial_distance (fun _ => 0.5) scenarioTornado
           (builtWorld (Vec3 3 0.4 4))).
  - apply builtWorld_facts.
  - apply builtWorld_visualsLoaded.
Defined.

(** ** The fragments a loaded broken model yields *)

Lemma buildingVisuals_worldAddBody (b : BodyId) (w : World) :
  buildingVisuals (worldAddBody b w) = buildingVisuals w
  /\ nodes (worldAddBody b w) = nodes w.
Proof. unfold worldAddBody. destruct (decide _); split; reflexivity. Qed.

Lemma writeBuilding_hit (buildingId : string) (f : Building -> Building)
    (w : World) (b : Building) :
  objGet buildingId (buildingVisuals w) = Some b ->
  objGet buildingId
    (buildingVisuals (writeBuilding buildingId (buildingStamp b) f w))
  = Some (f b)
  /\ nodes (writeBuilding buildingId (buildingStamp b) f w) = nodes w.
Proof.
  intros Hb. unfold writeBuilding. rewrite Hb, decide_True by reflexivity.
  cbn. split; [apply objGet_objSet_eq | reflexivity].
Qed.

Lemma mesh_lookup_alter (l : list Node) (f : Node -> Node) (i c : nat) :
  (forall nd, nmesh (f nd) = nmesh nd) ->
  (exists nd md, l !! c = Some nd /\ nmesh nd = Some md) ->
  exists nd md, alter f i l !! c = Some nd /\ nmesh nd = Some md.
Proof.
  intros Hf (nd & md & Hnd & Hmd).
  destruct (decide (i = c)) as [->|Hne].
  - exists (f nd), md. rewrite list_lookup_alter_eq, Hnd. cbn.
    split; [reflexivity | now rewrite Hf].
  - exists nd, md. now rewrite list_lookup_alter_ne.
Qed.

Lemma mesh_lookup_insert (l : list Node) (new : Node) (md : MeshData)
    (i c : nat) :
  nmesh new = Some md -> (i < length l)%nat ->
  (exists nd md, l !! c = Some nd /\ nmesh nd = Some md) ->
  exists nd md, <[i := new]> l !! c = Some nd /\ nmesh nd = Some md.
Proof.
  intros Hnew Hi (nd & md' & Hnd & Hmd).
  destruct (decide (i = c)) as [->|Hne].
  - exists new, md. now rewrite list_lookup_insert_eq.
  - exists nd, md'. now rewrite list_lookup_insert_ne.
Qed.

Lemma isMeshNode_frame (w w' : World) (c : NodeId) :
  nodes w' = nodes w -> isMeshNode w c -> isMeshNode w' c.
Proof. intros H. unfold isMeshNode. now rewrite H. Qed.

Lemma makeDebris_ok (buildingId : string) (root : NodeId)
    (position : Vector3) (quaternion : Quaternion) (mass : R)
    (child : NodeId) (w : World) (b : Building) :
  isMeshNode w child ->
  objGet buildingId (buildingVisuals w) = Some b ->
  exists w' part,
    makeDebris buildingId (buildingStamp b) root position quaternion mass
      child w = Normal w'
    /\ mesh part = child
    /\ objGet buildingId (buildingVisuals w')
       = Some (set_crackedBodies b (crackedBodies b ++ [part]))
    /\ forall c, isMeshNode w c -> isMeshNode w' c.
Proof.
  intros (nd & md & Hnd & Hmd) Hb. unfold makeDebris.
  rewrite Hnd, Hmd.
  destruct (worldOf md position quaternion) as [[worldPos worldQuat]
    worldScale].
  cbv zeta. unfold allocBody.
  match goal with
  | |- context [writeBuilding _ _ _ ?w0] => set (wfinal := w0)
  end.
  assert (Hbv : buildingVisuals wfinal = buildingVisuals w).
  { unfold wfinal. now rewrite (proj1 (buildingVisuals_worldAddBody _ _)). }
  assert (Hmesh : forall c, isMeshNode w c -> isMeshNode wfinal c).
  { intros c Hc. unfold isMeshNode, wfinal.
    rewrite (proj2 (buildingVisuals_worldAddBody _ _)).
    cbn [nodes set_bodies set_nodes sceneAdd set_sceneChildren].
    eapply mesh_lookup_insert; [reflexivity| |].
    - rewrite length_alter. eapply lookup_lt_Some. exact Hnd.
    - apply mesh_lookup_alter; [reflexivity | exact Hc]. }
  rewrite <- Hbv in Hb.
  eexists _, (mkDebrisPart child _). split; [reflexivity|].
  split; [reflexivity|]. split.
  - match goal with
    | |- objGet _ (buildingVisuals (writeBuilding _ _ ?f _)) = _ =>
        exact (proj1 (writeBuilding_hit buildingId f wfinal b Hb))
    end.
  - intros c Hc. unfold isMeshNode.
    match goal with
    | |- context [writeBuilding _ _ ?f _] =>
        rewrite (proj2 (writeBuilding_hit buildingId f wfinal b Hb))
    end.
    now apply Hmesh.
Qed.

Lemma debrisLoop_ok (buildingId : string) (root : NodeId)
    (position : Vector3) (quaternion : Quaternion) (mass : R)
    (stamp : nat) (todo : list NodeId) :
  forall (w : World) (b : Building),
  buildingStamp b = stamp ->
  objGet buildingId (buildingVisuals w) = Some b ->
  Forall (isMeshNode w) todo ->
  exists w' b',
    foldl (fun r child =>
             andThen r (makeDebris buildingId stamp root position quaternion
                          mass child))
      (Normal w) todo = Normal w'
    /\ objGet buildingId (buildingVisuals w') = Some b'
    /\ damaged b' = damaged b
    /\ visual b' = visual b
    /\ mesh <$> crackedBodies b' = (mesh <$> crackedBodies b) ++ todo.
Proof.
  induction todo as [|child todo IH]; intros w b Hst Hb Hall.
  - exists w, b. cbn. rewrite app_nil_r. repeat split. exact Hb.
  - apply Forall_cons in Hall. destruct Hall as [Hchild Hrest].
    subst stamp.
    destruct (makeDebris_ok buildingId root position quaternion mass child
                w b Hchild Hb) as (w1 & part & Hrun & Hpart & Hb1 & Hkeep).
    cbn [foldl andThen]. rewrite Hrun.
    destruct (IH w1 (set_crackedBodies b (crackedBodies b ++ [part]))
                eq_refl Hb1) as (w' & b' & Hloop & Hb' & Hd & Hv & Hm).
    { eapply Forall_impl; [exact Hrest|]. exact Hkeep. }
    exists w', b'. split; [exact Hloop|]. split; [exact Hb'|].
    split; [exact Hd|]. split; [exact Hv|].
    rewrite Hm. cbn. rewrite fmap_app, <- app_assoc. cbn.
    now rewrite Hpart.
Qed.

Lemma onCracked_ok (buildingId : string) (position : Vector3)
    (quaternion : Quaternion) (mass : R)
    (crackedData : gmap string JsValue) (root : NodeId) (rootNode : Node)
    (w : World) (b : Building) :
  crackedData !! "visual" = Some (JNode root) ->
  crackedData !! "body" = None ->
  objGet buildingId (buildingVisuals w) = Some b ->
  nodes w !! root = Some rootNode ->
  Forall (isMeshNode w) (nmeshes rootNode) ->
  exists w' b',
    onCracked buildingId (buildingStamp b) position quaternion mass
      crackedData w = Normal w'
    /\ objGet buildingId (buildingVisuals w') = Some b'
    /\ damaged b' = damaged b
    /\ visual b' = Some (JNode root)
    /\ mesh <$> crackedBodies b' = nmeshes rootNode.
Proof.
  intros Hvis Hbody Hb Hroot Hall. unfold onCracked. rewrite Hvis, Hbody.
  cbv zeta. unfold removeBodyIf.
  destruct (writeBuilding_hit buildingId
              (fun b0 => set_visual b0 (Some (JNode root))) w b Hb)
    as (Hb1 & Hn1).
  set (w1 := writeBuilding buildingId (buildingStamp b) _ w) in *.
  set (w2 := setNodeTransform root position quaternion w1).
  assert (Hb2 : objGet buildingId (buildingVisuals w2)
                = Some (set_visual b (Some (JNode root)))) by exact Hb1.
  destruct (writeBuilding_hit buildingId
              (fun b0 => set_crackedBodies b0 []) w2 _ Hb2) as (Hb3 & Hn3).
  cbn [buildingStamp set_visual] in Hb3, Hn3.
  set (w3 := writeBuilding buildingId (buildingStamp b) _ w2) in *.
  assert (Hnodes3 : nodes w3
                    = alter (fun nd => mkNode position quaternion (nscale nd)
                                         (nvisible nd) (nmesh nd)
                                         (nmeshes nd)) root (nodes w)).
  { rewrite Hn3. unfold w2, setNodeTransform. cbn [nodes set_nodes].
    now rewrite Hn1. }
  assert (Hroot3 : nodes w3 !! root
                   = Some (mkNode position quaternion (nscale rootNode)
                             (nvisible rootNode) (nmesh rootNode)
                             (nmeshes rootNode))).
  { rewrite Hnodes3, list_lookup_alter_eq, Hroot. reflexivity. }
  rewrite Hroot3. cbn [nmeshes].
  destruct (debrisLoop_ok buildingId root position quaternion mass
              (buildingStamp b) (nmeshes rootNode) w3
              (set_crackedBodies (set_visual b (Some (JNode root))) [])
              eq_refl Hb3)
    as (w' & b' & Hloop & Hb' & Hd & Hv & Hm).
  { eapply Forall_impl; [exact Hall|]. intros c Hc. unfold isMeshNode.
    rewrite Hnodes3. apply mesh_lookup_alter; [reflexivity | exact Hc]. }
  exists w', b'. split; [exact Hloop|]. split; [exact Hb'|].
  split; [exact Hd|]. split; [exact Hv|]. exact Hm.
Qed.

Lemma settleLoad_loaded_last (w : World) (req : LoadRequest)
    (l : list LoadRequest) (asset : Asset) :
  pending w = l ++ [req] ->
  settleLoad (length l) (Loaded asset) w
  = match onGltfLoaded req asset (set_pending l w) with
    | Normal w' => w'
    | Throw error w' => runCatch (loadCatch req) error w'
    end.
Proof.
  intros Hp. unfold settleLoad. rewrite Hp.
  rewrite lookup_app_r, Nat.sub_diag by lia. cbn [lookup list_lookup].
  replace (delete (length l) (l ++ [req])) with l; [reflexivity|].
  clear. induction l as [|x l IH]; [reflexivity|]. cbn. f_equal. exact IH.
Qed.

Lemma onGltfLoaded_cracked (req : LoadRequest) (asset : Asset) (w : World)
    (buildingId : string) (b : Building) (position : Vector3)
    (quaternion : Quaternion) (mass : R) :
  loadOnLoad req
  = Some (OnCracked buildingId (buildingStamp b) position quaternion mass) ->
  objGet buildingId (buildingVisuals w) = Some b ->
  exists w' b',
    onGltfLoaded req asset w = Normal w'
    /\ objGet buildingId (buildingVisuals w') = Some b'
    /\ damaged b' = damaged b
    /\ visual b' = Some (JNode (length (nodes w)))
    /\ mesh <$> crackedBodies b'
       = seq (S (length (nodes w))) (length (assetPieces asset)).
Proof.
  intros Hcb Hb. unfold onGltfLoaded, instantiate, allocBody. cbv zeta.
  rewrite Hcb. cbn [runCallback].
  match goal with
  | |- context [onCracked _ _ _ _ _ ?md ?w0] =>
      set (crackedData := md); set (wl := w0)
  end.
  set (root := length (nodes w)).
  set (pieces := _ <$> assetPieces asset).
  set (rootNode := mkNode (loadPosition req) identityQuaternion
                     (Vec3 (loadScale req) (loadScale req) (loadScale req))
                     true None
                     (seq (S root) (length (assetPieces asset)))).
  assert (Hnodes : nodes wl = nodes w ++ rootNode :: pieces).
  { unfold wl. cbn [nodes set_loadedModels].
    now rewrite (proj2 (buildingVisuals_worldAddBody _ _)). }
  assert (Hbl : objGet buildingId (buildingVisuals wl) = Some b).
  { unfold wl. cbn [buildingVisuals set_loadedModels].
    now rewrite (proj1 (buildingVisuals_worldAddBody _ _)). }
  destruct (onCracked_ok buildingId position quaternion mass crackedData
              root rootNode wl b) as (w' & b' & Hrun & Hb' & Hd & Hv & Hm).
  - reflexivity.
  - reflexivity.
  - exact Hbl.
  - rewrite Hnodes. apply list_lookup_middle. reflexivity.
  - cbn [nmeshes rootNode]. apply Forall_seq. intros i Hi.
    unfold isMeshNode. rewrite Hnodes.
    assert (Hlt : (i - S root < length (assetPieces asset))%nat) by lia.
    destruct (lookup_lt_is_Some_2 (assetPieces asset) (i - S root) Hlt)
      as (piece & Hpiece).
    exists (mkNode (piecePosition piece) (pieceQuaternion piece)
              (pieceScale piece) true (Some (pieceMesh piece)) []),
      (pieceMesh piece).
    split; [|reflexivity].
    rewrite lookup_app_r by (unfold root in *; lia).
    replace (i - length (nodes w))%nat with (S (i - S root))
      by (unfold root in *; lia).
    change ((rootNode :: pieces) !! S (i - S root)%nat)
      with (pieces !! (i - S root)%nat).
    unfold pieces. rewrite list_lookup_fmap, Hpiece. reflexivity.
  - exists w', b'. split; [exact Hrun|]. split; [exact Hb'|].
    split; [exact Hd|]. split; [exact Hv|]. exact Hm.
Qed.

(** After a damage call on an intact building, the load of the broken
    model, once it succeeds, yields one fragment per mesh of the model. *)
Lemma damage_then_load_fragments (buildingId : string) (w : World)
    (b : Building) (node : Node) (asset : Asset) :
  objGet buildingId (buildingVisuals w) = Some b -> damaged b = false ->
  nodeOf (visual b) w = Some node ->
  exists b',
    objGet buildingId
      (buildingVisuals
         (settleLoad (length (pending w)) (Loaded asset)
            (stateOf (damageBuilding buildingId w)))) = Some b'
    /\ damaged b' = true
    /\ length (crackedBodies b') = length (assetPieces asset).
Proof.
  intros Hb Hd Hn.
  rewrite (damageBuilding_intact buildingId w b node Hb Hd Hn).
  cbn [stateOf].
  destruct (damagedWorld_pending buildingId b node w)
    as (req & Hp & _ & Hcb).
  rewrite (settleLoad_loaded_last _ req (pending w) asset Hp).
  assert (Hb1 : objGet buildingId
                  (buildingVisuals
                     (set_pending (pending w)
                        (damagedWorld buildingId b node w)))
                = Some (set_damaged b true)).
  { cbn [buildingVisuals set_pending].
    rewrite damagedWorld_buildingVisuals. apply objGet_objSet_eq. }
  destruct (onGltfLoaded_cracked req asset _ buildingId
              (set_damaged b true) _ _ _ Hcb Hb1)
    as (w' & b' & -> & Hb' & Hd' & _ & Hm).
  exists b'. split; [exact Hb'|]. split; [exact Hd'|].
  rewrite <- (length_fmap mesh), Hm. apply length_seq.
Qed.

(** C5.  Whatever the registry and the building id, in the state a call of
    [damageBuilding] leaves behind, a second call and a proximity scan of
    that building return without changing anything.  On a building whose
    damaged flag is set, the call and the scan change nothing.  Two calls in
    a row on an intact building leave exactly one load of the broken model
    in flight, and when it succeeds the building has one fragment per mesh
    of that model: one set of fragments. *)
Theorem damageBuilding_idempotent (buildingId : string) (w : World) :
  let w1 := stateOf (damageBuilding buildingId w) in
  let w2 := stateOf (damageBuilding buildingId w1) in
  damageBuilding buildingId w1 = Normal w1
  /\ w2 = w1
  /\ (forall t, damageScan t buildingId w1 = Normal w1)
  /\ (forall b,
        objGet buildingId (buildingVisuals w) = Some b -> damaged b = true ->
        damageBuilding buildingId w = Normal w
        /\ forall t, damageScan t buildingId w = Normal w)
  /\ (forall b node asset,
        objGet buildingId (buildingVisuals w) = Some b ->
        damaged b = false ->
        nodeOf (visual b) w = Some node ->
        length (pending w2) = S (length (pending w))
        /\ exists b',
             objGet buildingId
               (buildingVisuals
                  (settleLoad (length (pending w)) (Loaded asset) w2))
             = Some b'
             /\ damaged b' = true
             /\ length (crackedBodies b') = length (assetPieces asset)).
Proof.
  cbv zeta. pose proof (damageBuilding_sets_flag buildingId w) as Hflag.
  assert (Hsecond :
    damageBuilding buildingId (stateOf (damageBuilding buildingId w))
    = Normal (stateOf (damageBuilding buildingId w))).
  { destruct (objGet buildingId (buildingVisuals (stateOf _))) as [b|] eqn:Hb.
    - eapply damageBuilding_damaged; eassumption.
    - apply damageBuilding_unknown. exact Hb. }
  split; [exact Hsecond|]. rewrite Hsecond. cbn [stateOf].
  split; [reflexivity|]. split; [|split].
  - intros t.
    destruct (objGet buildingId (buildingVisuals (stateOf _))) as [b|] eqn:Hb.
    + eapply damageScan_damaged; eassumption.
    + unfold damageScan. now rewrite Hb.
  - intros b Hb Hd. split.
    + eapply damageBuilding_damaged; eassumption.
    + intros t. eapply damageScan_damaged; eassumption.
  - intros b node asset Hb Hd Hn. split.
    + rewrite (damageBuilding_intact buildingId w b node Hb Hd Hn).
      cbn [stateOf].
      destruct (damagedWorld_pending buildingId b node w) as (req & -> & _).
      rewrite length_app. cbn. lia.
    + exact (damage_then_load_fragments buildingId w b node asset Hb Hd Hn).
Qed.

End RegistryFacts.


(** * Further properties of the force field *)

Module TornadoMore.
Import Three TornadoField.
Local Open Scope R_scope.

(** The vector from the query to the axis has no vertical part, whatever the
    heights of the query and of the tornado. *)
Lemma axis_vector (t : Tornado) (objectPos : Vector3) :
  sub (clone (set_y (clone (position t)) (vy objectPos))) objectPos
  = Vec3 (vx (position t) - vx objectPos) 0 (vz (position t) - vz objectPos).
Proof. unfold sub, set_y, clone. cbn. f_equal. apply Rminus_diag. Qed.

(** X1.  The force and the torque on a body do not depend on the height of
    the body, nor on the height of the tornado: only the horizontal offset
    counts. *)
Theorem force_ignores_height (t : Tornado) (p : Vector3) (y ty mass : R) :
  calculateForceOnObject (set_position t (set_y (position t) ty))
    (set_y p y) mass
  = calculateForceOnObject t p mass.
Proof.
  unfold calculateForceOnObject, calculateForceOnObject_traced.
  rewrite !axis_vector. reflexivity.
Qed.

Lemma force_outside (t : Tornado) (objectPos : Vector3) (mass : R) :
  ~ (distanceToAxis t objectPos < maxRadius t
     /\ distanceToAxis t objectPos > 0.1) ->
  calculateForceOnObject t objectPos mass = mkForceResult zero3 zero3.
Proof.
  intros Hout. unfold calculateForceOnObject, calculateForceOnObject_traced.
  fold (distanceToAxis t objectPos).
  destruct (decide _) as [Hin|_]; [tauto | reflexivity].
Qed.

(** X2.  Force and torque are exactly inversely proportional to the mass:
    for two masses that are not zero, mass times force is the same vector,
    and so is mass times torque, at every position. *)
Theorem force_times_mass_constant (t : Tornado) (p : Vector3)
    (mass1 mass2 : R) :
  mass1 <> 0 -> mass2 <> 0 ->
  multiplyScalar (force (calculateForceOnObject t p mass1)) mass1
  = multiplyScalar (force (calculateForceOnObject t p mass2)) mass2
  /\ multiplyScalar (torque (calculateForceOnObject t p mass1)) mass1
     = multiplyScalar (torque (calculateForceOnObject t p mass2)) mass2.
Proof.
  intros H1 H2.
  destruct (decide (distanceToAxis t p < maxRadius t
                    /\ distanceToAxis t p > 0.1)) as [Hin|Hout].
  - assert (Hin' : 0.1 < distanceToAxis t p < maxRadius t) by lra.
    rewrite !(TornadoFacts.force_inside t p _ Hin'). cbv zeta.
    unfold multiplyScalar. cbn [force torque vx vy vz].
    split; f_equal; field; repeat split; assumption.
  - rewrite !(force_outside t p _ Hout). unfold multiplyScalar, zero3. cbn.
    split; f_equal; ring.
Qed.

Lemma force_times_mass_constant_witness :
  multiplyScalar
    (force (calculateForceOnObject scenarioTornado (Vec3 15 0 0) 2)) 2
  = multiplyScalar
      (force (calculateForceOnObject scenarioTornado (Vec3 15 0 0) 5)) 5.
Proof.
  apply (force_times_mass_constant scenarioTornado (Vec3 15 0 0) 2 5); lra.
Defined.

Lemma inside_parts (t : Tornado) (p : Vector3) (mass : R) :
  0.1 < distanceToAxis t p < maxRadius t -> mass <> 0 ->
  let r := calculateForceOnObject t p mass in
  let falloff := falloffAt t (distanceToAxis t p) in
  let baseForce := tornadoForceStrength t * falloff / mass in
  vy (force r) = 200 * falloff / mass
  /\ vx (force r) * vx (force r) + vz (force r) * vz (force r)
     = 0.74 * (baseForce * baseForce)
  /\ vy (torque r) = 1.2 * baseForce
  /\ vx (torque r) * vx (torque r) + vz (torque r) * vz (torque r)
     = (0.3 * baseForce) * (0.3 * baseForce).
Proof.
  intros Hin Hm. cbv zeta.
  rewrite (TornadoFacts.force_inside t p mass Hin). cbv zeta.
  cbn [force torque vx vy vz]. rewrite TornadoFacts.normalize_axis_y.
  pose proof (TornadoFacts.direction_unit t p (proj1 Hin)) as Hunit.
  cbv zeta in Hunit.
  set (n := normalize _) in *.
  set (b := tornadoForceStrength t * falloffAt t (distanceToAxis t p) / mass).
  pose proof (sin2_cos2 (time t * 2)) as Hsc. unfold Rsqr in Hsc.
  split; [lra|]. split; [|split; [lra|]].
  - replace ((0 + vx n * (b * 0.7) + - vz n * (b * 0.5))
             * (0 + vx n * (b * 0.7) + - vz n * (b * 0.5))
             + (0 + vz n * (b * 0.7) + vx n * (b * 0.5))
               * (0 + vz n * (b * 0.7) + vx n * (b * 0.5)))
      with (0.74 * (b * b) * (vx n * vx n + vz n * vz n)) by nra.
    rewrite Hunit. lra.
  - replace (sin (time t * 2) * b * 0.3 * (sin (time t * 2) * b * 0.3)
             + cos (time t * 2) * b * 0.3 * (cos (time t * 2) * b * 0.3))
      with (0.3 * b * (0.3 * b)
            * (sin (time t * 2) * sin (time t * 2)
               + cos (time t * 2) * cos (time t * 2))) by nra.
    rewrite Hsc. lra.
Qed.

(** X3.  Inside the field the force splits into a lift [200 * falloff / mass]
    that does not depend on the field strength, and a horizontal part of
    squared length [0.74 * baseForce^2] (0.7 toward the axis, 0.5 around it);
    the torque has [1.2 * baseForce] about the vertical and a wobble of
    length [0.3 * |baseForce|] in the horizontal plane. *)
Theorem force_decomposition (t : Tornado) (p : Vector3) (mass : R) :
  0.1 < planarDistance p (position t) < maxRadius t -> mass <> 0 ->
  let r := calculateForceOnObject t p mass in
  let falloff := falloffAt t (planarDistance p (position t)) in
  let baseForce := tornadoForceStrength t * falloff / mass in
  vy (force r) = 200 * falloff / mass
  /\ vx (force r) * vx (force r) + vz (force r) * vz (force r)
     = 0.74 * (baseForce * baseForce)
  /\ vy (torque r) = 1.2 * baseForce
  /\ vx (torque r) * vx (torque r) + vz (torque r) * vz (torque r)
     = (0.3 * baseForce) * (0.3 * baseForce).
Proof.
  rewrite <- TornadoFacts.distanceToAxis_planar. intros Hin Hm.
  exact (inside_parts t p mass Hin Hm).
Qed.

Lemma force_decomposition_witness :
  vy (force (calculateForceOnObject scenarioTornado (Vec3 15 0 0) 5))
  = 200 * falloffAt scenarioTornado
            (planarDistance (Vec3 15 0 0) (position scenarioTornado)) / 5.
Proof.
  apply (force_decomposition scenarioTornado (Vec3 15 0 0) 5).
  - rewrite <- TornadoFacts.distanceToAxis_planar,
      TornadoFacts.scenario_distance. cbn. lra.
  - lra.
Defined.

Lemma falloff_decreasing (t : Tornado) (d1 d2 : R) :
  0 <= d1 -> d1 < d2 -> d2 < maxRadius t ->
  0 < falloffAt t d2 < falloffAt t d1 /\ falloffAt t d1 <= 1.
Proof.
  intros H0 Hlt HR. unfold falloffAt, Math_pow2.
  assert (HR0 : 0 < maxRadius t) by lra.
  assert (Hinv : 0 < / maxRadius t) by (apply Rinv_0_lt_compat; exact HR0).
  assert (H1 : 0 <= d1 / maxRadius t) by (unfold Rdiv; nra).
  assert (H2 : d1 / maxRadius t < d2 / maxRadius t) by (unfold Rdiv; nra).
  assert (H3 : d2 / maxRadius t < 1).
  { apply (Rmult_lt_reg_r (maxRadius t)); [exact HR0|].
    unfold Rdiv. rewrite Rmult_assoc, Rinv_l by lra. lra. }
  cbn. nra.
Qed.

(** X4.  The falloff is quadratic: inside the field it lies in (0, 1], and at
    equal mass the force on the body nearer to the axis is strictly longer
    than the force on the body farther from it. *)
Theorem force_decays_with_distance (t : Tornado) (p1 p2 : Vector3)
    (mass : R) :
  0.1 < planarDistance p1 (position t) ->
  planarDistance p1 (position t) < planarDistance p2 (position t) ->
  planarDistance p2 (position t) < maxRadius t ->
  mass <> 0 ->
  0 < falloffAt t (planarDistance p2 (position t))
    < falloffAt t (planarDistance p1 (position t))
  /\ falloffAt t (planarDistance p1 (position t)) <= 1
  /\ length3 (force (calculateForceOnObject t p1 mass))
     > length3 (force (calculateForceOnObject t p2 mass)).
Proof.
  rewrite <- !TornadoFacts.distanceToAxis_planar. intros H1 Hlt H2 Hm.
  assert (H0 : 0 <= distanceToAxis t p1) by lra.
  destruct (falloff_decreasing t _ _ H0 Hlt H2) as ((Hf2 & Hf12) & Hf1).
  split; [tauto|]. split; [exact Hf1|].
  assert (Hin1 : 0.1 < distanceToAxis t p1 < maxRadius t) by lra.
  assert (Hin2 : 0.1 < distanceToAxis t p2 < maxRadius t) by lra.
  destruct (inside_parts t p1 mass Hin1 Hm) as (Hy1 & Hh1 & _).
  destruct (inside_parts t p2 mass Hin2 Hm) as (Hy2 & Hh2 & _).
  cbv zeta in *. unfold length3, Rgt.
  set (F1 := force (calculateForceOnObject t p1 mass)) in *.
  set (F2 := force (calculateForceOnObject t p2 mass)) in *.
  set (f1 := falloffAt t (distanceToAxis t p1)) in *.
  set (f2 := falloffAt t (distanceToAxis t p2)) in *.
  set (S := tornadoForceStrength t) in *.
  assert (Hk : 0 < / mass * / mass).
  { assert (/ mass <> 0) by (apply Rinv_neq_0_compat; exact Hm). nra. }
  assert (Hsq1 : vx F1 * vx F1 + vy F1 * vy F1 + vz F1 * vz F1
                 = f1 * f1 * (/ mass * / mass) * (0.74 * (S * S) + 40000)).
  { rewrite Hy1. unfold Rdiv in *. nra. }
  assert (Hsq2 : vx F2 * vx F2 + vy F2 * vy F2 + vz F2 * vz F2
                 = f2 * f2 * (/ mass * / mass) * (0.74 * (S * S) + 40000)).
  { rewrite Hy2. unfold Rdiv in *. nra. }
  rewrite Hsq1, Hsq2.
  assert (HK : 0 < (/ mass * / mass) * (0.74 * (S * S) + 40000)) by nra.
  set (K := / mass * / mass * (0.74 * (S * S) + 40000)) in *.
  replace (f1 * f1 * (/ mass * / mass) * (0.74 * (S * S) + 40000))
    with (f1 * f1 * K) by (unfold K; ring).
  replace (f2 * f2 * (/ mass * / mass) * (0.74 * (S * S) + 40000))
    with (f2 * f2 * K) by (unfold K; ring).
  clearbody K f1 f2. clear - Hf2 Hf12 HK.
  assert (0 < f2 * f2) by nra.
  assert (f2 * f2 < f1 * f1) by nra.
  apply sqrt_lt_1; nra.
Qed.

Lemma force_decays_with_distance_witness :
  length3 (force (calculateForceOnObject scenarioTornado (Vec3 3 0 4) 5))
  > length3 (force (calculateForceOnObject scenarioTornado (Vec3 15 0 0) 5)).
Proof.
  assert (H5 : planarDistance (Vec3 3 0 4) (position scenarioTornado) = 5).
  { unfold planarDistance. cbn.
    replace ((3 - 0) * (3 - 0) + (4 - 0) * (4 - 0)) with (5 * 5) by lra.
    apply sqrt_square. lra. }
  assert (H15 : planarDistance (Vec3 15 0 0) (position scenarioTornado) = 15).
  { unfold planarDistance. cbn.
    replace ((15 - 0) * (15 - 0) + (0 - 0) * (0 - 0)) with (15 * 15) by lra.
    apply sqrt_square. lra. }
  apply (force_decays_with_distance scenarioTornado (Vec3 3 0 4)
           (Vec3 15 0 0) 5).
  - rewrite H5. lra.
  - rewrite H5, H15. lra.
  - rewrite H15. cbn. lra.
  - lra.
Defined.

(** ** The profiles of the funnel *)

Lemma Math_pow_mono (x y e : R) :
  0 <= x <= y -> 0 < e -> 0 <= Math_pow x e <= Math_pow y e.
Proof.
  intros [Hx Hxy] He. unfold Math_pow.
  destruct (decide (x = 0)) as [->|Hx0]; destruct (decide (y = 0)) as [->|Hy0].
  - lra.
  - split; [lra|]. left. apply exp_pos.
  - lra.
  - split; [left; apply exp_pos|]. apply Rle_Rpower_l; lra.
Qed.

Lemma Math_pow_one (e : R) : Math_pow 1 e = 1.
Proof.
  unfold Math_pow. destruct (decide (1 = 0)) as [H|_]; [lra|].
  unfold Rpower. rewrite ln_1, Rmult_0_r. apply exp_0.
Qed.

Lemma radius_profile (t : Tornado) (h1 h2 : R) :
  0 < maxHeight t -> 0 <= maxRadius t ->
  0 <= h1 -> h1 <= h2 -> h2 <= maxHeight t ->
  calculateMaxRadius t 0 = 0.15 * maxRadius t
  /\ calculateMaxRadius t (maxHeight t) = maxRadius t
  /\ 0.15 * maxRadius t <= calculateMaxRadius t h1
  /\ calculateMaxRadius t h1 <= calculateMaxRadius t h2
  /\ calculateMaxRadius t h2 <= maxRadius t.
Proof.
  intros HH HR H1 H12 H2. unfold calculateMaxRadius. cbv zeta.
  assert (Hinv : 0 < / maxHeight t) by (apply Rinv_0_lt_compat; exact HH).
  assert (Hn1 : 0 <= h1 / maxHeight t) by (unfold Rdiv; nra).
  assert (Hn12 : h1 / maxHeight t <= h2 / maxHeight t) by (unfold Rdiv; nra).
  assert (Hn2 : h2 / maxHeight t <= 1).
  { apply (Rmult_le_reg_r (maxHeight t)); [exact HH|].
    unfold Rdiv. rewrite Rmult_assoc, Rinv_l by lra. lra. }
  pose proof (Math_pow_mono _ _ 0.7 (conj Hn1 Hn12) ltac:(lra)) as [Hp1 Hp12].
  pose proof (Math_pow_mono _ 1 0.7 (conj (Rle_trans _ _ _ Hn1 Hn12) Hn2)
                ltac:(lra)) as [_ Hp2].
  rewrite Math_pow_one in Hp2.
  replace (0 / maxHeight t) with 0 by (unfold Rdiv; ring).
  replace (maxHeight t / maxHeight t) with 1 by (field; lra).
  rewrite Math_pow_one. unfold Math_pow at 1.
  rewrite decide_True by reflexivity.
  repeat split; nra.
Qed.

(** X5.  The funnel profile: [calculateMaxRadius] is [0.15 * maxRadius] on
    the ground and [maxRadius] at [maxHeight], and between the two it does
    not decrease with the height. *)
Theorem calculateMaxRadius_profile (t : Tornado) (h1 h2 : R) :
  0 < maxHeight t -> 0 <= maxRadius t ->
  0 <= h1 -> h1 <= h2 -> h2 <= maxHeight t ->
  calculateMaxRadius t 0 = 0.15 * maxRadius t
  /\ calculateMaxRadius t (maxHeight t) = maxRadius t
  /\ 0.15 * maxRadius t <= calculateMaxRadius t h1
  /\ calculateMaxRadius t h1 <= calculateMaxRadius t h2
  /\ calculateMaxRadius t h2 <= maxRadius t.
Proof. exact (radius_profile t h1 h2). Qed.

Lemma calculateMaxRadius_profile_witness :
  calculateMaxRadius scenarioTornado 0 = 0.15 * maxRadius scenarioTornado
  /\ calculateMaxRadius scenarioTornado (maxHeight scenarioTornado)
     = maxRadius scenarioTornado
  /\ 0.15 * maxRadius scenarioTornado <= calculateMaxRadius scenarioTornado 10
  /\ calculateMaxRadius scenarioTornado 10
     <= calculateMaxRadius scenarioTornado 45
  /\ calculateMaxRadius scenarioTornado 45 <= maxRadius scenarioTornado.
Proof.
  apply (calculateMaxRadius_profile scenarioTornado 10 45); cbn; lra.
Defined.

Lemma exp_neg_square (x : R) : 0 < exp (- Math_pow2 x) <= 1.
Proof.
  split; [apply exp_pos|]. unfold Math_pow2.
  destruct (Req_dec x 0) as [->|Hx].
  - replace (- 0 ^ 2) with 0 by (cbn; ring). rewrite exp_0. lra.
  - left. rewrite <- exp_0. apply exp_increasing. cbn. nra.
Qed.

(** X6.  The spin profile: for a local radius [maxRadiusAtHeight] other than
    0 and a base speed that is not negative, [calculateAngularVelocity] lies
    between 0.3 and 2.3 times the base speed, strictly above the lower end
    when the base speed is positive, and it reaches 2.3 times the base speed
    at 80% of the local radius.  With the local radius 0 and a radius other
    than 0 the result is the lower end itself, 0.3 times the base speed, for
    every base speed. *)
Theorem calculateAngularVelocity_bounds (radius maxRadiusAtHeight
    baseSpeed : R) :
  (maxRadiusAtHeight <> 0 -> 0 <= baseSpeed ->
   0.3 * baseSpeed
   <= calculateAngularVelocity radius maxRadiusAtHeight baseSpeed
   <= 2.3 * baseSpeed)
  /\ (maxRadiusAtHeight <> 0 -> 0 < baseSpeed ->
      0.3 * baseSpeed
      < calculateAngularVelocity radius maxRadiusAtHeight baseSpeed)
  /\ (maxRadiusAtHeight <> 0 ->
      calculateAngularVelocity (0.8 * maxRadiusAtHeight) maxRadiusAtHeight
        baseSpeed = 2.3 * baseSpeed)
  /\ (radius <> 0 ->
      calculateAngularVelocity radius 0 baseSpeed = 0.3 * baseSpeed).
Proof.
  unfold calculateAngularVelocity. cbv zeta.
  pose proof (exp_neg_square ((radius / maxRadiusAtHeight - 0.8) * 3))
    as [He0 He1].
  split; [|split; [|split]].
  - intros Hm Hb. rewrite decide_False by exact Hm. split; nra.
  - intros Hm Hb. rewrite decide_False by exact Hm. nra.
  - intros Hm. rewrite decide_False by exact Hm.
    replace ((0.8 * maxRadiusAtHeight / maxRadiusAtHeight - 0.8) * 3) with 0
      by (field; exact Hm).
    unfold Math_pow2. replace (- 0 ^ 2) with 0 by (cbn; ring).
    rewrite exp_0. lra.
  - intros _. rewrite decide_True by reflexivity. lra.
Qed.

Lemma calculateAngularVelocity_bounds_witness :
  0.3 * 2 <= calculateAngularVelocity 20 30 2 <= 2.3 * 2.
Proof.
  apply (calculateAngularVelocity_bounds 20 30 2); lra.
Defined.

End TornadoMore.


(** * Further properties of the particle pool *)

Module PoolMore.
Import Three TornadoField PoolNotions.
Local Open Scope R_scope.

Section Pool.

Variable rnd : nat -> R.

Lemma updateParticles_shape (t : Tornado) (delta ceiling chaos : R)
    (n : nat) :
  forall (ps : list Particle) (c : nat),
  match updateParticles rnd t delta ceiling chaos n ps c with
  | None => (length ps < n)%nat
  | Some (ps', buf, c') =>
      (n <= length ps)%nat /\ length ps' = length ps /\ length buf = n
      /\ drop n ps' = drop n ps
  end.
Proof.
  induction n as [|n IH]; intros ps c; cbn [updateParticles].
  - repeat split. lia.
  - destruct ps as [|p rest]; [cbn; lia|].
    destruct (updateParticle rnd t delta ceiling chaos p c) as [[p' pos] c1].
    specialize (IH rest c1).
    destruct (updateParticles rnd t delta ceiling chaos n rest c1)
      as [[[rest' buf] c2]|].
    + destruct IH as (Hn & Hlen & Hbuf & Hdrop). cbn.
      repeat split; [lia | lia | lia | exact Hdrop].
    + cbn. lia.
Qed.

Lemma updateParticles_Forall (t : Tornado) (delta ceiling chaos : R)
    (P Qp : Particle -> Prop) (Qv : Vector3 -> Prop) :
  (forall p c, P p ->
     Qp (updateParticle rnd t delta ceiling chaos p c).1.1
     /\ Qv (updateParticle rnd t delta ceiling chaos p c).1.2) ->
  forall (n : nat) (ps ps' : list Particle) (buf : list Vector3)
    (c c' : nat),
  Forall P (take n ps) ->
  updateParticles rnd t delta ceiling chaos n ps c = Some (ps', buf, c') ->
  Forall Qp (take n ps') /\ Forall Qv buf.
Proof.
  intros Hstep. induction n as [|n IH]; intros ps ps' buf c c' Hall Hrun.
  - cbn in Hrun. inversion Hrun; subst. split; constructor.
  - cbn [updateParticles] in Hrun. destruct ps as [|p rest]; [discriminate|].
    cbn in Hall. apply Forall_cons in Hall. destruct Hall as [Hp Hrest].
    pose proof (Hstep p c Hp) as Hq.
    destruct (updateParticle rnd t delta ceiling chaos p c) as [[p' pos] c1].
    destruct (updateParticles rnd t delta ceiling chaos n rest c1)
      as [[[rest' buf'] c2]|] eqn:Hrec; [|discriminate].
    inversion Hrun; subst.
    destruct (IH rest rest' buf' c1 c' Hrest Hrec) as [Hps Hbuf].
    destruct Hq as [Hqp Hqv]. cbn.
    split; constructor; assumption.
Qed.

(** X7.  [update] raises (the loop reads a particle that is not there)
    exactly when [particleCount] exceeds the size of the pool.  When it
    returns, both clocks have advanced by [delta], the tornado has moved by
    [velocity * delta], the pool and the position buffer keep their sizes,
    and no parameter has changed. *)
Theorem update_returns_iff (delta : R) (t : Tornado) (c : nat) :
  (update rnd delta t c = None
   <-> (length (particles t) < particleCount t)%nat)
  /\ forall t' c',
       update rnd delta t c = Some (t', c') ->
       time t' = time t + delta
       /\ formationTime t' = formationTime t + delta
       /\ position t' = addScaledVector (position t) (velocity t) delta
       /\ length (particles t') = length (particles t)
       /\ length (positions t') = length (positions t)
       /\ particleCount t' = particleCount t
       /\ (maxHeight t', maxRadius t', coreRadius t', velocity t',
           tornadoForceStrength t', formationDuration t')
          = (maxHeight t, maxRadius t, coreRadius t, velocity t,
             tornadoForceStrength t, formationDuration t).
Proof.
  unfold update. cbv zeta.
  match goal with
  | |- context [updateParticles rnd ?u delta ?ce ?ch ?n ?ps c] =>
      pose proof (updateParticles_shape u delta ce ch n ps c) as Hshape;
      destruct (updateParticles rnd u delta ce ch n ps c)
        as [[[ps' buf] c1]|]
  end; cbn in Hshape.
  - split; [split; [discriminate | lia]|].
    intros t' c' Heq. inversion Heq; subst. cbn.
    destruct Hshape as (Hn & Hlen & Hbuf & _).
    repeat split; try assumption.
    unfold writePositions. rewrite length_take, length_app, length_drop. lia.
  - split; [split; [intros _; exact Hshape | reflexivity]|].
    intros t' c' Heq. discriminate.
Qed.

Hypothesis rnd_range : forall n, 0 <= rnd n < 1.

Lemma createParticle_ranges (t : Tornado) (c : nat) :
  0 <= maxHeight t -> particleRanges (createParticle rnd t c).1.1.
Proof.
  intros HH. unfold particleRanges, createParticle. cbn.
  pose proof (TornadoFacts.Math_pow_unit (rnd c) 1.5 (rnd_range c)
                ltac:(lra)) as Hp.
  pose proof (rnd_range (c + 2)). pose proof (rnd_range (c + 4)).
  pose proof (rnd_range (c + 7)). pose proof (rnd_range (c + 10)).
  pose proof (rnd_range (c + 11)). pose proof (rnd_range (c + 12)).
  repeat split; nra.
Qed.

Lemma createParticles_ranges (t : Tornado) (n c : nat) :
  0 <= maxHeight t ->
  length (createParticles rnd t n c).1.1 = n
  /\ length (createParticles rnd t n c).1.2 = n
  /\ Forall particleRanges (createParticles rnd t n c).1.1.
Proof.
  intros HH. revert c.
  induction n as [|n IH]; intros c; [repeat split; constructor|].
  cbn [createParticles].
  pose proof (createParticle_ranges t c HH) as Hp.
  destruct (createParticle rnd t c) as [[p pos] c1].
  specialize (IH c1).
  destruct (createParticles rnd t n c1) as [[ps buf] c2].
  cbn in *. destruct IH as (Hl1 & Hl2 & Hall).
  repeat split; [lia | lia | constructor; assumption].
Qed.

Lemma updateParticle_fields (t : Tornado) (delta ceiling chaos : R)
    (p : Particle) (c : nat) :
  let p' := (updateParticle rnd t delta ceiling chaos p c).1.1 in
  (targetRadiusFactor p', radialOscillation p', chaosXFactor p',
   chaosYFactor p', chaosZFactor p', upwardSpeed p', spinSpeed p',
   turbulenceOffset p', chaosInitial p')
  = (targetRadiusFactor p, radialOscillation p, chaosXFactor p,
     chaosYFactor p, chaosZFactor p, upwardSpeed p, spinSpeed p,
     turbulenceOffset p, chaosInitial p)
  /\ chaosFactor p' = chaos
  /\ (height p' = 0
      \/ height p' = height p + upwardSpeed p * delta
         /\ height p' <= maxHeight t /\ height p' <= ceiling).
Proof.
  cbv zeta. unfold updateParticle.
  cbn [set_chaosFactor set_height height upwardSpeed].
  destruct (decide _) as [Hover|Hin]; cbn.
  - repeat split. left. reflexivity.
  - repeat split. right. repeat split; lra.
Qed.

Lemma updateParticle_ranges (t : Tornado) (delta ceiling chaos : R)
    (p : Particle) (c : nat) :
  0 <= delta -> particleRanges p ->
  particleRanges (updateParticle rnd t delta ceiling chaos p c).1.1.
Proof.
  intros Hd (Hh & Hu & Hrest).
  destruct (updateParticle_fields t delta ceiling chaos p c)
    as (Hf & _ & Hheight).
  cbv zeta in *. inversion Hf as [[H1 H2 H3 H4 H5 H6 H7 H8 H9]].
  unfold particleRanges. rewrite H1, H2, H3, H4, H5, H6.
  split; [|split; [exact Hu | exact Hrest]].
  destruct Hheight as [->|(-> & _)]; nra.
Qed.

Lemma new_Tornado_sane (c : nat) : poolSane (new_Tornado rnd c).1.
Proof.
  unfold new_Tornado, createGeometryAndMesh. cbv zeta.
  match goal with
  | |- context [createParticles rnd ?u ?n ?k] =>
      pose proof (createParticles_ranges u n k ltac:(cbn; lra)) as Hc;
      destruct (createParticles rnd u n k) as [[ps buf] c1]
  end.
  cbn in Hc. destruct Hc as (Hl1 & Hl2 & Hall).
  unfold poolSane. cbn.
  repeat split; try lra; try assumption; lia.
Qed.

Lemma setParticleCount_sane (n : nat) (t : Tornado) (c : nat) :
  poolSane t -> poolSane (setParticleCount rnd n t c).1.
Proof.
  intros Hs. unfold setParticleCount.
  destruct (decide _) as [_|_]; [exact Hs|].
  destruct Hs as (HH & HR & HD & _ & _ & _ & _).
  unfold createGeometryAndMesh. cbv zeta. cbn [particleCount set_pool].
  match goal with
  | |- context [createParticles rnd ?u n ?k] =>
      pose proof (createParticles_ranges u n k ltac:(cbn; lra)) as Hc;
      destruct (createParticles rnd u n k) as [[ps buf] c1]
  end.
  cbn in Hc. destruct Hc as (Hl1 & Hl2 & Hall).
  unfold poolSane. cbn.
  repeat split; try lra; try assumption; lia.
Qed.

Lemma update_sane (delta : R) (t : Tornado) (c : nat) :
  0 <= delta -> poolSane t ->
  exists t' c', update rnd delta t c = Some (t', c') /\ poolSane t'.
Proof.
  intros Hd (HH & HR & HD & HF & Hcount & Hbuf & Hall).
  unfold update. cbv zeta.
  match goal with
  | |- context [updateParticles rnd ?u delta ?ce ?ch ?n ?ps c] =>
      pose proof (updateParticles_shape u delta ce ch n ps c) as Hshape;
      pose proof (updateParticles_Forall u delta ce ch particleRanges
                    particleRanges (fun _ => True)
                    (fun p c0 Hp =>
                       conj (updateParticle_ranges u delta ce ch p c0 Hd Hp)
                         I) n ps) as HForall;
      destruct (updateParticles rnd u delta ce ch n ps c)
        as [[[ps' buf] c1]|] eqn:Hrun
  end; cbn in Hshape, HForall.
  - destruct Hshape as (Hn & Hlen & Hlbuf & _).
    eexists _, _. split; [reflexivity|].
    destruct (HForall ps' buf c c1) as [Hps _]; [|exact Hrun|].
    { rewrite take_ge by lia. exact Hall. }
    rewrite take_ge in Hps by lia.
    unfold poolSane. cbn.
    repeat split; try lra; try assumption; try lia.
    unfold writePositions. rewrite length_take, length_app, length_drop. lia.
  - exfalso. lia.
Qed.

Lemma runOps_sane (ops : list TornadoOp) :
  Forall opNonneg ops ->
  forall (t : Tornado) (c : nat), poolSane t ->
  exists t' c', runOps rnd ops t c = Some (t', c') /\ poolSane t'.
Proof.
  induction 1 as [|op ops Hop _ IH]; intros t c Hs.
  - exists t, c. split; [reflexivity | exact Hs].
  - cbn [runOps]. destruct op as [delta|n]; cbn [runOp].
    + destruct (update_sane delta t c Hop Hs) as (t1 & c1 & -> & Hs1).
      apply IH. exact Hs1.
    + pose proof (setParticleCount_sane n t c Hs) as Hs1.
      destruct (setParticleCount rnd n t c) as [t1 c1].
      apply IH. exact Hs1.
Qed.

Lemma progress_range (t : Tornado) (delta : R) :
  0 < formationDuration t -> 0 <= formationTime t -> 0 <= delta ->
  0 <= progressAfter t delta <= 1
  /\ (formationDuration t <= formationTime t + delta ->
      progressAfter t delta = 1).
Proof.
  intros HD HF Hd. unfold progressAfter, Math_min.
  assert (Hinv : 0 < / formationDuration t)
    by (apply Rinv_0_lt_compat; exact HD).
  assert (Hq : 0 <= (formationTime t + delta) / formationDuration t)
    by (unfold Rdiv; nra).
  split.
  - unfold Rmin. destruct (Rle_dec _ _); lra.
  - intros Hformed.
    assert (1 <= (formationTime t + delta) / formationDuration t).
    { apply (Rmult_le_reg_r (formationDuration t)); [exact HD|].
      unfold Rdiv. rewrite Rmult_assoc, Rinv_l by lra. lra. }
    unfold Rmin. destruct (Rle_dec _ _); lra.
Qed.

Lemma product_bound (a b m : R) :
  0 <= a <= m -> -1 <= b <= 1 -> - m <= a * b <= m.
Proof. intros. nra. Qed.

Lemma target_radius_bound (r big trf s ro : R) :
  0 <= r <= big -> 0.7 <= trf <= 1 -> -1 <= s <= 1 -> 0 <= ro <= 0.5 ->
  0 <= r * (trf + s * ro * 0.1) <= 1.05 * big.
Proof.
  intros Hr Htrf Hs Hro.
  assert (-0.5 <= s * ro <= 0.5) by nra.
  assert (0.65 <= trf + s * ro * 0.1 <= 1.05) by lra.
  nra.
Qed.

Lemma written_in_box (t : Tornado) (r trf s ro k s0 cf chaos : R) :
  0 <= r <= maxRadius t -> 0.7 <= trf <= 1 -> -1 <= s <= 1 ->
  0 <= ro <= 0.5 -> -1 <= k <= 1 -> -1 <= s0 <= 1 ->
  -0.5 <= cf <= 0.5 -> 0 <= chaos <= 1 ->
  - (1.05 * maxRadius t + 1.08)
  <= r * (trf + s * ro * 0.1) * k + s0 * 0.08 + cf * (2.0 * chaos)
  <= 1.05 * maxRadius t + 1.08.
Proof.
  intros Hr Htrf Hs Hro Hk Hs0 Hcf Hchaos.
  pose proof (target_radius_bound r (maxRadius t) trf s ro Hr Htrf Hs Hro)
    as Htr.
  pose proof (product_bound _ k _ Htr Hk) as Hprod.
  assert (-1 <= cf * (2.0 * chaos) <= 1) by nra.
  lra.
Qed.

Lemma updateParticle_box (t : Tornado) (delta ceiling chaos : R)
    (p : Particle) (c : nat) :
  0 < maxHeight t -> 0 <= maxRadius t -> 0 <= delta ->
  0 <= chaos <= 1 -> particleRanges p ->
  inCloudBox t (updateParticle rnd t delta ceiling chaos p c).1.2.
Proof.
  intros HH HR Hd Hchaos (Hh & Hu & Htrf & Hosc & Hcx & Hcy & Hcz).
  assert (Hrad : forall h, 0 <= h <= maxHeight t ->
            0 <= calculateMaxRadius t h <= maxRadius t).
  { intros h [Hh0 Hh1].
    destruct (TornadoMore.radius_profile t h h HH HR Hh0 (Rle_refl h) Hh1)
      as (_ & _ & Hlo & _ & Hhi). lra. }
  assert (Hbox : forall h r s k s0 s1 k0 s2,
            0 <= h <= maxHeight t -> 0 <= r <= maxRadius t ->
            -1 <= s <= 1 -> -1 <= k <= 1 -> -1 <= s0 <= 1 ->
            -1 <= s1 <= 1 -> -1 <= k0 <= 1 -> -1 <= s2 <= 1 ->
            inCloudBox t
              (Vec3 (r * (targetRadiusFactor p + s * radialOscillation p * 0.1)
                     * k + s0 * 0.08 + chaosXFactor p * (2.0 * chaos)
                     + vx (position t))
                    (h + s2 * 0.5 + chaosYFactor p * (2.0 * chaos) * 0.5
                     + vy (position t))
                    (r * (targetRadiusFactor p + s * radialOscillation p * 0.1)
                     * s1 + k0 * 0.08 + chaosZFactor p * (2.0 * chaos)
                     + vz (position t)))).
  { intros h r s k s0 s1 k0 s2 Hh' Hr Hs Hk Hs0 Hs1 Hk0 Hs2.
    unfold inCloudBox. cbn [vx vy vz].
    pose proof (written_in_box t r _ s _ k s0 _ chaos Hr Htrf Hs Hosc Hk Hs0
                  Hcx Hchaos).
    pose proof (written_in_box t r _ s _ s1 k0 _ chaos Hr Htrf Hs Hosc Hs1
                  Hk0 Hcz Hchaos).
    assert (-0.5 <= chaosYFactor p * (2.0 * chaos) * 0.5 <= 0.5) by nra.
    repeat split; lra. }
  unfold updateParticle.
  cbn [set_chaosFactor set_height height upwardSpeed].
  destruct (decide _) as [Hover|Hin];
    cbn -[calculateMaxRadius calculateAngularVelocity].
  - apply Hbox; try apply SIN_bound; try apply COS_bound.
    + lra.
    + apply Hrad. lra.
  - apply Hbox; try apply SIN_bound; try apply COS_bound.
    + split; [nra | lra].
    + apply Hrad. split; [nra | lra].
Qed.

Lemma update_unfold (delta : R) (t : Tornado) (c : nat) :
  update rnd delta t c
  = let u := set_position
               (set_clock t (time t + delta) (formationTime t + delta))
               (addScaledVector (position t) (velocity t) delta) in
    match updateParticles rnd u delta (maxHeight t * progressAfter t delta)
            (1 - progressAfter t delta) (particleCount t) (particles t) c with
    | None => None
    | Some (ps, written, c') =>
        Some (set_pool u (particleCount t) ps
                (writePositions (positions t) written), c')
    end.
Proof. reflexivity. Qed.

Lemma update_formation (delta : R) (t : Tornado) (c : nat) :
  0 <= delta -> poolSane t ->
  exists t' c',
    update rnd delta t c = Some (t', c')
    /\ Forall (fun p =>
                 chaosFactor p = 1 - progressAfter t delta
                 /\ 0 <= height p <= maxHeight t * progressAfter t delta)
         (particles t')
    /\ Forall (inCloudBox t') (positions t').
Proof.
  intros Hd (HH & HR & HD & HF & Hcount & Hbuf & Hall).
  destruct (progress_range t delta HD HF Hd) as (Hprog & _).
  rewrite update_unfold. cbv zeta.
  set (u0 := set_position _ _).
  set (ce := maxHeight t * progressAfter t delta).
  set (ch := 1 - progressAfter t delta).
  pose proof (updateParticles_shape u0 delta ce ch (particleCount t)
                (particles t) c) as Hshape.
  pose proof (updateParticles_Forall u0 delta ce ch particleRanges
                (fun p => chaosFactor p = ch /\ 0 <= height p <= ce)
                (inCloudBox u0)) as HForall.
  destruct (updateParticles rnd u0 delta ce ch (particleCount t)
              (particles t) c) as [[[ps' buf] c1]|] eqn:Hrun;
    cbn in Hshape; [|exfalso; lia].
  destruct Hshape as (Hn & Hlen & Hlbuf & _).
  destruct (HForall) with (n := particleCount t) (ps := particles t)
    (ps' := ps') (buf := buf) (c := c) (c' := c1) as [Hps Hpos].
  - intros p c0 Hp. split.
    + destruct (updateParticle_fields u0 delta ce ch p c0)
        as (_ & Hch & Hheight).
      cbv zeta in Hch, Hheight. cbv beta. split; [exact Hch|].
      destruct Hp as (Hh & Hu & _).
      assert (0 <= ce) by (unfold ce; nra).
      destruct Hheight as [Hz|(Hz & _ & Hce)]; [rewrite Hz; lra|].
      split; [rewrite Hz; nra | exact Hce].
    + apply updateParticle_box; try assumption. unfold ch. lra.
  - rewrite take_ge by lia. exact Hall.
  - exact Hrun.
  - rewrite take_ge in Hps by lia.
    eexists _, _. split; [reflexivity|]. cbn [particles positions set_pool].
    split; [exact Hps|].
    unfold writePositions. apply Forall_take. apply Forall_app. split.
    + exact Hpos.
    + rewrite drop_ge by lia. constructor.
Qed.

End Pool.

(** X8.  Formation.  From a new tornado, after any operations, an [update]
    leaves every particle with the chaos factor [1 - progress] and with a
    height between 0 and the ceiling [maxHeight * progress], where
    [progress] is the formation progress in [[0, 1]]; once [formationTime]
    has reached [formationDuration] the progress is 1: no chaos, and the
    ceiling is [maxHeight]. *)
Theorem formation_ceiling (rnd : nat -> R) (ops : list TornadoOp)
    (c0 : nat) (delta : R) :
  (forall n, 0 <= rnd n < 1) -> Forall opNonneg ops -> 0 <= delta ->
  exists t c t' c',
    runOps rnd ops (new_Tornado rnd c0).1 (new_Tornado rnd c0).2
    = Some (t, c)
    /\ update rnd delta t c = Some (t', c')
    /\ 0 <= progressAfter t delta <= 1
    /\ (formationDuration t <= formationTime t + delta ->
        progressAfter t delta = 1)
    /\ Forall (fun p =>
                 chaosFactor p = 1 - progressAfter t delta
                 /\ 0 <= height p <= maxHeight t * progressAfter t delta)
         (particles t').
Proof.
  intros Hrnd Hops Hd.
  destruct (runOps_sane rnd Hrnd ops Hops _ (new_Tornado rnd c0).2
              (new_Tornado_sane rnd Hrnd c0)) as (t & c & Hrun & Hs).
  destruct (update_formation rnd delta t c Hd Hs)
    as (t' & c' & Hup & Hall & _).
  destruct Hs as (_ & _ & HD & HF & _).
  destruct (progress_range t delta HD HF Hd) as (Hp & Hformed).
  exists t, c, t', c'. repeat split; try assumption; apply Hp.
Qed.

Lemma formation_ceiling_witness :
  exists t c t' c',
    runOps (fun _ => 0.5) [OpUpdate 0.004; OpSetParticleCount 200]
      (new_Tornado (fun _ => 0.5) 0).1 (new_Tornado (fun _ => 0.5) 0).2
    = Some (t, c)
    /\ update (fun _ => 0.5) 0.002 t c = Some (t', c')
    /\ 0 <= progressAfter t 0.002 <= 1
    /\ (formationDuration t <= formationTime t + 0.002 ->
        progressAfter t 0.002 = 1)
    /\ Forall (fun p =>
                 chaosFactor p = 1 - progressAfter t 0.002
                 /\ 0 <= height p <= maxHeight t * progressAfter t 0.002)
         (particles t').
Proof.
  apply (formation_ceiling (fun _ => 0.5)
           [OpUpdate 0.004; OpSetParticleCount 200] 0 0.002).
  - intros n. lra.
  - repeat constructor; cbn; lra.
  - lra.
Defined.

(** X9.  From a new tornado, after any operations, every position an
    [update] writes to the point cloud lies in a box around the tornado: at
    most [1.05 * maxRadius + 1.08] from its position in x and in z, and
    between 1 below its base and 1 above [maxHeight] in y. *)
Theorem cloud_stays_in_box (rnd : nat -> R) (ops : list TornadoOp)
    (c0 : nat) (delta : R) :
  (forall n, 0 <= rnd n < 1) -> Forall opNonneg ops -> 0 <= delta ->
  exists t c t' c',
    runOps rnd ops (new_Tornado rnd c0).1 (new_Tornado rnd c0).2
    = Some (t, c)
    /\ update rnd delta t c = Some (t', c')
    /\ length (positions t') = particleCount t'
    /\ Forall (inCloudBox t') (positions t').
Proof.
  intros Hrnd Hops Hd.
  destruct (runOps_sane rnd Hrnd ops Hops _ (new_Tornado rnd c0).2
              (new_Tornado_sane rnd Hrnd c0)) as (t & c & Hrun & Hs).
  destruct (update_formation rnd delta t c Hd Hs)
    as (t' & c' & Hup & _ & Hbox).
  destruct (update_sane rnd delta t c Hd Hs) as (t2 & c2 & Hup2 & Hs2).
  rewrite Hup in Hup2. inversion Hup2; subst t2 c2.
  exists t, c, t', c'. repeat split; try assumption.
  apply Hs2.
Qed.

Lemma cloud_stays_in_box_witness :
  exists t c t' c',
    runOps (fun _ => 0.5) [OpUpdate 0.004; OpSetParticleCount 200]
      (new_Tornado (fun _ => 0.5) 0).1 (new_Tornado (fun _ => 0.5) 0).2
    = Some (t, c)
    /\ update (fun _ => 0.5) 0.002 t c = Some (t', c')
    /\ length (positions t') = particleCount t'
    /\ Forall (inCloudBox t') (positions t').
Proof.
  apply (cloud_stays_in_box (fun _ => 0.5)
           [OpUpdate 0.004; OpSetParticleCount 200] 0 0.002).
  - intros n. lra.
  - repeat constructor; cbn; lra.
  - lra.
Defined.

Lemma createParticles_shape (rnd : nat -> R) (t : Tornado) (n c : nat) :
  length (createParticles rnd t n c).1.1 = n
  /\ length (createParticles rnd t n c).1.2 = n
  /\ (createParticles rnd t n c).2 = (c + 15 * n)%nat.
Proof.
  revert c. induction n as [|n IH]; intros c.
  - cbn. repeat split; lia.
  - cbn [createParticles].
    destruct (createParticle rnd t c) as [[p pos] c1] eqn:Hp.
    assert (c1 = (c + 15)%nat) as ->
      by (unfold createParticle in Hp; inversion Hp; reflexivity).
    specialize (IH (c + 15)%nat).
    destruct (createParticles rnd t n (c + 15)) as [[ps buf] c2].
    cbn in *. repeat split; lia.
Qed.

Lemma createParticles_lookup (rnd : nat -> R) (t : Tornado) (n c i : nat) :
  (i < n)%nat ->
  (createParticles rnd t n c).1.1 !! i
  = Some (createParticle rnd t (c + 15 * i)).1.1.
Proof.
  revert c i. induction n as [|n IH]; intros c i Hi; [lia|].
  cbn [createParticles].
  destruct (createParticle rnd t c) as [[p pos] c1] eqn:Hp.
  assert (c1 = (c + 15)%nat) as ->
    by (unfold createParticle in Hp; inversion Hp; reflexivity).
  specialize (IH (c + 15)%nat).
  destruct (createParticles rnd t n (c + 15)) as [[ps buf] c2].
  destruct i as [|i].
  - replace (c + 15 * 0)%nat with c by lia. now rewrite Hp.
  - cbn [fst] in *. change ((p :: ps) !! S i) with (ps !! i).
    replace (c + 15 * S i)%nat with (c + 15 + 15 * i)%nat by lia.
    apply IH. lia.
Qed.

(** X10.  [setParticleCount] with the current count changes nothing and
    draws no random number: the clocks keep running.  With another count
    the pool and the position buffer are rebuilt with exactly [newCount]
    entries, both clocks restart at 0, and the tornado's place, motion and
    shape parameters are kept.  The rebuild takes [15 * newCount + 12]
    numbers from [Math.random()]: four for the identifier of the new
    geometry, then fifteen per particle (the particle of index [i] starts at
    draw [c + 4 + 15 * i], its height first and its angle second), then
    eight for the identifiers of the material and of the point cloud. *)
Theorem setParticleCount_restarts (rnd : nat -> R) (newCount : nat)
    (t : Tornado) (c : nat) :
  let r := setParticleCount rnd newCount t c in
  (newCount = particleCount t -> r = (t, c))
  /\ (newCount <> particleCount t ->
      particleCount r.1 = newCount
      /\ length (particles r.1) = newCount
      /\ length (positions r.1) = newCount
      /\ time r.1 = 0 /\ formationTime r.1 = 0
      /\ r.2 = (c + 15 * newCount + 12)%nat
      /\ (forall i, (i < newCount)%nat ->
          exists p, particles r.1 !! i = Some p
            /\ height p = Math_pow (rnd (c + 4 + 15 * i)%nat) 1.5
                          * maxHeight t
            /\ angle p = rnd (c + 4 + 15 * i + 1)%nat * 2 * PI
            /\ chaosYFactor p = rnd (c + 4 + 15 * i + 12)%nat - 0.5)
      /\ (position r.1, velocity r.1, maxHeight r.1, maxRadius r.1,
          coreRadius r.1, tornadoForceStrength r.1, formationDuration r.1)
         = (position t, velocity t, maxHeight t, maxRadius t,
            coreRadius t, tornadoForceStrength t, formationDuration t)).
Proof.
  cbv zeta. unfold setParticleCount.
  destruct (decide (newCount = particleCount t)) as [Heq|Hne].
  - split; [reflexivity | intros Hne; contradiction].
  - split; [intros Heq; contradiction | intros _].
    unfold createGeometryAndMesh, uuidDraws. cbv zeta.
    cbn [particleCount set_pool].
    pose proof (createParticles_shape rnd
                  (set_pool t newCount (particles t) (positions t))
                  newCount (c + 4)) as (Hps & Hbuf & Hc).
    pose proof (createParticles_lookup rnd
                  (set_pool t newCount (particles t) (positions t))
                  newCount (c + 4)) as Hlook.
    destruct (createParticles rnd _ newCount (c + 4)) as [[ps buf] c'].
    cbn in Hps, Hbuf, Hc, Hlook. cbn.
    split; [reflexivity|]. split; [exact Hps|]. split; [exact Hbuf|].
    split; [reflexivity|]. split; [reflexivity|]. split; [lia|].
    split; [|reflexivity].
    intros i Hi. eexists. split; [apply Hlook; exact Hi|].
    cbn. repeat split.
Qed.

Lemma update_step (rnd : nat -> R) (delta : R) (t : Tornado) (c : nat) :
  (particleCount t <= length (particles t))%nat ->
  exists t' c',
    update rnd delta t c = Some (t', c')
    /\ time t' = time t + delta
    /\ formationTime t' = formationTime t + delta
    /\ position t' = addScaledVector (position t) (velocity t) delta
    /\ velocity t' = velocity t
    /\ particleCount t' = particleCount t
    /\ length (particles t') = length (particles t).
Proof.
  intros Hlen. rewrite update_unfold. cbv zeta.
  set (u0 := set_position _ _).
  pose proof (updateParticles_shape rnd u0 delta
                (maxHeight t * progressAfter t delta)
                (1 - progressAfter t delta) (particleCount t)
                (particles t) c) as Hshape.
  destruct (updateParticles rnd u0 delta _ _ (particleCount t)
              (particles t) c) as [[[ps' buf] c1]|]; [|exfalso; lia].
  destruct Hshape as (_ & Hps & _).
  eexists _, _. split; [reflexivity|]. cbn. repeat split. exact Hps.
Qed.

(** X11.  A run of updates adds up: when the pool holds at least
    [particleCount] particles, any list of updates returns, both clocks
    have advanced by the sum of the deltas, and the tornado has moved by
    its velocity times that sum; the velocity and the sizes are unchanged. *)
Theorem updates_accumulate (rnd : nat -> R) (deltas : list R)
    (t : Tornado) (c : nat) :
  (particleCount t <= length (particles t))%nat ->
  exists t' c',
    runOps rnd (OpUpdate <$> deltas) t c = Some (t', c')
    /\ time t' = time t + elapsed deltas
    /\ formationTime t' = formationTime t + elapsed deltas
    /\ position t' = addScaledVector (position t) (velocity t) (elapsed deltas)
    /\ velocity t' = velocity t
    /\ particleCount t' = particleCount t
    /\ length (particles t') = length (particles t).
Proof.
  revert t c. induction deltas as [|d rest IH]; intros t c Hlen.
  - exists t, c. cbn. unfold addScaledVector.
    destruct (position t) as [x y z], (velocity t) as [a b e].
    repeat split; try lra. cbn. f_equal; ring.
  - destruct (update_step rnd d t c Hlen)
      as (t1 & c1 & Hup & Ht & Hf & Hp & Hv & Hn & Hl).
    destruct (IH t1 c1 ltac:(lia))
      as (t' & c' & Hrun & Ht' & Hf' & Hp' & Hv' & Hn' & Hl').
    exists t', c'. cbn [fmap list_fmap runOps runOp elapsed]. rewrite Hup.
    split; [exact Hrun|].
    rewrite Ht', Hf', Hp', Hv', Hn', Hl', Ht, Hf, Hp, Hv, Hn, Hl.
    unfold addScaledVector.
    destruct (position t) as [x y z], (velocity t) as [a b e].
    repeat split; try lra. cbn. f_equal; ring.
Qed.

Lemma updates_accumulate_witness :
  let t := (setParticleCount (fun _ => 0.5) 3 scenarioTornado 0).1 in
  exists t' c',
    runOps (fun _ => 0.5) (OpUpdate <$> [0.016; 0.02; 0.016]) t 45
    = Some (t', c')
    /\ time t' = time t + elapsed [0.016; 0.02; 0.016]
    /\ formationTime t' = formationTime t + elapsed [0.016; 0.02; 0.016]
    /\ position t'
       = addScaledVector (position t) (velocity t)
           (elapsed [0.016; 0.02; 0.016])
    /\ velocity t' = velocity t
    /\ particleCount t' = particleCount t
    /\ length (particles t') = length (particles t).
Proof.
  intros t.
  apply (updates_accumulate (fun _ => 0.5) [0.016; 0.02; 0.016] t 45).
  vm_compute. reflexivity.
Defined.

End PoolMore.


(** * Properties of the runs of the program *)

Module RuntimeFacts.
Import Three TornadoField Registry Scenarios Runtime RegistryFacts.
Local Open Scope R_scope.

(** ** Dictionaries *)

Lemma objGet_Some_elem {V : Type} (k : string) (v : V)
    (o : list (string * V)) :
  objGet k o = Some v -> (k, v) ∈ o.
Proof.
  induction o as [|[k' v'] o IH]; [discriminate|]. cbn.
  destruct (decide (k' = k)) as [->|Hne]; intros H.
  - inversion H; subst. left.
  - right. now apply IH.
Qed.

Lemma elem_of_objSet {V : Type} (k : string) (v : V) (o : list (string * V))
    (e : string * V) :
  e ∈ objSet k v o -> e ∈ o \/ e = (k, v).
Proof.
  induction o as [|[k' v'] o IH]; cbn.
  - intros H. apply list_elem_of_singleton in H. now right.
  - destruct (decide (k' = k)) as [->|Hne]; intros H;
      apply elem_of_cons in H; destruct H as [->|H].
    + now right.
    + left. now right.
    + left. left.
    + destruct (IH H) as [Hin|Heq]; [left; now right | now right].
Qed.

Lemma elem_of_objDelete {V : Type} (k : string) (o : list (string * V))
    (e : string * V) :
  e ∈ objDelete k o -> e ∈ o.
Proof.
  induction o as [|[k' v'] o IH]; cbn; [trivial|].
  destruct (decide (k' = k)) as [->|Hne]; intros H.
  - now right.
  - apply elem_of_cons in H. destruct H as [->|H]; [left | right; auto].
Qed.

(** ** How soundness is kept *)

Lemma goodBuilding_mono (w w' : World) (b : Building) :
  (length (nodes w) <= length (nodes w'))%nat ->
  goodBuilding w b -> goodBuilding w' b.
Proof.
  intros Hlen (Hbody & Hvis). split; [exact Hbody|].
  intros Hd. destruct (Hvis Hd) as (n & Hn & Hlt). exists n. split; [exact Hn|lia].
Qed.

Lemma goodRequest_mono (w w' : World) (req : LoadRequest) :
  (forall s, is_Some (slotVisuals w !! s) -> is_Some (slotVisuals w' !! s)) ->
  goodRequest w req -> goodRequest w' req.
Proof.
  intros Hsv. unfold goodRequest.
  destruct (loadOnLoad req) as [[s ty id st pos paths|]|]; try trivial.
  intros [H1 H2]. split; [now apply Hsv | exact H2].
Qed.

Lemma sound_step (w1 w2 : World) :
  sound w1 ->
  (forall s, is_Some (slotVisuals w1 !! s) -> is_Some (slotVisuals w2 !! s)) ->
  (forall s slot,
     slots w2 !! s = Some slot ->
     slots w1 !! s = Some slot
     \/ goodSlot slot /\ is_Some (slotVisuals w2 !! s)) ->
  (length (nodes w1) <= length (nodes w2))%nat ->
  (forall e, e ∈ buildingVisuals w2 ->
             e ∈ buildingVisuals w1 \/ goodBuilding w2 e.2) ->
  (forall md, md ∈ loadedModels w2 -> md ∈ loadedModels w1 \/ goodModel md) ->
  (forall req, req ∈ pending w2 ->
               req ∈ pending w1 \/ goodRequest w2 req) ->
  sound w2.
Proof.
  intros (Hs & Hb & Hm & Hp) Hsv Hslots Hlen Hbv Hlm Hpe.
  split; [|split; [|split]].
  - intros s slot Hslot. destruct (Hslots s slot Hslot) as [Hold|Hnew].
    + destruct (Hs s slot Hold) as [Hg Hv]. split; [exact Hg | now apply Hsv].
    + exact Hnew.
  - apply Forall_forall. intros e He. destruct (Hbv e He) as [Hold|Hnew].
    + eapply goodBuilding_mono; [exact Hlen|].
      rewrite Forall_forall in Hb. now apply Hb.
    + exact Hnew.
  - apply Forall_forall. intros md Hmd. destruct (Hlm md Hmd) as [Hold|Hnew].
    + rewrite Forall_forall in Hm. now apply Hm.
    + exact Hnew.
  - apply Forall_forall. intros req Hreq.
    destruct (Hpe req Hreq) as [Hold|Hnew].
    + eapply goodRequest_mono; [exact Hsv|].
      rewrite Forall_forall in Hp. now apply Hp.
    + exact Hnew.
Qed.

Lemma extends_refl (w : World) : extends w w.
Proof. intros Hs. split; [exact Hs|]. split; [|split]; reflexivity. Qed.

Lemma extends_trans (w w1 w2 : World) :
  extends w w1 -> extends w1 w2 -> extends w w2.
Proof.
  intros H1 H2 Hs. destruct (H1 Hs) as (Hs1 & Hb1 & Hm1 & Hc1).
  destruct (H2 Hs1) as (Hs2 & Hb2 & Hm2 & Hc2).
  split; [exact Hs2|]. split; [now transitivity (worldBodies w1)|].
  split; [now transitivity (loadedModels w1) | congruence].
Qed.

(** A step that changes only what soundness does not look at. *)
Lemma extends_frame (w1 w2 : World) :
  slots w2 = slots w1 -> slotVisuals w2 = slotVisuals w1 ->
  buildingVisuals w2 = buildingVisuals w1 ->
  length (nodes w2) = length (nodes w1) ->
  loadedModels w2 = loadedModels w1 -> pending w2 = pending w1 ->
  worldBodies w1 `prefix_of` worldBodies w2 -> console w2 = console w1 ->
  extends w1 w2.
Proof.
  intros Hs Hsv Hbv Hn Hlm Hp Hwb Hc Hsound.
  split; [|split; [exact Hwb|split; [now rewrite Hlm | exact Hc]]].
  apply (sound_step w1 w2 Hsound).
  - intros s. now rewrite Hsv.
  - intros s slot. rewrite Hs. now left.
  - lia.
  - intros e. rewrite Hbv. now left.
  - intros md. rewrite Hlm. now left.
  - intros req. rewrite Hp. now left.
Qed.

(** ** Steps that change nothing soundness reads *)

Ltac agree_refl := unfold agree; repeat (split; [reflexivity|]); reflexivity.

Lemma agree_refl (w : World) : agree w w.
Proof. agree_refl. Qed.

Lemma agree_trans (w1 w2 w3 : World) :
  agree w1 w2 -> agree w2 w3 -> agree w1 w3.
Proof.
  unfold agree. intros H1 H2.
  decompose [and] H1. decompose [and] H2.
  repeat (split; [congruence|]). congruence.
Qed.

Lemma extends_agree (w w' : World) : agree w w' -> extends w w'.
Proof.
  intros H. unfold agree in H. decompose [and] H.
  apply extends_frame; try assumption.
  replace (worldBodies w') with (worldBodies w) by congruence. reflexivity.
Qed.

Lemma agree_sceneAdd (n : NodeId) (w : World) : agree w (sceneAdd n w).
Proof. agree_refl. Qed.

Lemma agree_sceneRemove (v : option JsValue) (w : World) :
  agree w (sceneRemove v w).
Proof. destruct v as [[]|]; agree_refl. Qed.

Lemma agree_setNodeVisible (n : NodeId) (v : bool) (w : World) :
  agree w (setNodeVisible n v w).
Proof.
  unfold agree, setNodeVisible. cbn. rewrite length_alter.
  repeat (split; [reflexivity|]). reflexivity.
Qed.

Lemma agree_setNodeTransform (n : NodeId) (p : Vector3) (q : Quaternion)
    (w : World) :
  agree w (setNodeTransform n p q w).
Proof.
  unfold agree, setNodeTransform. cbn. rewrite length_alter.
  repeat (split; [reflexivity|]). reflexivity.
Qed.

Lemma agree_copyTransform (n : NodeId) (b : BodyId) (w : World) :
  agree w (copyTransform n b w).
Proof.
  unfold copyTransform. destruct (bodies w !! b);
    [apply agree_setNodeTransform | apply agree_refl].
Qed.

Lemma agree_alter_body (f : Body -> Body) (b : BodyId) (w : World) :
  agree w (set_bodies (alter f b (bodies w)) w).
Proof. agree_refl. Qed.

Lemma agree_removeParts (l : list DebrisPart) (w : World) :
  foldl (fun w part => worldRemoveBody (JPart part) w) w l = w.
Proof. induction l as [|part l IH]; [reflexivity | exact IH]. Qed.

(** ** The calls of the registry *)

Ltac sound_frame :=
  try solve
    [ intros; now left
    | intros ? H; exact H
    | cbn; rewrite ?length_app, ?length_alter, ?length_insert; cbn; lia ].

Lemma extends_load (path : string) (mass : R) (position : Vector3)
    (scale friction restitution : R) (onLoad : option Callback)
    (handler : CatchHandler) (w : World) :
  (sound w ->
   goodRequest w
     (mkLoadRequest path mass position scale friction restitution onLoad
        handler)) ->
  extends w
    (load path mass position scale friction restitution onLoad handler w).
Proof.
  intros Hreq Hs. split; [|split; [|split]]; try reflexivity.
  apply (sound_step w _ Hs); cbn; sound_frame.
  intros req Hin. apply elem_of_app in Hin. destruct Hin as [Hin|Hin].
  - now left.
  - apply list_elem_of_singleton in Hin. subst req. right. now apply Hreq.
Qed.

Lemma extends_addBuilding (buildingType intactPath crackedPath : string)
    (optionsDebrisMass : option R) (w : World) :
  extends w
    (addBuilding buildingType intactPath crackedPath optionsDebrisMass w).
Proof. apply extends_frame; reflexivity. Qed.

Lemma extends_addSlot (slotId : string) (position : Vector3)
    (optionsSize : option R) (optionsBuildingType : option string)
    (w : World) :
  extends w (addSlot slotId position optionsSize optionsBuildingType w).
Proof.
  intros Hs. split; [|split; [|split]]; try reflexivity.
  apply (sound_step w _ Hs); cbn; sound_frame.
  - intros s Hsome. apply lookup_insert_is_Some'. now right.
  - intros s slot Hslot.
    destruct (decide (slotId = s)) as [->|Hne].
    + rewrite lookup_insert_eq in Hslot. inversion Hslot; subst slot.
      right. split; [reflexivity|]. rewrite lookup_insert_eq. now eexists.
    + rewrite lookup_insert_ne in Hslot by exact Hne. now left.
Qed.

Lemma sound_building (w : World) (id : string) (b : Building) :
  sound w -> objGet id (buildingVisuals w) = Some b -> goodBuilding w b.
Proof.
  intros (_ & Hb & _) Hget. rewrite Forall_forall in Hb.
  exact (Hb (id, b) (objGet_Some_elem id b _ Hget)).
Qed.

Lemma sound_slot (w : World) (s : string) (slot : Slot) :
  sound w -> slots w !! s = Some slot ->
  goodSlot slot /\ is_Some (slotVisuals w !! s).
Proof. intros (Hs & _) Hslot. now apply Hs. Qed.

Lemma extends_objDelete (id : string) (w : World) :
  extends w (set_buildingVisuals (objDelete id (buildingVisuals w)) w).
Proof.
  intros Hs. split; [|split; [|split]]; try reflexivity.
  apply (sound_step w _ Hs); cbn; sound_frame.
  intros e He. left. exact (elem_of_objDelete id _ e He).
Qed.

Lemma extends_objSet (id : string) (b : Building) (w : World) :
  (sound w -> goodBuilding w b) ->
  extends w (set_buildingVisuals (objSet id b (buildingVisuals w)) w).
Proof.
  intros Hb Hs. split; [|split; [|split]]; try reflexivity.
  apply (sound_step w _ Hs); cbn; sound_frame.
  intros e He. apply elem_of_objSet in He. destruct He as [He | ->].
  - now left.
  - right. exact (Hb Hs).
Qed.

Lemma extends_slot_insert (s : string) (slot : Slot) (w : World) :
  (sound w -> goodSlot slot /\ is_Some (slotVisuals w !! s)) ->
  extends w (set_slots (<[s := slot]> (slots w)) w).
Proof.
  intros Hslot Hs. split; [|split; [|split]]; try reflexivity.
  apply (sound_step w _ Hs); cbn; sound_frame.
  intros s2 slot2 Hslot2.
  destruct (decide (s = s2)) as [->|Hne].
  - rewrite lookup_insert_eq in Hslot2. inversion Hslot2; subst slot2.
    right. exact (Hslot Hs).
  - rewrite lookup_insert_ne in Hslot2 by exact Hne. now left.
Qed.

(** [demolishBuilding] on a slot the registry knows. *)
Lemma demolishBuilding_known (slotId : string) (slot : Slot) (w : World) :
  sound w -> slots w !! slotId = Some slot ->
  exists w',
    demolishBuilding slotId w = Normal w'
    /\ extends w w'
    /\ slotVisuals w' = slotVisuals w
    /\ buildings w' = buildings w.
Proof.
  intros Hs Hslot. unfold demolishBuilding. rewrite Hslot.
  destruct (sound_slot w slotId slot Hs Hslot) as [Hgood [sv Hsv]].
  destruct (occupied slot) eqn:Hocc;
    [|exists w; split; [reflexivity|]; split; [apply extends_refl|];
      split; reflexivity].
  destruct (stringOrNull (slotBuildingId slot)) as [buildingId|];
    [|exists w; split; [reflexivity|]; split; [apply extends_refl|];
      split; reflexivity].
  set (w1 := match objGet buildingId (buildingVisuals w) with
             | Some building => _
             | None => w
             end).
  assert (H1 : extends w w1 /\ slotVisuals w1 = slotVisuals w
               /\ buildings w1 = buildings w /\ slots w1 = slots w).
  { unfold w1.
    destruct (objGet buildingId (buildingVisuals w)) as [b|] eqn:Hb;
      [|split; [apply extends_refl|]; repeat split].
    destruct (sound_building w buildingId b Hs Hb) as [Hbody _].
    rewrite Hbody. cbn [removeBodyIf]. rewrite agree_removeParts.
    split; [|destruct (visual b) as [[]|]; repeat split].
    eapply extends_trans; [apply extends_agree, agree_sceneRemove|].
    apply extends_objDelete. }
  destruct H1 as (Hext & Hsv1 & Hb1 & Hs1).
  cbv zeta. unfold setSlotVisible. cbn [slotVisuals set_slots].
  rewrite Hsv1, Hsv. eexists. split; [reflexivity|].
  split; [|split; [exact Hsv1 | exact Hb1]].
  eapply extends_trans; [exact Hext|].
  eapply extends_trans; [|apply extends_agree, agree_setNodeVisible].
  apply extends_slot_insert. intros _. split; [reflexivity|].
  rewrite Hsv1, Hsv. now eexists.
Qed.

Lemma buildingId_nonempty (slotId rest : string) :
  slotId +:+ "_" +:+ rest <> "".
Proof. destruct slotId; discriminate. Qed.

(** [placeBuilding] on a slot the registry knows. *)
Lemma placeBuilding_known (slotId buildingType : string) (now : N)
    (slot : Slot) (w : World) :
  sound w -> slots w !! slotId = Some slot ->
  exists w',
    placeBuilding slotId buildingType now w = Normal w' /\ extends w w'.
Proof.
  intros Hs Hslot. unfold placeBuilding. rewrite Hslot.
  destruct (sound_slot w slotId slot Hs Hslot) as [_ Hsv].
  assert (H1 : exists w1,
             (if occupied slot then demolishBuilding slotId w else Normal w)
             = Normal w1
             /\ extends w w1 /\ slotVisuals w1 = slotVisuals w).
  { destruct (occupied slot).
    - destruct (demolishBuilding_known slotId slot w Hs Hslot)
        as (w1 & Hrun & Hext & Hsv1 & _).
      exists w1. split; [exact Hrun|]. split; [exact Hext | exact Hsv1].
    - exists w. split; [reflexivity|]. split; [apply extends_refl|].
      reflexivity. }
  destruct H1 as (w1 & -> & Hext & Hsv1). cbn [andThen].
  destruct (buildings w1 !! buildingType) as [paths|];
    [|exists w1; split; [reflexivity | exact Hext]].
  eexists. split; [reflexivity|].
  eapply extends_trans; [exact Hext|]. apply extends_load.
  intros _. cbn. rewrite Hsv1. split; [exact Hsv|].
  apply buildingId_nonempty.
Qed.

(** [damageBuilding] never raises in a sound state. *)
Lemma damageBuilding_sound (buildingId : string) (w : World) :
  sound w ->
  exists w', damageBuilding buildingId w = Normal w' /\ extends w w'.
Proof.
  intros Hs. unfold damageBuilding.
  destruct (objGet buildingId (buildingVisuals w)) as [b|] eqn:Hb;
    [|exists w; split; [reflexivity | apply extends_refl]].
  destruct (damaged b) eqn:Hd;
    [exists w; split; [reflexivity | apply extends_refl]|].
  destruct (sound_building w buildingId b Hs Hb) as [Hbody Hvis].
  destruct (Hvis Hd) as (n & Hn & Hlt).
  destruct (lookup_lt_is_Some_2 (nodes w) n Hlt) as [node Hnode].
  cbv zeta. rewrite Hn, Hbody. cbn [nodeOf nodes set_buildingVisuals].
  rewrite Hnode. eexists. split; [reflexivity|].
  cbn [removeBodyIf sceneRemove].
  eapply extends_trans; [|apply extends_load; intros _; exact I].
  apply (extends_objSet buildingId (set_damaged b true) w).
  intros _. split; [exact Hbody|]. cbn. discriminate.
Qed.

(** ** The frame loop *)

Section Frame.

Variable rnd : nat -> R.
Variable t : Tornado.

Lemma moveDebris_agree (buildingId : string) (w : World) :
  agree w (moveDebris rnd t buildingId w).
Proof.
  unfold moveDebris.
  destruct (objGet buildingId (buildingVisuals w)) as [b|];
    [|apply agree_refl].
  destruct (damaged b); [|apply agree_refl].
  generalize (crackedBodies b). intros l. revert w.
  induction l as [|part l IH]; intros w; [apply agree_refl|].
  cbn [foldl]. eapply agree_trans; [|apply IH].
  agree_refl.
Qed.

Lemma scanStep_sound (entry : string * Building) (w : World) :
  sound w ->
  exists w', scanStep rnd t (Normal w) entry = Normal w' /\ extends w w'.
Proof.
  intros Hs. unfold scanStep. cbn [andThen].
  assert (H1 : exists w1,
             damageScan t entry.1 w = Normal w1 /\ extends w w1).
  { unfold damageScan.
    destruct (objGet entry.1 (buildingVisuals w)) as [b|] eqn:Hb;
      [|exists w; split; [reflexivity | apply extends_refl]].
    destruct (damaged b) eqn:Hd;
      [exists w; split; [reflexivity | apply extends_refl]|].
    destruct (sound_building w entry.1 b Hs Hb) as [_ Hvis].
    destruct (Hvis Hd) as (n & Hn & Hlt).
    destruct (lookup_lt_is_Some_2 (nodes w) n Hlt) as [node Hnode].
    rewrite Hn. cbn [nodeOf]. rewrite Hnode. cbv zeta.
    destruct (decide _);
      [apply damageBuilding_sound; exact Hs
      |exists w; split; [reflexivity | apply extends_refl]]. }
  destruct H1 as (w1 & -> & Hext). cbn [andThen].
  eexists. split; [reflexivity|].
  eapply extends_trans; [exact Hext|].
  apply extends_agree, moveDebris_agree.
Qed.

Lemma scanLoop_sound (entries : list (string * Building)) :
  forall w,
  sound w ->
  exists w',
    foldl (scanStep rnd t) (Normal w) entries = Normal w' /\ extends w w'.
Proof.
  induction entries as [|entry entries IH]; intros w Hs.
  - exists w. split; [reflexivity | apply extends_refl].
  - cbn [foldl]. destruct (scanStep_sound entry w Hs) as (w1 & -> & Hext).
    destruct (IH w1 (proj1 (Hext Hs))) as (w' & Hrun & Hext').
    exists w'. split; [exact Hrun|]. eapply extends_trans; eassumption.
Qed.

End Frame.

Lemma applyTornadoForces_sound (rnd : nat -> R) (w : World) :
  sound w ->
  exists w', applyTornadoForces rnd w = Normal w' /\ extends w w'.
Proof.
  intros Hs. unfold applyTornadoForces.
  destruct (tornado w) as [t|];
    [apply scanLoop_sound; exact Hs
    |exists w; split; [reflexivity | apply extends_refl]].
Qed.

Lemma syncParts_agree (l : list DebrisPart) (w : World) :
  agree w (foldl (fun w part => copyTransform (mesh part) (body part) w) w l).
Proof.
  revert w. induction l as [|part l IH]; intros w; [apply agree_refl|].
  cbn [foldl]. eapply agree_trans; [apply agree_copyTransform | apply IH].
Qed.

Lemma updateBuildings_loop (entries : list (string * Building)) :
  forall w,
  Forall (fun entry => buildingBody entry.2 = None) entries ->
  exists w', foldl updateBuilding (Normal w) entries = Normal w' /\ agree w w'.
Proof.
  induction entries as [|entry entries IH]; intros w Hall.
  - exists w. split; [reflexivity | apply agree_refl].
  - apply Forall_cons in Hall. destruct Hall as [Hbody Hrest].
    cbn [foldl]. unfold updateBuilding at 2. cbn [andThen]. cbv zeta.
    rewrite Hbody. cbn [truthy].
    destruct (damaged entry.2).
    + destruct (IH (foldl (fun w part =>
                             copyTransform (mesh part) (body part) w) w
                      (crackedBodies entry.2)) Hrest) as (w' & Hrun & Hag).
      exists w'. split; [exact Hrun|].
      eapply agree_trans; [apply syncParts_agree | exact Hag].
    + exact (IH w Hrest).
Qed.

Lemma updateBuildings_sound (w : World) :
  sound w -> exists w', updateBuildings w = Normal w' /\ agree w w'.
Proof.
  intros (_ & Hb & _). apply updateBuildings_loop.
  eapply Forall_impl; [exact Hb|]. intros entry [Hbody _]. exact Hbody.
Qed.

Lemma updateModels_loop (entries : list (gmap string JsValue)) :
  forall w,
  Forall goodModel entries ->
  exists w',
    foldl (fun r (modelData : gmap string JsValue) =>
             andThen r (fun w =>
               match modelData !! "visual", modelData !! "physics" with
               | Some (JNode visual), Some (JBody physics) =>
                   Normal (copyTransform visual physics w)
               | _, _ => Throw "TypeError" w
               end))
      (Normal w) entries = Normal w'
    /\ agree w w'.
Proof.
  induction entries as [|md entries IH]; intros w Hall.
  - exists w. split; [reflexivity | apply agree_refl].
  - apply Forall_cons in Hall. destruct Hall as [Hmd Hrest].
    destruct Hmd as ((n & Hn) & (b & Hb) & _).
    cbn [foldl andThen]. rewrite Hn, Hb.
    destruct (IH (copyTransform n b w) Hrest) as (w' & Hrun & Hag).
    exists w'. split; [exact Hrun|].
    eapply agree_trans; [apply agree_copyTransform | exact Hag].
Qed.

Lemma loaderForces_loop (t : Tornado) (entries : list (gmap string JsValue)) :
  forall w,
  Forall goodModel entries ->
  exists w',
    foldl (fun r (modelData : gmap string JsValue) =>
             andThen r (fun w =>
               match modelData !! "physics" with
               | Some (JBody b) =>
                   Normal (set_bodies (alter (modelForces t) b (bodies w)) w)
               | _ => Throw "TypeError" w
               end))
      (Normal w) entries = Normal w'
    /\ agree w w'.
Proof.
  induction entries as [|md entries IH]; intros w Hall.
  - exists w. split; [reflexivity | apply agree_refl].
  - apply Forall_cons in Hall. destruct Hall as [Hmd Hrest].
    destruct Hmd as (_ & (b & Hb) & _).
    cbn [foldl andThen]. rewrite Hb.
    destruct (IH (set_bodies (alter (modelForces t) b (bodies w)) w) Hrest)
      as (w' & Hrun & Hag).
    exists w'. split; [exact Hrun|].
    eapply agree_trans; [|exact Hag]. agree_refl.
Qed.

(** ** Settling a load *)

Lemma extends_worldAddBody (b : BodyId) (w : World) :
  extends w (worldAddBody b w).
Proof.
  unfold worldAddBody. destruct (decide _); [apply extends_refl|].
  apply extends_frame; try reflexivity. cbn. now apply prefix_app_r.
Qed.

Lemma extends_set_nodes (l : list Node) (w : World) :
  (length (nodes w) <= length l)%nat -> extends w (set_nodes l w).
Proof.
  intros Hl Hs. split; [|split; [|split]]; try reflexivity.
  apply (sound_step w _ Hs); cbn; sound_frame.
Qed.

Lemma extends_writeBuilding (id : string) (stamp : nat)
    (f : Building -> Building) (w : World) :
  (forall b, goodBuilding w b -> goodBuilding w (f b)) ->
  extends w (writeBuilding id stamp f w).
Proof.
  intros Hf. unfold writeBuilding.
  destruct (objGet id (buildingVisuals w)) as [b|] eqn:Hb;
    [|apply extends_refl].
  destruct (decide _); [|apply extends_refl].
  apply extends_objSet. intros Hs. apply Hf.
  exact (sound_building w id b Hs Hb).
Qed.

Lemma extends_writeSlot (s : string) (stamp : nat) (f : Slot -> Slot)
    (w : World) :
  (forall slot, goodSlot (f slot)) -> extends w (writeSlot s stamp f w).
Proof.
  intros Hf. unfold writeSlot.
  destruct (slots w !! s) as [slot|] eqn:Hslot; [|apply extends_refl].
  destruct (decide _); [|apply extends_refl].
  apply extends_slot_insert. intros Hs. split; [apply Hf|].
  exact (proj2 (sound_slot w s slot Hs Hslot)).
Qed.

Lemma extends_loadedModels (modelData : gmap string JsValue) (w : World) :
  goodModel modelData ->
  extends w (set_loadedModels (loadedModels w ++ [modelData]) w).
Proof.
  intros Hmd Hs. split; [|split; [|split]]; try reflexivity.
  - apply (sound_step w _ Hs); cbn; sound_frame.
    intros md Hin. apply elem_of_app in Hin. destruct Hin as [Hin|Hin].
    + now left.
    + apply list_elem_of_singleton in Hin. subst md. now right.
  - cbn. now apply prefix_app_r.
Qed.

Lemma extends_pending_delete (k : nat) (w : World) :
  extends w (set_pending (delete k (pending w)) w).
Proof.
  intros Hs. split; [|split; [|split]]; try reflexivity.
  apply (sound_step w _ Hs); cbn; sound_frame.
  intros req Hin. left.
  exact (elem_of_sublist _ _ req Hin (sublist_delete (pending w) k)).
Qed.

Lemma onPlaced_sound (slotId buildingType buildingId : string) (stamp : nat)
    (position : Vector3) (paths : BuildingType)
    (modelData : gmap string JsValue) (model : NodeId) (w : World) :
  is_Some (slotVisuals w !! slotId) -> buildingId <> "" ->
  modelData !! "visual" = Some (JNode model) -> modelData !! "body" = None ->
  (model < length (nodes w))%nat ->
  exists w',
    onPlaced slotId buildingType buildingId stamp position paths modelData w
    = Normal w'
    /\ extends w w'.
Proof.
  intros [sv Hsv] Hid Hvis Hbody Hlt. unfold onPlaced. cbv zeta.
  unfold setSlotVisible.
  match goal with
  | |- context [slotVisuals ?w0 !! slotId] =>
      replace (slotVisuals w0) with (slotVisuals w)
  end.
  2:{ unfold writeSlot. cbn.
      destruct (slots w !! slotId); [destruct (decide _)|]; reflexivity. }
  rewrite Hsv. eexists. split; [reflexivity|].
  eapply extends_trans; [|apply extends_agree, agree_setNodeVisible].
  eapply extends_trans;
    [|apply extends_writeSlot; intros slot; cbn; exists buildingId;
      split; [reflexivity | exact Hid]].
  eapply extends_trans; [|apply extends_objSet].
  - apply extends_agree. agree_refl.
  - intros _. rewrite Hvis, Hbody. split; [reflexivity|].
    intros _. exists model. split; [reflexivity | exact Hlt].
Qed.

Lemma makeDebris_sound (buildingId : string) (stamp : nat) (root : NodeId)
    (position : Vector3) (quaternion : Quaternion) (mass : R)
    (child : NodeId) (w : World) :
  isMeshNode w child ->
  exists w',
    makeDebris buildingId stamp root position quaternion mass child w
    = Normal w'
    /\ extends w w'
    /\ forall c, isMeshNode w c -> isMeshNode w' c.
Proof.
  intros (nd & md & Hnd & Hmd). unfold makeDebris. rewrite Hnd, Hmd.
  destruct (worldOf md position quaternion) as [[worldPos worldQuat]
    worldScale].
  cbv zeta. unfold allocBody.
  match goal with
  | |- context [writeBuilding _ _ ?f (worldAddBody ?pb ?w0)] =>
      set (wfinal := w0); set (g := f); set (pieceBody := pb)
  end.
  assert (Hlen : (child < length (nodes w))%nat)
    by (eapply lookup_lt_Some; exact Hnd).
  assert (Hext0 : extends w wfinal).
  { apply extends_frame; try reflexivity.
    unfold wfinal. cbn. now rewrite length_insert, length_alter. }
  assert (Hmesh : forall c, isMeshNode w c -> isMeshNode wfinal c).
  { intros c Hc. unfold isMeshNode, wfinal. cbn.
    eapply mesh_lookup_insert; [reflexivity| |].
    - now rewrite length_alter.
    - apply mesh_lookup_alter; [reflexivity | exact Hc]. }
  eexists. split; [reflexivity|]. split.
  - eapply extends_trans; [exact Hext0|].
    eapply extends_trans; [apply extends_worldAddBody|].
    apply extends_writeBuilding. intros b Hb. exact Hb.
  - intros c Hc. specialize (Hmesh c Hc). unfold isMeshNode in *.
    replace (nodes (writeBuilding buildingId stamp g
                      (worldAddBody pieceBody wfinal)))
      with (nodes wfinal); [exact Hmesh|].
    unfold writeBuilding, worldAddBody.
    destruct (decide (pieceBody ∈ worldBodies wfinal));
      (destruct (objGet buildingId _); [destruct (decide _)|]); reflexivity.
Qed.

Lemma debrisLoop_sound (buildingId : string) (stamp : nat) (root : NodeId)
    (position : Vector3) (quaternion : Quaternion) (mass : R)
    (todo : list NodeId) :
  forall w,
  Forall (isMeshNode w) todo ->
  exists w',
    foldl (fun r child =>
             andThen r (makeDebris buildingId stamp root position quaternion
                          mass child))
      (Normal w) todo = Normal w'
    /\ extends w w'.
Proof.
  induction todo as [|child todo IH]; intros w Hall.
  - exists w. split; [reflexivity | apply extends_refl].
  - apply Forall_cons in Hall. destruct Hall as [Hchild Hrest].
    destruct (makeDebris_sound buildingId stamp root position quaternion
                mass child w Hchild) as (w1 & Hrun & Hext & Hkeep).
    cbn [foldl andThen]. rewrite Hrun.
    destruct (IH w1) as (w' & Hloop & Hext').
    { eapply Forall_impl; [exact Hrest | exact Hkeep]. }
    exists w'. split; [exact Hloop|]. eapply extends_trans; eassumption.
Qed.

Lemma onCracked_sound (buildingId : string) (stamp : nat)
    (position : Vector3) (quaternion : Quaternion) (mass : R)
    (crackedData : gmap string JsValue) (root : NodeId) (rootNode : Node)
    (w : World) :
  crackedData !! "visual" = Some (JNode root) ->
  crackedData !! "body" = None ->
  nodes w !! root = Some rootNode ->
  Forall (isMeshNode w) (nmeshes rootNode) ->
  exists w',
    onCracked buildingId stamp position quaternion mass crackedData w
    = Normal w'
    /\ extends w w'.
Proof.
  intros Hvis Hbody Hroot Hall. unfold onCracked. rewrite Hvis, Hbody.
  cbv zeta. cbn [removeBodyIf].
  set (w1 := writeBuilding buildingId stamp _ w).
  set (w2 := setNodeTransform root position quaternion w1).
  set (w3 := writeBuilding buildingId stamp _ w2).
  assert (Hn1 : nodes w1 = nodes w).
  { unfold w1, writeBuilding.
    destruct (objGet buildingId _); [destruct (decide _)|]; reflexivity. }
  assert (Hn3 : nodes w3 = nodes w2).
  { unfold w3, writeBuilding.
    destruct (objGet buildingId _); [destruct (decide _)|]; reflexivity. }
  assert (Hlt : (root < length (nodes w))%nat)
    by (eapply lookup_lt_Some; exact Hroot).
  assert (Hext : extends w w3).
  { eapply extends_trans; [|apply extends_writeBuilding].
    - eapply extends_trans;
        [|apply extends_agree, agree_setNodeTransform].
      apply extends_writeBuilding. intros b [Hb _]. split; [exact Hb|].
      intros _. exists root. split; [reflexivity | exact Hlt].
    - intros b [Hb Hv]. split; [exact Hb | exact Hv]. }
  assert (Hroot3 : exists nd3,
             nodes w3 !! root = Some nd3 /\ nmeshes nd3 = nmeshes rootNode).
  { rewrite Hn3. unfold w2, setNodeTransform. cbn [nodes set_nodes].
    rewrite Hn1, list_lookup_alter_eq, Hroot. cbn.
    eexists. split; reflexivity. }
  destruct Hroot3 as (nd3 & -> & ->).
  destruct (debrisLoop_sound buildingId stamp root position quaternion mass
              (nmeshes rootNode) w3) as (w' & Hrun & Hext').
  { eapply Forall_impl; [exact Hall|]. intros c Hc.
    unfold isMeshNode in *. rewrite Hn3. unfold w2, setNodeTransform.
    cbn [nodes set_nodes]. rewrite Hn1.
    apply mesh_lookup_alter; [reflexivity | exact Hc]. }
  exists w'. split; [exact Hrun|]. eapply extends_trans; eassumption.
Qed.

Lemma onGltfLoaded_sound (req : LoadRequest) (asset : Asset) (w : World) :
  sound w -> goodRequest w req ->
  exists w', onGltfLoaded req asset w = Normal w' /\ extends w w'.
Proof.
  intros Hs Hreq. unfold onGltfLoaded, instantiate, allocBody. cbv zeta.
  match goal with
  | |- context [set_loadedModels (_ ++ [?md]) ?w0] =>
      set (modelData := md); set (w2 := w0)
  end.
  set (wl := set_loadedModels _ w2).
  set (root := length (nodes w)) in *.
  set (pieces := _ <$> assetPieces asset) in *.
  set (rootNode := mkNode (loadPosition req) identityQuaternion _ true None
                     _) in *.
  assert (Hnodes : nodes wl = nodes w ++ rootNode :: pieces).
  { unfold wl, w2, worldAddBody. cbn.
    destruct (decide _); reflexivity. }
  assert (Hsv : slotVisuals wl = slotVisuals w).
  { unfold wl, w2, worldAddBody. cbn.
    destruct (decide _); reflexivity. }
  assert (Hext : extends w wl).
  { unfold wl. eapply extends_trans; [|apply extends_loadedModels].
    - unfold w2. eapply extends_trans; [|apply extends_worldAddBody].
      apply extends_trans
        with (set_nodes (nodes w ++ rootNode :: pieces) w).
      + apply extends_set_nodes. rewrite length_app. lia.
      + apply extends_agree. agree_refl.
    - unfold goodModel, modelData. split; [|split].
      + eexists. reflexivity.
      + eexists. reflexivity.
      + reflexivity. }
  unfold goodRequest in Hreq.
  destruct (loadOnLoad req) as [[slotId ty id stamp pos paths
                                |id stamp pos quat mass]|] eqn:Hcb.
  - cbn [runCallback]. destruct Hreq as [Hsome Hid]. rewrite <- Hsv in Hsome.
    destruct (onPlaced_sound slotId ty id stamp pos paths modelData root wl
                Hsome Hid eq_refl eq_refl) as (w' & Hrun & Hext').
    { rewrite Hnodes, length_app. cbn. unfold root. lia. }
    exists w'. split; [exact Hrun|]. eapply extends_trans; eassumption.
  - cbn [runCallback].
    destruct (onCracked_sound id stamp pos quat mass modelData root rootNode
                wl eq_refl eq_refl) as (w' & Hrun & Hext').
    + rewrite Hnodes. apply list_lookup_middle. reflexivity.
    + cbn [nmeshes rootNode]. apply Forall_seq. intros i Hi.
      unfold isMeshNode. rewrite Hnodes.
      assert (Hlt : (i - S root < length (assetPieces asset))%nat) by lia.
      destruct (lookup_lt_is_Some_2 (assetPieces asset) (i - S root) Hlt)
        as (piece & Hpiece).
      exists (mkNode (piecePosition piece) (pieceQuaternion piece)
                (pieceScale piece) true (Some (pieceMesh piece)) []),
        (pieceMesh piece).
      split; [|reflexivity].
      rewrite lookup_app_r by (unfold root in *; lia).
      replace (i - length (nodes w))%nat with (S (i - S root))
        by (unfold root in *; lia).
      change ((rootNode :: pieces) !! S (i - S root)%nat)
        with (pieces !! (i - S root)%nat).
      unfold pieces. rewrite list_lookup_fmap, Hpiece. reflexivity.
    + exists w'. split; [exact Hrun|]. eapply extends_trans; eassumption.
  - exists wl. split; [reflexivity | exact Hext].
Qed.

Lemma settleLoad_loaded_extends (k : nat) (asset : Asset) (w : World) :
  extends w (settleLoad k (Loaded asset) w).
Proof.
  intros Hs. unfold settleLoad.
  destruct (pending w !! k) as [req|] eqn:Hreq;
    [|exact (extends_refl w Hs)].
  cbv zeta.
  assert (Hgood : goodRequest w req).
  { destruct Hs as (_ & _ & _ & Hp). rewrite Forall_forall in Hp.
    apply Hp. eapply list_elem_of_lookup_2. exact Hreq. }
  set (w1 := set_pending (delete k (pending w)) w).
  pose proof (extends_pending_delete k w) as Hext1. fold w1 in Hext1.
  destruct (onGltfLoaded_sound req asset w1 (proj1 (Hext1 Hs)) Hgood)
    as (w' & -> & Hext).
  exact (extends_trans w w1 w' Hext1 Hext Hs).
Qed.

Lemma settleLoad_failed_sound (k : nat) (error : string) (w : World) :
  sound w ->
  sound (settleLoad k (Failed error) w)
  /\ worldBodies (settleLoad k (Failed error) w) = worldBodies w
  /\ loadedModels (settleLoad k (Failed error) w) = loadedModels w.
Proof.
  intros Hs. unfold settleLoad.
  destruct (pending w !! k) as [req|];
    [|split; [exact Hs | split; reflexivity]].
  cbv zeta. destruct (extends_pending_delete k w Hs) as (Hs1 & _).
  destruct (loadCatch req); cbn [runCatch];
    (split; [|split; reflexivity]); [exact Hs1|].
  apply (sound_step _ _ Hs1); cbn; sound_frame.
Qed.

(** ** One call, and runs *)

Lemma call_sound (rnd : nat -> R) (c : Call) (w : World) :
  sound w ->
  match call rnd c w with
  | Normal w' =>
      sound w'
      /\ worldBodies w `prefix_of` worldBodies w'
      /\ loadedModels w `prefix_of` loadedModels w'
      /\ (console w' = console w \/ exists k error, c = Settle k (Failed error))
  | Throw error w' =>
      error = "TypeError" /\ w' = w
      /\ exists slotId,
           slots w !! slotId = None
           /\ (c = DemolishBuilding slotId
               \/ exists buildingType now,
                    c = PlaceBuilding slotId buildingType now)
  end.
Proof.
  intros Hs.
  assert (Hnormal : forall w', extends w w' ->
            sound w'
            /\ worldBodies w `prefix_of` worldBodies w'
            /\ loadedModels w `prefix_of` loadedModels w'
            /\ (console w' = console w
                \/ exists k error, c = Settle k (Failed error))).
  { intros w' Hext. destruct (Hext Hs) as (H1 & H2 & H3 & H4).
    repeat (split; [assumption|]). now left. }
  destruct c as [ty ip cp dm|t|slotId pos sz bt|slotId ty now|slotId
                |buildingId| | | |t|path mass pos scale fr re handler
                |k outcome|moved]; cbn [call].
  - apply Hnormal, extends_addBuilding.
  - apply Hnormal, extends_frame; reflexivity.
  - apply Hnormal, extends_addSlot.
  - destruct (slots w !! slotId) as [slot|] eqn:Hslot.
    + destruct (placeBuilding_known slotId ty now slot w Hs Hslot)
        as (w' & -> & Hext).
      now apply Hnormal.
    + rewrite (placeBuilding_unknown_slot _ _ _ _ Hslot).
      split; [reflexivity|]. split; [reflexivity|].
      exists slotId. split; [exact Hslot|]. right. now eexists _, _.
  - destruct (slots w !! slotId) as [slot|] eqn:Hslot.
    + destruct (demolishBuilding_known slotId slot w Hs Hslot)
        as (w' & -> & Hext & _).
      now apply Hnormal.
    + rewrite (demolishBuilding_unknown_slot _ _ Hslot).
      split; [reflexivity|]. split; [reflexivity|].
      exists slotId. split; [exact Hslot|]. now left.
  - destruct (damageBuilding_sound buildingId w Hs) as (w' & -> & Hext).
    now apply Hnormal.
  - destruct (applyTornadoForces_sound rnd w Hs) as (w' & -> & Hext).
    now apply Hnormal.
  - destruct (updateBuildings_sound w Hs) as (w' & -> & Hag).
    now apply Hnormal, extends_agree.
  - unfold updateModels.
    destruct (updateModels_loop (loadedModels w) w) as (w' & -> & Hag);
      [apply Hs|].
    now apply Hnormal, extends_agree.
  - unfold loaderApplyTornadoForces.
    destruct (loaderForces_loop t (loadedModels w) w) as (w' & -> & Hag);
      [apply Hs|].
    now apply Hnormal, extends_agree.
  - apply Hnormal, extends_load. intros _. exact I.
  - destruct outcome as [asset|error].
    + apply Hnormal, settleLoad_loaded_extends.
    + destruct (settleLoad_failed_sound k error w Hs) as (H1 & -> & ->).
      split; [exact H1|]. split; [reflexivity|]. split; [reflexivity|].
      right. now eexists _, _.
  - apply Hnormal, extends_agree. agree_refl.
Qed.

Lemma newWorld_sound : sound newWorld.
Proof.
  split; [|split; [constructor|split; constructor]].
  intros s slot Hslot. cbn in Hslot. rewrite lookup_empty in Hslot.
  discriminate.
Qed.

Lemma run_app (rnd : nat -> R) (calls more : list Call) (w : World) :
  run rnd (calls ++ more) w = run rnd more (run rnd calls w).
Proof. unfold run. apply foldl_app. Qed.

Lemma run_sound (rnd : nat -> R) (calls : list Call) :
  forall w,
  sound w ->
  sound (run rnd calls w)
  /\ worldBodies w `prefix_of` worldBodies (run rnd calls w)
  /\ loadedModels w `prefix_of` loadedModels (run rnd calls w).
Proof.
  induction calls as [|c calls IH]; intros w Hs.
  - split; [exact Hs|]. split; reflexivity.
  - change (run rnd (c :: calls) w)
      with (run rnd calls (stateOf (call rnd c w))).
    pose proof (call_sound rnd c w Hs) as Hc.
    destruct (call rnd c w) as [w1|error w1]; cbn [stateOf].
    + destruct Hc as (Hs1 & Hb1 & Hm1 & _).
      destruct (IH w1 Hs1) as (Hs2 & Hb2 & Hm2).
      split; [exact Hs2|].
      split; [now transitivity (worldBodies w1)
             |now transitivity (loadedModels w1)].
    + destruct Hc as (_ & -> & _). exact (IH w Hs).
Qed.

(** X12.  In a run from the empty registry whose calls use the registries as
    dictionaries only (no slot id, building type or building id is a
    property name that every object inherits, such as ["constructor"] or
    ["__proto__"]), the only call that raises is [placeBuilding] or
    [demolishBuilding] on a slot id the registry does not know: the error is
    a TypeError and the state is unchanged.  No other call of the registry,
    no frame and no load that settles raises. *)
Theorem only_unknown_slot_raises (rnd : nat -> R) (calls : list Call)
    (c : Call) (error : string) (w' : World) :
  Forall plainCall (calls ++ [c]) ->
  call rnd c (run rnd calls newWorld) = Throw error w' ->
  error = "TypeError"
  /\ w' = run rnd calls newWorld
  /\ exists slotId,
       slots (run rnd calls newWorld) !! slotId = None
       /\ plainKey slotId
       /\ (c = DemolishBuilding slotId
           \/ exists buildingType now,
                c = PlaceBuilding slotId buildingType now).
Proof.
  intros Hplain Hthrow.
  pose proof (call_sound rnd c (run rnd calls newWorld)
                (proj1 (run_sound rnd calls newWorld newWorld_sound))) as Hc.
  rewrite Hthrow in Hc. destruct Hc as (He & Hw & slotId & Hs & Hcall).
  split; [exact He|]. split; [exact Hw|].
  exists slotId. split; [exact Hs|]. split; [|exact Hcall].
  apply Forall_app in Hplain. destruct Hplain as [_ Hc].
  apply Forall_cons in Hc. destruct Hc as [Hc _].
  destruct Hcall as [->|(ty & now & ->)];
    apply Forall_cons in Hc; destruct Hc as [Hk _]; exact Hk.
Qed.

Lemma only_unknown_slot_raises_witness :
  let w := run (fun _ => 0.5) sampleCalls newWorld in
  "TypeError" = "TypeError"
  /\ w = w
  /\ exists slotId,
       slots w !! slotId = None
       /\ plainKey slotId
       /\ (DemolishBuilding "ghost" = DemolishBuilding slotId
           \/ exists buildingType now,
                DemolishBuilding "ghost"
                = PlaceBuilding slotId buildingType now).
Proof.
  intros w.
  apply (only_unknown_slot_raises (fun _ => 0.5) sampleCalls
           (DemolishBuilding "ghost") "TypeError" w).
  - apply (bool_decide_unpack _). vm_compute. exact I.
  - vm_compute. reflexivity.
Defined.

(** X13.  In a run from the empty registry no physics body ever leaves the
    world and the loader never forgets a model: what a longer run has in
    [physicsWorld.bodies] and in [loadedModels] starts with what the shorter
    run had.  Demolished and damaged buildings keep their bodies. *)
Theorem bodies_never_leave (rnd : nat -> R) (calls more : list Call) :
  worldBodies (run rnd calls newWorld)
    `prefix_of` worldBodies (run rnd (calls ++ more) newWorld)
  /\ loadedModels (run rnd calls newWorld)
       `prefix_of` loadedModels (run rnd (calls ++ more) newWorld).
Proof.
  rewrite run_app.
  destruct (run_sound rnd calls newWorld newWorld_sound) as (Hs & _).
  destruct (run_sound rnd more (run rnd calls newWorld) Hs) as (_ & Hb & Hm).
  split; assumption.
Qed.

(** X14.  In a run from the empty registry, [console.error] is written only
    by a load that fails: every other call, a load that succeeds included,
    leaves the console as it was. *)
Theorem console_only_failed_loads (rnd : nat -> R) (calls : list Call)
    (c : Call) :
  (forall k error, c <> Settle k (Failed error)) ->
  console (stateOf (call rnd c (run rnd calls newWorld)))
  = console (run rnd calls newWorld).
Proof.
  intros Hc.
  pose proof (call_sound rnd c (run rnd calls newWorld)
                (proj1 (run_sound rnd calls newWorld newWorld_sound))) as H.
  destruct (call rnd c (run rnd calls newWorld)) as [w1|error w1];
    cbn [stateOf].
  - destruct H as (_ & _ & _ & [Hcon|(k & error & Heq)]); [exact Hcon|].
    now destruct (Hc k error).
  - destruct H as (_ & -> & _). reflexivity.
Qed.

Lemma console_only_failed_loads_witness :
  console
    (stateOf
       (call (fun _ => 0.5) (Settle 0 (Loaded crackedAsset))
          (run (fun _ => 0.5) (sampleCalls ++ [DamageBuilding casaId])
             newWorld)))
  = console
      (run (fun _ => 0.5) (sampleCalls ++ [DamageBuilding casaId]) newWorld).
Proof.
  apply (console_only_failed_loads (fun _ => 0.5)
           (sampleCalls ++ [DamageBuilding casaId])
           (Settle 0 (Loaded crackedAsset))).
  intros k error H. discriminate H.
Defined.

(** X15.  In every state a run from the empty registry reaches, a slot is
    occupied exactly when it names a building, and it has its marker. *)
Theorem slots_consistent (rnd : nat -> R) (calls : list Call)
    (slotId : string) (slot : Slot) :
  slots (run rnd calls newWorld) !! slotId = Some slot ->
  (occupied slot = true <-> is_Some (slotBuildingId slot))
  /\ slotBuildingId slot <> Some ""
  /\ is_Some (slotVisuals (run rnd calls newWorld) !! slotId).
Proof.
  intros Hslot.
  destruct (run_sound rnd calls newWorld newWorld_sound) as (Hs & _).
  destruct (sound_slot _ slotId slot Hs Hslot) as [Hgood Hsv].
  unfold goodSlot in Hgood. destruct (occupied slot).
  - destruct Hgood as (id & Hid & Hne). rewrite Hid.
    split; [split; [now eexists | reflexivity]|].
    split; [congruence | exact Hsv].
  - rewrite Hgood. split; [split; [discriminate | intros [x Hx]; discriminate]|].
    split; [discriminate | exact Hsv].
Qed.

Lemma slots_consistent_witness :
  let slot :=
    mkSlot 0 (Vec3 0 0.4 0) (numberOr (Some 1) 1) true (Some "Casa")
      (Some casaId) in
  (occupied slot = true <-> is_Some (slotBuildingId slot))
  /\ slotBuildingId slot <> Some ""
  /\ is_Some (slotVisuals (run (fun _ => 0.5) sampleCalls newWorld) !! "s").
Proof.
  intros slot.
  apply (slots_consistent (fun _ => 0.5) sampleCalls "s" slot).
  vm_compute. reflexivity.
Defined.

(** X16.  In every state a run from the empty registry reaches, no building
    has a [body] (the loader names it [physics]), and the visual of a
    building that is not damaged is a node of the scene graph. *)
Theorem buildings_have_no_body (rnd : nat -> R) (calls : list Call)
    (buildingId : string) (b : Building) :
  objGet buildingId (buildingVisuals (run rnd calls newWorld)) = Some b ->
  buildingBody b = None
  /\ (damaged b = false ->
      exists n, visual b = Some (JNode n)
                /\ is_Some (nodes (run rnd calls newWorld) !! n)).
Proof.
  intros Hb.
  destruct (run_sound rnd calls newWorld newWorld_sound) as (Hs & _).
  destruct (sound_building _ buildingId b Hs Hb) as [Hbody Hvis].
  split; [exact Hbody|]. intros Hd. destruct (Hvis Hd) as (n & Hn & Hlt).
  exists n. split; [exact Hn | now apply lookup_lt_is_Some_2].
Qed.

Lemma buildings_have_no_body_witness :
  let b := casaBuilding (Vec3 0 0.4 0) in
  buildingBody b = None
  /\ (damaged b = false ->
      exists n, visual b = Some (JNode n)
                /\ is_Some
                     (nodes (run (fun _ => 0.5) sampleCalls newWorld) !! n)).
Proof.
  intros b.
  apply (buildings_have_no_body (fun _ => 0.5) sampleCalls casaId b).
  vm_compute. reflexivity.
Defined.

End RuntimeFacts.

(** * Placements in flight *)

Module PlacementFacts.
Import Three TornadoField Registry Scenarios Runtime RegistryFacts
  RuntimeFacts.
Local Open Scope R_scope.

(** What a placement on a free slot requests. *)
Lemma placeBuilding_free (slotId buildingType : string) (now : N)
    (slot : Slot) (paths : BuildingType) (w : World) :
  slots w !! slotId = Some slot -> occupied slot = false ->
  buildings w !! buildingType = Some paths ->
  placeBuilding slotId buildingType now w
  = Normal
      (load (intact paths) 0 (slotPosition slot) 1 0.5 0.2
         (Some (OnPlaced slotId buildingType
                  (slotId +:+ "_" +:+ buildingType +:+ "_" +:+ pretty now)
                  (slotStamp slot) (slotPosition slot) paths))
         CatchSilent w).
Proof.
  intros Hslot Hocc Hty. unfold placeBuilding.
  rewrite Hslot, Hocc. cbn [andThen]. rewrite Hty. reflexivity.
Qed.

Lemma demolishBuilding_free (slotId : string) (slot : Slot) (w : World) :
  slots w !! slotId = Some slot -> occupied slot = false ->
  demolishBuilding slotId w = Normal w.
Proof.
  intros Hslot Hocc. unfold demolishBuilding. now rewrite Hslot, Hocc.
Qed.

(** The placement callback on a state where the slot is still the object
    the call captured. *)
Lemma settle_placement (slotId buildingType buildingId : string)
    (slot : Slot) (sv : SlotVisual) (paths : BuildingType) (asset : Asset)
    (w : World) (l : list LoadRequest) (req : LoadRequest) :
  slots w !! slotId = Some slot ->
  slotVisuals w !! slotId = Some sv ->
  pending w = l ++ [req] ->
  loadOnLoad req
  = Some (OnPlaced slotId buildingType buildingId (slotStamp slot)
            (slotPosition slot) paths) ->
  let w2 := settleLoad (length l) (Loaded asset) w in
  slots w2
  = <[slotId := mkSlot (slotStamp slot) (slotPosition slot) (slotSize slot)
                  true (Some buildingType) (Some buildingId)]> (slots w)
  /\ buildingVisuals w2
     = objSet buildingId
         (mkBuilding (nextStamp w) (Some (JNode (length (nodes w)))) None
            buildingType slotId (intact paths) (cracked paths) false []
            (slotPosition slot))
         (buildingVisuals w)
  /\ sceneChildren w2
     = removeFirst (length (nodes w)) (sceneChildren w) ++ [length (nodes w)]
  /\ pending w2 = l
  /\ slotVisuals w2 = slotVisuals w
  /\ buildings w2 = buildings w
  /\ nextStamp w2 = S (nextStamp w)
  /\ length (nodes w2) = S (length (nodes w) + length (assetPieces asset)).
Proof.
  intros Hslot Hsv Hp Hcb. cbv zeta.
  rewrite (settleLoad_loaded_last w req l asset Hp).
  unfold onGltfLoaded, instantiate, allocBody. cbv zeta. rewrite Hcb.
  cbn [runCallback]. unfold onPlaced, setSlotVisible, writeSlot, worldAddBody.
  cbv zeta.
  destruct (decide _) as [Hin|Hnin]; cbn;
    rewrite Hslot, decide_True by reflexivity; cbn; rewrite Hsv; cbn;
    rewrite length_alter, length_app; cbn; rewrite length_fmap;
    repeat (split; [reflexivity|]); lia.
Qed.

Lemma elem_of_removeFirst_ne (x y : nat) (l : list nat) :
  x <> y -> x ∈ l -> x ∈ removeFirst y l.
Proof.
  intros Hne. induction l as [|z l IH]; intros Hin; [inversion Hin|].
  cbn. apply elem_of_cons in Hin.
  destruct (decide (z = y)) as [->|Hzy].
  - destruct Hin as [->|Hin]; [contradiction | exact Hin].
  - destruct Hin as [->|Hin]; [left | right; auto].
Qed.

Lemma objGet_objDelete_ne {V : Type} (k k2 : string)
    (o : list (string * V)) :
  k <> k2 -> objGet k2 (objDelete k o) = objGet k2 o.
Proof.
  intros Hne. induction o as [|[k' v'] o IH]; [reflexivity|]. cbn.
  destruct (decide (k' = k)) as [->|Hk]; cbn.
  - now rewrite decide_False.
  - destruct (decide (k' = k2)); [reflexivity | exact IH].
Qed.

(** X17.  While the model of a placement is loading the slot is still free:
    [demolishBuilding] returns without doing anything, it does not cancel
    the placement, and when the load settles the building appears in the
    scene and takes the slot. *)
Theorem demolish_does_not_cancel_placement (slotId buildingType : string)
    (now : N) (slot : Slot) (sv : SlotVisual) (paths : BuildingType)
    (asset : Asset) (w : World) :
  slots w !! slotId = Some slot -> occupied slot = false ->
  buildings w !! buildingType = Some paths ->
  slotVisuals w !! slotId = Some sv ->
  let id := slotId +:+ "_" +:+ buildingType +:+ "_" +:+ pretty now in
  let w1 := stateOf (placeBuilding slotId buildingType now w) in
  let w2 := settleLoad (length (pending w)) (Loaded asset) w1 in
  returned (placeBuilding slotId buildingType now w) = true
  /\ slots w1 = slots w
  /\ buildingVisuals w1 = buildingVisuals w
  /\ length (pending w1) = S (length (pending w))
  /\ demolishBuilding slotId w1 = Normal w1
  /\ slots w2 !! slotId
     = Some (mkSlot (slotStamp slot) (slotPosition slot) (slotSize slot) true
               (Some buildingType) (Some id))
  /\ objGet id (buildingVisuals w2)
     = Some (mkBuilding (nextStamp w) (Some (JNode (length (nodes w)))) None
               buildingType slotId (intact paths) (cracked paths) false []
               (slotPosition slot))
  /\ length (nodes w) ∈ sceneChildren w2
  /\ pending w2 = pending w.
Proof.
  intros Hslot Hocc Hty Hsv. cbv zeta.
  rewrite (placeBuilding_free slotId buildingType now slot paths w Hslot
             Hocc Hty).
  cbn [stateOf returned].
  set (w1 := load _ _ _ _ _ _ _ _ w).
  split; [reflexivity|]. split; [reflexivity|]. split; [reflexivity|].
  split. { unfold w1. cbn. rewrite length_app. cbn. lia. }
  split. { exact (demolishBuilding_free slotId slot w1 Hslot Hocc). }
  destruct (settle_placement slotId buildingType
              (slotId +:+ "_" +:+ buildingType +:+ "_" +:+ pretty now)
              slot sv paths asset w1 (pending w) _ Hslot Hsv eq_refl eq_refl)
    as (Hs2 & Hb2 & Hsc2 & Hp2 & _).
  rewrite Hs2, Hb2, Hsc2, Hp2.
  split. { apply lookup_insert_eq. }
  split. { apply objGet_objSet_eq. }
  split; [|reflexivity].
  apply elem_of_app. right. now apply list_elem_of_singleton.
Qed.

Lemma demolish_does_not_cancel_placement_witness :
  let w := registeredWorld (Vec3 0 0.4 0) in
  let slot := mkSlot 0 (Vec3 0 0.4 0) (numberOr (Some 1) 1) false None None in
  let paths :=
    mkBuildingType "./assets/casa_0.glb" "./assets/casa_0_cracked.glb"
      (numberOr (Some 2) 0.5) in
  let id := "s" +:+ "_" +:+ "Casa" +:+ "_" +:+ pretty 1700%N in
  let w1 := stateOf (placeBuilding "s" "Casa" 1700 w) in
  let w2 := settleLoad (length (pending w)) (Loaded casaAsset) w1 in
  returned (placeBuilding "s" "Casa" 1700 w) = true
  /\ slots w1 = slots w
  /\ buildingVisuals w1 = buildingVisuals w
  /\ length (pending w1) = S (length (pending w))
  /\ demolishBuilding "s" w1 = Normal w1
  /\ slots w2 !! "s"
     = Some (mkSlot (slotStamp slot) (slotPosition slot) (slotSize slot) true
               (Some "Casa") (Some id))
  /\ objGet id (buildingVisuals w2)
     = Some (mkBuilding (nextStamp w) (Some (JNode (length (nodes w)))) None
               "Casa" "s" (intact paths) (cracked paths) false []
               (slotPosition slot))
  /\ length (nodes w) ∈ sceneChildren w2
  /\ pending w2 = pending w.
Proof.
  intros w slot paths.
  apply (demolish_does_not_cancel_placement "s" "Casa" 1700 slot
           (mkSlotVisual 0) paths casaAsset w);
    vm_compute; reflexivity.
Defined.

(** X18.  Two placements on the same free slot before either model has
    loaded are both carried out: [placeBuilding] does not look at the loads
    in flight.  Both buildings end up in the registry and in the scene, the
    slot names the one whose model loaded last, and demolishing the slot
    removes that one only: the other stays in the registry and in the scene
    although no slot names it. *)
Theorem double_placement_orphans (slotId type1 type2 : string)
    (now1 now2 : N) (slot : Slot) (sv : SlotVisual)
    (paths1 paths2 : BuildingType) (asset1 asset2 : Asset) (w : World) :
  slots w !! slotId = Some slot -> occupied slot = false ->
  buildings w !! type1 = Some paths1 -> buildings w !! type2 = Some paths2 ->
  slotVisuals w !! slotId = Some sv ->
  let id1 := slotId +:+ "_" +:+ type1 +:+ "_" +:+ pretty now1 in
  let id2 := slotId +:+ "_" +:+ type2 +:+ "_" +:+ pretty now2 in
  id1 <> id2 ->
  let w2 :=
    stateOf (placeBuilding slotId type2 now2
               (stateOf (placeBuilding slotId type1 now1 w))) in
  let w3 := settleLoad (S (length (pending w))) (Loaded asset2) w2 in
  let w4 := settleLoad (length (pending w)) (Loaded asset1) w3 in
  let w5 := stateOf (demolishBuilding slotId w4) in
  let n2 := length (nodes w) in
  let n1 := S (length (nodes w) + length (assetPieces asset2)) in
  (visual <$> objGet id1 (buildingVisuals w4) = Some (Some (JNode n1))
   /\ visual <$> objGet id2 (buildingVisuals w4) = Some (Some (JNode n2))
   /\ n1 ∈ sceneChildren w4 /\ n2 ∈ sceneChildren w4
   /\ slotBuildingId <$> slots w4 !! slotId = Some (Some id1)
   /\ pending w4 = pending w)
  /\ (returned (demolishBuilding slotId w4) = true
      /\ (fun s => (occupied s, slotBuildingId s)) <$> slots w5 !! slotId
         = Some (false, None)
      /\ visual <$> objGet id2 (buildingVisuals w5) = Some (Some (JNode n2))
      /\ n2 ∈ sceneChildren w5).
Proof.
  intros Hslot Hocc Hty1 Hty2 Hsv id1 id2 Hne. cbv zeta.
  rewrite (placeBuilding_free slotId type1 now1 slot paths1 w Hslot Hocc
             Hty1).
  cbn [stateOf]. set (w1 := load _ _ _ _ _ _ _ _ w).
  rewrite (placeBuilding_free slotId type2 now2 slot paths2 w1 Hslot Hocc
             Hty2).
  cbn [stateOf]. set (w2 := load _ _ _ _ _ _ _ _ w1).
  fold id1 id2 in w1, w2 |- *.
  destruct (settle_placement slotId type2 id2 slot sv paths2 asset2 w2
              (pending w ++ [_]) _ Hslot Hsv eq_refl eq_refl)
    as (Hs3 & Hb3 & Hsc3 & Hp3 & Hsv3 & _ & Hst3 & Hn3).
  rewrite length_app, Nat.add_1_r in Hs3, Hb3, Hsc3, Hp3, Hsv3, Hst3, Hn3.
  cbn [length] in Hs3, Hb3, Hsc3, Hp3, Hsv3, Hst3, Hn3.
  set (w3 := settleLoad (S (length (pending w))) (Loaded asset2) w2) in *.
  set (slot3 := mkSlot (slotStamp slot) (slotPosition slot) (slotSize slot)
                  true (Some type2) (Some id2)) in *.
  assert (Hslot3 : slots w3 !! slotId = Some slot3)
    by (rewrite Hs3; apply lookup_insert_eq).
  assert (Hsv3' : slotVisuals w3 !! slotId = Some sv) by (now rewrite Hsv3).
  destruct (settle_placement slotId type1 id1 slot3 sv paths1 asset1 w3
              (pending w) _ Hslot3 Hsv3' Hp3 eq_refl)
    as (Hs4 & Hb4 & Hsc4 & Hp4 & Hsv4 & _).
  set (w4 := settleLoad (length (pending w)) (Loaded asset1) w3) in *.
  cbn [slotStamp slotPosition slotSize slot3] in Hs4, Hb4.
  rewrite Hn3 in Hb4, Hsc4. rewrite Hst3 in Hb4.
  change (nodes w2) with (nodes w) in *.
  change (sceneChildren w2) with (sceneChildren w) in *.
  change (buildingVisuals w2) with (buildingVisuals w) in *.
  change (slotVisuals w2) with (slotVisuals w) in *.
  change (nextStamp w2) with (nextStamp w) in *.
  set (n2 := length (nodes w)) in *.
  set (n1 := S (n2 + length (assetPieces asset2))) in *.
  assert (Hn12 : n2 <> n1) by (unfold n1; lia).
  assert (Hget1 : visual <$> objGet id1 (buildingVisuals w4)
                  = Some (Some (JNode n1))).
  { rewrite Hb4, objGet_objSet_eq. reflexivity. }
  assert (Hget2 : forall o,
            visual <$> objGet id2
                         (objSet id2
                            (mkBuilding (nextStamp w) (Some (JNode n2)) None
                               type2 slotId (intact paths2) (cracked paths2)
                               false [] (slotPosition slot)) o)
            = Some (Some (JNode n2))).
  { intros o. rewrite objGet_objSet_eq. reflexivity. }
  assert (Hin2 : n2 ∈ sceneChildren w4).
  { rewrite Hsc4, Hsc3. apply elem_of_app. left.
    apply elem_of_removeFirst_ne; [exact Hn12|].
    apply elem_of_app. right. now apply list_elem_of_singleton. }
  split.
  - split; [exact Hget1|].
    split. { rewrite Hb4, objGet_objSet_ne, Hb3 by exact Hne. apply Hget2. }
    split. { rewrite Hsc4. apply elem_of_app. right.
             now apply list_elem_of_singleton. }
    split; [exact Hin2|].
    split; [|exact Hp4].
    rewrite Hs4, lookup_insert_eq. reflexivity.
  - unfold demolishBuilding. rewrite Hs4, lookup_insert_eq.
    cbn [occupied slotBuildingId stringOrNull].
    rewrite decide_False by (apply buildingId_nonempty).
    rewrite Hb4, objGet_objSet_eq. cbv zeta.
    cbn [visual buildingBody crackedBodies removeBodyIf sceneRemove foldl].
    unfold setSlotVisible. cbn [slotVisuals set_slots set_buildingVisuals
                                   set_sceneChildren].
    rewrite Hsv4, Hsv3, Hsv. cbn [stateOf returned].
    split; [reflexivity|].
    split. { cbn. rewrite lookup_insert_eq. reflexivity. }
    split.
    + cbn. rewrite Hb4.
      rewrite objGet_objDelete_ne, objGet_objSet_ne, Hb3 by exact Hne.
      apply Hget2.
    + cbn. apply elem_of_removeFirst_ne; [exact Hn12 | exact Hin2].
Qed.

Lemma double_placement_orphans_witness :
  let w := registeredWorld (Vec3 0 0.4 0) in
  let id1 := "s" +:+ "_" +:+ "Casa" +:+ "_" +:+ pretty 1700%N in
  let id2 := "s" +:+ "_" +:+ "Casa" +:+ "_" +:+ pretty 1701%N in
  let w2 :=
    stateOf (placeBuilding "s" "Casa" 1701
               (stateOf (placeBuilding "s" "Casa" 1700 w))) in
  let w3 := settleLoad (S (length (pending w))) (Loaded casaAsset) w2 in
  let w4 := settleLoad (length (pending w)) (Loaded crackedAsset) w3 in
  let w5 := stateOf (demolishBuilding "s" w4) in
  let n2 := length (nodes w) in
  let n1 := S (length (nodes w) + length (assetPieces casaAsset)) in
  (visual <$> objGet id1 (buildingVisuals w4) = Some (Some (JNode n1))
   /\ visual <$> objGet id2 (buildingVisuals w4) = Some (Some (JNode n2))
   /\ n1 ∈ sceneChildren w4 /\ n2 ∈ sceneChildren w4
   /\ slotBuildingId <$> slots w4 !! "s" = Some (Some id1)
   /\ pending w4 = pending w)
  /\ (returned (demolishBuilding "s" w4) = true
      /\ (fun s => (occupied s, slotBuildingId s)) <$> slots w5 !! "s"
         = Some (false, None)
      /\ visual <$> objGet id2 (buildingVisuals w5) = Some (Some (JNode n2))
      /\ n2 ∈ sceneChildren w5).
Proof.
  intros w.
  apply (double_placement_orphans "s" "Casa" "Casa" 1700 1701
           (mkSlot 0 (Vec3 0 0.4 0) (numberOr (Some 1) 1) false None None)
           (mkSlotVisual 0)
           (mkBuildingType "./assets/casa_0.glb"
              "./assets/casa_0_cracked.glb" (numberOr (Some 2) 0.5))
           (mkBuildingType "./assets/casa_0.glb"
              "./assets/casa_0_cracked.glb" (numberOr (Some 2) 0.5))
           crackedAsset casaAsset w);
    try (vm_compute; reflexivity).
  vm_compute. discriminate.
Defined.

End PlacementFacts.

(** * Synchronising the scene with the physics *)

Module SyncFacts.
Import Three TornadoField Registry Scenarios Runtime RegistryFacts
  RuntimeFacts.
Local Open Scope R_scope.

Lemma copyTransform_spec (n : NodeId) (b : BodyId) (w : World) :
  bodies (copyTransform n b w) = bodies w
  /\ nodes (copyTransform n b w)
     = match bodies w !! b with
       | Some physics => alter (movedTo physics) n (nodes w)
       | None => nodes w
       end.
Proof. unfold copyTransform. destruct (bodies w !! b); split; reflexivity. Qed.

Lemma syncAll_bodies (pairs : list (NodeId * BodyId)) (w : World) :
  bodies (syncAll pairs w) = bodies w.
Proof.
  revert w. induction pairs as [|[n b] pairs IH]; intros w; [reflexivity|].
  unfold syncAll in *. cbn [foldl]. rewrite IH.
  apply copyTransform_spec.
Qed.

Lemma syncAll_agree (pairs : list (NodeId * BodyId)) (w : World) :
  agree w (syncAll pairs w).
Proof.
  revert w. induction pairs as [|[n b] pairs IH]; intros w;
    [apply agree_refl|].
  unfold syncAll in *. cbn [foldl].
  eapply agree_trans; [apply agree_copyTransform | apply IH].
Qed.

Lemma syncAll_other (pairs : list (NodeId * BodyId)) (n : NodeId) :
  forall w, n ∉ pairs.*1 -> nodes (syncAll pairs w) !! n = nodes w !! n.
Proof.
  induction pairs as [|[m b] pairs IH]; intros w Hn; [reflexivity|].
  cbn in Hn. apply not_elem_of_cons in Hn. destruct Hn as [Hne Hn].
  unfold syncAll in *. cbn [foldl fst snd]. rewrite (IH _ Hn).
  destruct (copyTransform_spec m b w) as [_ ->].
  destruct (bodies w !! b); [|reflexivity].
  now apply list_lookup_alter_ne.
Qed.

Lemma syncAll_synced (pairs : list (NodeId * BodyId)) :
  forall w n b physics,
  NoDup pairs.*1 -> (n, b) ∈ pairs -> bodies w !! b = Some physics ->
  nodes (syncAll pairs w) !! n = movedTo physics <$> nodes w !! n.
Proof.
  induction pairs as [|[m c] pairs IH]; intros w n b physics Hnd Hin Hb;
    [inversion Hin|].
  cbn in Hnd. apply NoDup_cons in Hnd. destruct Hnd as [Hm Hnd].
  apply elem_of_cons in Hin.
  change (syncAll ((m, c) :: pairs) w)
    with (syncAll pairs (copyTransform m c w)).
  destruct (copyTransform_spec m c w) as [Hbodies Hnodes]. cbn [fst snd].
  destruct Hin as [Heq|Hin].
  - inversion Heq; subst m c. rewrite (syncAll_other pairs n _ Hm).
    rewrite Hnodes, Hb. apply list_lookup_alter_eq.
  - rewrite (IH (copyTransform m c w) n b physics Hnd Hin)
      by (now rewrite Hbodies).
    assert (Hne : m <> n).
    { intros ->. apply Hm. apply list_elem_of_fmap. now exists (n, b). }
    rewrite Hnodes. destruct (bodies w !! c); [|reflexivity].
    now rewrite list_lookup_alter_ne.
Qed.

Lemma syncAll_app (l1 l2 : list (NodeId * BodyId)) (w : World) :
  syncAll (l1 ++ l2) w = syncAll l2 (syncAll l1 w).
Proof. unfold syncAll. apply foldl_app. Qed.

Lemma syncParts_syncAll (parts : list DebrisPart) (w : World) :
  foldl (fun w part => copyTransform (mesh part) (body part) w) w parts
  = syncAll ((fun part => (mesh part, body part)) <$> parts) w.
Proof.
  revert w. induction parts as [|part parts IH]; intros w; [reflexivity|].
  cbn [foldl fmap list_fmap]. rewrite IH. reflexivity.
Qed.

Lemma updateBuildings_syncAll (entries : list (string * Building)) :
  forall w,
  Forall (fun entry => buildingBody entry.2 = None) entries ->
  foldl updateBuilding (Normal w) entries
  = Normal
      (syncAll
         ((fun part => (mesh part, body part))
            <$> flat_map (fun entry : string * Building =>
                            if damaged entry.2 then crackedBodies entry.2
                            else []) entries) w).
Proof.
  induction entries as [|entry entries IH]; intros w Hall; [reflexivity|].
  apply Forall_cons in Hall. destruct Hall as [Hbody Hrest].
  cbn [foldl flat_map]. unfold updateBuilding at 2. cbn [andThen]. cbv zeta.
  rewrite Hbody. cbn [truthy]. rewrite fmap_app, syncAll_app.
  destruct (damaged entry.2).
  - rewrite (IH _ Hrest), syncParts_syncAll. reflexivity.
  - exact (IH w Hrest).
Qed.

Lemma updateModels_syncAll (entries : list (gmap string JsValue)) :
  forall w,
  Forall goodModel entries ->
  foldl (fun r (modelData : gmap string JsValue) =>
           andThen r (fun w =>
             match modelData !! "visual", modelData !! "physics" with
             | Some (JNode visual), Some (JBody physics) =>
                 Normal (copyTransform visual physics w)
             | _, _ => Throw "TypeError" w
             end))
    (Normal w) entries
  = Normal
      (syncAll
         (omap (fun modelData : gmap string JsValue =>
                  match modelData !! "visual", modelData !! "physics" with
                  | Some (JNode n), Some (JBody b) => Some (n, b)
                  | _, _ => None
                  end) entries) w).
Proof.
  induction entries as [|md entries IH]; intros w Hall; [reflexivity|].
  apply Forall_cons in Hall. destruct Hall as [Hmd Hrest].
  destruct Hmd as ((n & Hn) & (b & Hb) & _).
  cbn [foldl andThen omap list_omap]. rewrite Hn, Hb.
  rewrite (IH _ Hrest). reflexivity.
Qed.

(** X19.  [BuildingSlots.update] copies, for every fragment of every damaged
    building, the position and the quaternion of the fragment's body to the
    fragment's mesh, and changes nothing else: no body, no other node (an
    intact building is never moved, its record has no [body]), nothing of
    the registry.  Stated for buildings without [body], as [placeBuilding]
    makes them, and fragments with distinct meshes. *)
Theorem updateBuildings_syncs_fragments (w : World) :
  Forall (fun entry => buildingBody entry.2 = None) (buildingVisuals w) ->
  NoDup (fragmentPairs w).*1 ->
  exists w',
    updateBuildings w = Normal w'
    /\ agree w w'
    /\ bodies w' = bodies w
    /\ (forall part physics,
          part ∈ fragments w -> bodies w !! body part = Some physics ->
          nodes w' !! mesh part = movedTo physics <$> nodes w !! mesh part)
    /\ (forall n, n ∉ (fragmentPairs w).*1 -> nodes w' !! n = nodes w !! n).
Proof.
  intros Hbody Hnd. unfold updateBuildings.
  rewrite (updateBuildings_syncAll (buildingVisuals w) w Hbody).
  fold (fragments w). fold (fragmentPairs w).
  eexists. split; [reflexivity|].
  split; [apply syncAll_agree|]. split; [apply syncAll_bodies|]. split.
  - intros part physics Hin Hb.
    apply (syncAll_synced (fragmentPairs w) w (mesh part) (body part) physics
             Hnd); [|exact Hb].
    unfold fragmentPairs. apply list_elem_of_fmap. now exists part.
  - intros n Hn. now apply syncAll_other.
Qed.

Lemma updateBuildings_syncs_fragments_witness :
  let w := ruinedWorld (Vec3 0 0.4 0) in
  exists w',
    updateBuildings w = Normal w'
    /\ agree w w'
    /\ bodies w' = bodies w
    /\ (forall part physics,
          part ∈ fragments w -> bodies w !! body part = Some physics ->
          nodes w' !! mesh part = movedTo physics <$> nodes w !! mesh part)
    /\ (forall n, n ∉ (fragmentPairs w).*1 -> nodes w' !! n = nodes w !! n).
Proof.
  intros w. apply (updateBuildings_syncs_fragments w).
  - vm_compute. repeat constructor.
  - apply (bool_decide_unpack _). vm_compute. exact I.
Defined.

(** X20.  [ModelLoader.updateModels] copies, for every loaded model, the
    position and the quaternion of its physics body to its visual, and
    changes nothing else.  Stated for entries as [load] makes them, with
    distinct visuals. *)
Theorem updateModels_syncs_models (w : World) :
  Forall goodModel (loadedModels w) ->
  NoDup (modelPairs w).*1 ->
  exists w',
    updateModels w = Normal w'
    /\ agree w w'
    /\ bodies w' = bodies w
    /\ (forall n b physics,
          (n, b) ∈ modelPairs w -> bodies w !! b = Some physics ->
          nodes w' !! n = movedTo physics <$> nodes w !! n)
    /\ (forall n, n ∉ (modelPairs w).*1 -> nodes w' !! n = nodes w !! n).
Proof.
  intros Hgood Hnd. unfold updateModels.
  rewrite (updateModels_syncAll (loadedModels w) w Hgood).
  fold (modelPairs w).
  eexists. split; [reflexivity|].
  split; [apply syncAll_agree|]. split; [apply syncAll_bodies|]. split.
  - intros n b physics Hin Hb.
    exact (syncAll_synced (modelPairs w) w n b physics Hnd Hin Hb).
  - intros n Hn. now apply syncAll_other.
Qed.

Lemma updateModels_syncs_models_witness :
  let w := ruinedWorld (Vec3 0 0.4 0) in
  exists w',
    updateModels w = Normal w'
    /\ agree w w'
    /\ bodies w' = bodies w
    /\ (forall n b physics,
          (n, b) ∈ modelPairs w -> bodies w !! b = Some physics ->
          nodes w' !! n = movedTo physics <$> nodes w !! n)
    /\ (forall n, n ∉ (modelPairs w).*1 -> nodes w' !! n = nodes w !! n).
Proof.
  intros w. apply (updateModels_syncs_models w).
  - assert (Hmodels :
      loadedModels w
      = [ {[ "visual" := JNode 1%nat; "physics" := JBody 0%nat;
             "path" := JString "./assets/casa_0.glb" ]};
          {[ "visual" := JNode 2%nat; "physics" := JBody 1%nat;
             "path" := JString "./assets/casa_0_cracked.glb" ]} ])
      by (vm_compute; reflexivity).
    rewrite Hmodels.
    repeat constructor; eexists; reflexivity.
  - apply (bool_decide_unpack _). vm_compute. exact I.
Defined.

End SyncFacts.

(** * Removing loaded models *)

Module RemoveFacts.
Import Three TornadoField Registry Scenarios Runtime.
Local Open Scope R_scope.

Lemma removeFirst_absent (x : nat) (l : list nat) :
  x ∉ l -> removeFirst x l = l.
Proof.
  induction l as [|y l IH]; intros Hx; [reflexivity|].
  apply not_elem_of_cons in Hx. destruct Hx as [Hne Hx]. cbn.
  rewrite decide_False by congruence. f_equal. now apply IH.
Qed.

Lemma filter_absent (x : nat) (l : list nat) :
  x ∉ l -> filter (fun y => y <> x) l = l.
Proof.
  induction l as [|y l IH]; intros Hx; [reflexivity|].
  apply not_elem_of_cons in Hx. destruct Hx as [Hne Hx].
  rewrite filter_cons_True by congruence. f_equal. now apply IH.
Qed.

Lemma removeFirst_filter (x : nat) (l : list nat) :
  NoDup l -> removeFirst x l = filter (fun y => y <> x) l.
Proof.
  induction l as [|y l IH]; intros Hnd; [reflexivity|].
  apply NoDup_cons in Hnd. destruct Hnd as [Hy Hnd]. cbn [removeFirst].
  destruct (decide (y = x)) as [->|Hne].
  - rewrite filter_cons_False by (intros H; now apply H).
    symmetry. now apply filter_absent.
  - rewrite filter_cons_True by exact Hne. f_equal. now apply IH.
Qed.

Lemma removeAll_filter (xs : list nat) :
  forall l,
  NoDup l ->
  foldl (fun l x => removeFirst x l) l xs = filter (fun y => y ∉ xs) l.
Proof.
  induction xs as [|x xs IH]; intros l Hnd.
  - cbn. symmetry. induction l as [|y l IHl]; [reflexivity|].
    apply NoDup_cons in Hnd. destruct Hnd as [_ Hnd].
    rewrite filter_cons_True by (intros H; inversion H).
    f_equal. now apply IHl.
  - cbn [foldl]. rewrite removeFirst_filter by exact Hnd.
    rewrite IH by (now apply NoDup_filter).
    rewrite list_filter_filter. apply list_filter_iff. intros y. split.
    + intros [H1 H2] Hin. apply elem_of_cons in Hin.
      destruct Hin as [->|Hin]; [now apply H2 | now apply H1].
    + intros H. split.
      * intros Hin. apply H. now right.
      * intros ->. apply H. left.
Qed.

Lemma removeAll_loop (entries : list (gmap string JsValue)) :
  forall w,
  Forall (fun modelData : gmap string JsValue =>
            is_Some (modelData !! "physics")) entries ->
  foldl (fun r (modelData : gmap string JsValue) =>
           andThen r (fun w =>
             removePhysics modelData
               (sceneRemove (modelData !! "visual") w)))
    (Normal w) entries
  = Normal
      (set_worldBodies
         (foldl (fun l x => removeFirst x l) (worldBodies w)
            (omap (fun modelData : gmap string JsValue =>
                     match modelData !! "physics" with
                     | Some (JBody b) => Some b
                     | _ => None
                     end) entries))
         (set_sceneChildren
            (foldl (fun l x => removeFirst x l) (sceneChildren w)
               (omap (fun modelData : gmap string JsValue =>
                        match modelData !! "visual" with
                        | Some (JNode n) => Some n
                        | _ => None
                        end) entries))
            w)).
Proof.
  induction entries as [|md entries IH]; intros w Hall.
  - destruct w; reflexivity.
  - apply Forall_cons in Hall. destruct Hall as [[v Hv] Hrest].
    cbn [foldl andThen omap list_omap]. unfold removePhysics at 2.
    rewrite Hv. rewrite (IH _ Hrest).
    destruct (md !! "visual") as [[n|b0|str0|part0]|],
      v as [n1|b|str|part]; destruct w; reflexivity.
Qed.

(** X21.  [ModelLoader.removeAll] empties [loadedModels] and takes exactly
    the loader's visuals out of the scene and exactly the loader's bodies
    out of the physics world, in place; everything else, the registry of
    the buildings included, is as before.  The fragments of damaged
    buildings, which the loader does not hold, stay. *)
Theorem removeAll_removes_loader_objects (w : World) :
  Forall (fun modelData : gmap string JsValue =>
            is_Some (modelData !! "physics")) (loadedModels w) ->
  NoDup (worldBodies w) -> NoDup (sceneChildren w) ->
  removeAll w
  = Normal
      (set_loadedModels []
         (set_worldBodies
            (filter (fun b => b ∉ loaderBodies w) (worldBodies w))
            (set_sceneChildren
               (filter (fun n => n ∉ loaderVisuals w) (sceneChildren w))
               w))).
Proof.
  intros Hall Hb Hn. unfold removeAll.
  rewrite (removeAll_loop (loadedModels w) w Hall). cbn [andThen].
  fold (loaderBodies w). fold (loaderVisuals w).
  rewrite (removeAll_filter (loaderBodies w) _ Hb).
  rewrite (removeAll_filter (loaderVisuals w) _ Hn). reflexivity.
Qed.

Lemma removeAll_removes_loader_objects_witness :
  let w := ruinedWorld (Vec3 0 0.4 0) in
  removeAll w
  = Normal
      (set_loadedModels []
         (set_worldBodies
            (filter (fun b => b ∉ loaderBodies w) (worldBodies w))
            (set_sceneChildren
               (filter (fun n => n ∉ loaderVisuals w) (sceneChildren w))
               w))).
Proof.
  intros w. apply (removeAll_removes_loader_objects w).
  - assert (Hmodels :
      loadedModels w
      = [ {[ "visual" := JNode 1%nat; "physics" := JBody 0%nat;
             "path" := JString "./assets/casa_0.glb" ]};
          {[ "visual" := JNode 2%nat; "physics" := JBody 1%nat;
             "path" := JString "./assets/casa_0_cracked.glb" ]} ])
      by (vm_compute; reflexivity).
    rewrite Hmodels.
    repeat constructor; eexists; reflexivity.
  - apply (bool_decide_unpack _). vm_compute. exact I.
  - apply (bool_decide_unpack _). vm_compute. exact I.
Defined.

(** X22.  [ModelLoader.remove] of an entry of [loadedModels] takes that
    entry out of the array, its visual out of the scene and its body out of
    the physics world, and nothing else; removing the same object again
    changes nothing. *)
Theorem remove_entry_once (k : nat) (modelData : gmap string JsValue)
    (n : NodeId) (b : BodyId) (w : World) :
  loadedModels w !! k = Some modelData ->
  modelData !! "visual" = Some (JNode n) ->
  modelData !! "physics" = Some (JBody b) ->
  NoDup (worldBodies w) -> NoDup (sceneChildren w) ->
  let w' :=
    set_loadedModels (delete k (loadedModels w))
      (set_worldBodies (filter (fun x => x <> b) (worldBodies w))
         (set_sceneChildren (filter (fun x => x <> n) (sceneChildren w)) w))
  in
  remove (Entry k) w = Normal w'
  /\ remove (Foreign modelData) w' = Normal w'.
Proof.
  intros Hk Hv Hp Hb Hn. cbv zeta. split.
  - unfold remove. rewrite Hk. unfold removePhysics. rewrite Hv, Hp.
    cbn [andThen sceneRemove worldRemoveBody]. cbn.
    rewrite (removeFirst_filter n _ Hn), (removeFirst_filter b _ Hb).
    reflexivity.
  - unfold remove, removePhysics. rewrite Hv, Hp.
    cbn [sceneRemove worldRemoveBody]. cbn.
    rewrite !removeFirst_absent; [destruct w; reflexivity| |].
    + intros Hin. apply list_elem_of_filter in Hin. now destruct Hin.
    + intros Hin. apply list_elem_of_filter in Hin. now destruct Hin.
Qed.

Lemma remove_entry_once_witness :
  let w := ruinedWorld (Vec3 0 0.4 0) in
  let modelData : gmap string JsValue :=
    {[ "visual" := JNode 1%nat; "physics" := JBody 0%nat;
       "path" := JString "./assets/casa_0.glb" ]} in
  let w' :=
    set_loadedModels (delete 0%nat (loadedModels w))
      (set_worldBodies (filter (fun x => x <> 0%nat) (worldBodies w))
         (set_sceneChildren (filter (fun x => x <> 1%nat) (sceneChildren w))
            w))
  in
  remove (Entry 0) w = Normal w'
  /\ remove (Foreign modelData) w' = Normal w'.
Proof.
  intros w modelData.
  apply (remove_entry_once 0 modelData 1 0 w).
  - vm_compute. reflexivity.
  - vm_compute. reflexivity.
  - vm_compute. reflexivity.
  - apply (bool_decide_unpack _). vm_compute. exact I.
  - apply (bool_decide_unpack _). vm_compute. exact I.
Defined.

End RemoveFacts.

(** * The fragments of a damaged building *)

Module FragmentFacts.
Import Three TornadoField Registry Scenarios Runtime RegistryFacts
  PlacementFacts.
Local Open Scope R_scope.

Lemma writeBuilding_fields (id : string) (stamp : nat)
    (f : Building -> Building) (w : World) :
  nodes (writeBuilding id stamp f w) = nodes w
  /\ bodies (writeBuilding id stamp f w) = bodies w
  /\ sceneChildren (writeBuilding id stamp f w) = sceneChildren w
  /\ worldBodies (writeBuilding id stamp f w) = worldBodies w.
Proof.
  unfold writeBuilding.
  destruct (objGet id (buildingVisuals w)); [destruct (decide _)|];
    repeat split.
Qed.

Lemma fragmentReady_frame (mass : R) (w w' : World) (part : DebrisPart) :
  nodes w' !! mesh part = nodes w !! mesh part ->
  bodies w' !! body part = bodies w !! body part ->
  (mesh part ∈ sceneChildren w -> mesh part ∈ sceneChildren w') ->
  (body part ∈ worldBodies w -> body part ∈ worldBodies w') ->
  fragmentReady mass w part -> fragmentReady mass w' part.
Proof.
  intros Hn Hb Hs Hw (nd & physics & H1 & H2 & H3 & H4 & H5 & H6 & H7).
  exists nd, physics. rewrite Hn, Hb.
  repeat (split; [assumption|]). split; auto.
Qed.

(** One fragment is made. *)
Lemma makeDebris_fragment (buildingId : string) (root : NodeId)
    (position : Vector3) (quaternion : Quaternion) (mass : R)
    (child : NodeId) (w : World) (b : Building) :
  isMeshNode w child ->
  objGet buildingId (buildingVisuals w) = Some b ->
  exists w' part,
    makeDebris buildingId (buildingStamp b) root position quaternion mass
      child w = Normal w'
    /\ mesh part = child
    /\ objGet buildingId (buildingVisuals w')
       = Some (set_crackedBodies b (crackedBodies b ++ [part]))
    /\ fragmentReady mass w' part
    /\ (forall c, isMeshNode w c -> isMeshNode w' c)
    /\ (forall p, mesh p <> child -> mesh p <> root ->
                  fragmentReady mass w p -> fragmentReady mass w' p).
Proof.
  intros (nd & md & Hnd & Hmd) Hb. unfold makeDebris.
  rewrite Hnd, Hmd.
  destruct (worldOf md position quaternion) as [[worldPos worldQuat]
    worldScale].
  cbv zeta. unfold allocBody.
  match goal with
  | |- context [writeBuilding _ _ ?f (worldAddBody ?pb ?w0)] =>
      set (w1 := w0); set (g := f)
  end.
  cbn [fst snd].
  set (wfinal := worldAddBody (length (bodies _)) w1).
  assert (Hlen : (child < length (nodes w))%nat)
    by (eapply lookup_lt_Some; exact Hnd).
  assert (Hbv : buildingVisuals wfinal = buildingVisuals w).
  { unfold wfinal. now rewrite (proj1 (buildingVisuals_worldAddBody _ _)). }
  assert (Hnodes : nodes wfinal = nodes w1).
  { unfold wfinal. now rewrite (proj2 (buildingVisuals_worldAddBody _ _)). }
  assert (Hbodies : bodies wfinal = bodies w1).
  { unfold wfinal, worldAddBody. destruct (decide _); reflexivity. }
  assert (Hscene : sceneChildren wfinal = sceneChildren w1).
  { unfold wfinal, worldAddBody. destruct (decide _); reflexivity. }
  assert (Hworld : forall x, x ∈ worldBodies w -> x ∈ worldBodies wfinal).
  { intros x Hx. unfold wfinal, worldAddBody.
    destruct (decide _); cbn; [exact Hx|].
    apply elem_of_app. now left. }
  assert (Hnew : length (bodies w) ∈ worldBodies wfinal).
  { unfold wfinal, worldAddBody.
    destruct (decide _) as [Hin|Hnin]; cbn; [exact Hin|].
    apply elem_of_app. right. now apply list_elem_of_singleton. }
  destruct (writeBuilding_fields buildingId (buildingStamp b) g wfinal)
    as (Hn2 & Hb2 & Hs2 & Hw2).
  rewrite <- Hbv in Hb.
  destruct (writeBuilding_hit buildingId g wfinal b Hb) as [Hget _].
  eexists _, (mkDebrisPart child (length (bodies w))).
  split; [reflexivity|]. split; [reflexivity|]. split; [exact Hget|].
  split; [|split].
  - unfold fragmentReady. cbn [mesh body].
    rewrite Hn2, Hb2, Hs2, Hw2, Hnodes, Hbodies, Hscene.
    unfold w1. cbn [nodes bodies sceneChildren set_bodies set_nodes sceneAdd
                     set_sceneChildren].
    eexists _, _. split.
    { apply list_lookup_insert_eq. now rewrite length_alter. }
    split. { apply list_lookup_middle. reflexivity. }
    split; [reflexivity|]. split; [reflexivity|]. split; [reflexivity|].
    split; [|exact Hnew].
    apply elem_of_app. right. now apply list_elem_of_singleton.
  - intros c Hc. unfold isMeshNode. rewrite Hn2, Hnodes. unfold w1.
    cbn [nodes set_bodies set_nodes sceneAdd set_sceneChildren].
    eapply mesh_lookup_insert; [reflexivity| |].
    + now rewrite length_alter.
    + apply mesh_lookup_alter; [reflexivity | exact Hc].
  - intros p Hpc Hpr Hready.
    apply (fragmentReady_frame mass w _ p); [| | | |exact Hready].
    + rewrite Hn2, Hnodes. unfold w1.
      cbn [nodes set_bodies set_nodes sceneAdd set_sceneChildren].
      rewrite list_lookup_insert_ne by congruence.
      now rewrite list_lookup_alter_ne by congruence.
    + rewrite Hb2, Hbodies. unfold w1. cbn [bodies set_bodies].
      destruct Hready as (_ & physics & _ & Hphys & _).
      rewrite lookup_app_l; [reflexivity|].
      eapply lookup_lt_Some. exact Hphys.
    + intros Hin. rewrite Hs2, Hscene. unfold w1.
      cbn [sceneChildren set_bodies set_nodes sceneAdd set_sceneChildren].
      apply elem_of_app. left. now apply elem_of_removeFirst_ne.
    + intros Hin. rewrite Hw2. now apply Hworld.
Qed.

Lemma debrisLoop_fragments (buildingId : string) (root : NodeId)
    (position : Vector3) (quaternion : Quaternion) (mass : R)
    (stamp : nat) (todo : list NodeId) :
  forall (w : World) (b : Building),
  buildingStamp b = stamp ->
  objGet buildingId (buildingVisuals w) = Some b ->
  Forall (isMeshNode w) todo -> NoDup todo -> root ∉ todo ->
  (forall p, p ∈ crackedBodies b -> (mesh p ∉ todo) /\ mesh p <> root) ->
  Forall (fragmentReady mass w) (crackedBodies b) ->
  exists w' b',
    foldl (fun r child =>
             andThen r (makeDebris buildingId stamp root position quaternion
                          mass child))
      (Normal w) todo = Normal w'
    /\ objGet buildingId (buildingVisuals w') = Some b'
    /\ mesh <$> crackedBodies b' = (mesh <$> crackedBodies b) ++ todo
    /\ Forall (fragmentReady mass w') (crackedBodies b').
Proof.
  induction todo as [|child todo IH];
    intros w b Hst Hb Hall Hnd Hroot Hapart Hready.
  - exists w, b. cbn. rewrite app_nil_r. repeat split; assumption.
  - apply Forall_cons in Hall. destruct Hall as [Hchild Hrest].
    apply NoDup_cons in Hnd. destruct Hnd as [Hfresh Hnd].
    apply not_elem_of_cons in Hroot. destruct Hroot as [Hrc Hroot].
    subst stamp.
    destruct (makeDebris_fragment buildingId root position quaternion mass
                child w b Hchild Hb)
      as (w1 & part & Hrun & Hpart & Hb1 & Hnew & Hkeep & Hold).
    cbn [foldl andThen]. rewrite Hrun.
    destruct (IH w1 (set_crackedBodies b (crackedBodies b ++ [part]))
                eq_refl Hb1) as (w' & b' & Hloop & Hb' & Hm & Hready').
    + eapply Forall_impl; [exact Hrest | exact Hkeep].
    + exact Hnd.
    + exact Hroot.
    + intros p Hp. cbn in Hp. apply elem_of_app in Hp.
      destruct Hp as [Hp|Hp].
      * destruct (Hapart p Hp) as [H1 H2]. split; [|exact H2].
        intros Hin. apply H1. now right.
      * apply list_elem_of_singleton in Hp. subst p. rewrite Hpart.
        split; [exact Hfresh | congruence].
    + cbn. apply Forall_app. split.
      * apply Forall_forall. intros p Hp. rewrite Forall_forall in Hready.
        destruct (Hapart p Hp) as [H1 H2].
        apply Hold; [|exact H2|now apply Hready].
        intros Heq. apply H1. rewrite Heq. left.
      * constructor; [exact Hnew | constructor].
    + exists w', b'. split; [exact Hloop|]. split; [exact Hb'|].
      split; [|exact Hready'].
      rewrite Hm. cbn. rewrite fmap_app. cbn. rewrite Hpart.
      now rewrite <- app_assoc.
Qed.

Lemma onCracked_fragments (buildingId : string) (position : Vector3)
    (quaternion : Quaternion) (mass : R)
    (crackedData : gmap string JsValue) (root : NodeId) (rootNode : Node)
    (w : World) (b : Building) :
  crackedData !! "visual" = Some (JNode root) ->
  crackedData !! "body" = None ->
  objGet buildingId (buildingVisuals w) = Some b ->
  nodes w !! root = Some rootNode ->
  Forall (isMeshNode w) (nmeshes rootNode) ->
  NoDup (nmeshes rootNode) -> root ∉ nmeshes rootNode ->
  exists w' b',
    onCracked buildingId (buildingStamp b) position quaternion mass
      crackedData w = Normal w'
    /\ objGet buildingId (buildingVisuals w') = Some b'
    /\ mesh <$> crackedBodies b' = nmeshes rootNode
    /\ Forall (fragmentReady mass w') (crackedBodies b').
Proof.
  intros Hvis Hbody Hb Hroot Hall Hnd Hrn. unfold onCracked.
  rewrite Hvis, Hbody. cbv zeta. unfold removeBodyIf.
  destruct (writeBuilding_hit buildingId
              (fun b0 => set_visual b0 (Some (JNode root))) w b Hb)
    as (Hb1 & Hn1).
  set (w1 := writeBuilding buildingId (buildingStamp b) _ w) in *.
  set (w2 := setNodeTransform root position quaternion w1).
  assert (Hb2 : objGet buildingId (buildingVisuals w2)
                = Some (set_visual b (Some (JNode root)))) by exact Hb1.
  destruct (writeBuilding_hit buildingId
              (fun b0 => set_crackedBodies b0 []) w2 _ Hb2) as (Hb3 & Hn3).
  cbn [buildingStamp set_visual] in Hb3, Hn3.
  set (w3 := writeBuilding buildingId (buildingStamp b) _ w2) in *.
  assert (Hnodes3 : nodes w3
                    = alter (fun nd => mkNode position quaternion (nscale nd)
                                         (nvisible nd) (nmesh nd)
                                         (nmeshes nd)) root (nodes w)).
  { rewrite Hn3. unfold w2, setNodeTransform. cbn [nodes set_nodes].
    now rewrite Hn1. }
  assert (Hroot3 : nodes w3 !! root
                   = Some (mkNode position quaternion (nscale rootNode)
                             (nvisible rootNode) (nmesh rootNode)
                             (nmeshes rootNode))).
  { rewrite Hnodes3, list_lookup_alter_eq, Hroot. reflexivity. }
  rewrite Hroot3. cbn [nmeshes].
  destruct (debrisLoop_fragments buildingId root position quaternion mass
              (buildingStamp b) (nmeshes rootNode) w3
              (set_crackedBodies (set_visual b (Some (JNode root))) [])
              eq_refl Hb3)
    as (w' & b' & Hloop & Hb' & Hm & Hready); try assumption.
  - eapply Forall_impl; [exact Hall|]. intros c Hc. unfold isMeshNode.
    rewrite Hnodes3. apply mesh_lookup_alter; [reflexivity | exact Hc].
  - intros p Hp. inversion Hp.
  - constructor.
  - exists w', b'. split; [exact Hloop|]. split; [exact Hb'|].
    split; [exact Hm | exact Hready].
Qed.

Lemma onGltfLoaded_fragments (req : LoadRequest) (asset : Asset) (w : World)
    (buildingId : string) (b : Building) (position : Vector3)
    (quaternion : Quaternion) (mass : R) :
  loadOnLoad req
  = Some (OnCracked buildingId (buildingStamp b) position quaternion mass) ->
  objGet buildingId (buildingVisuals w) = Some b ->
  exists w' b',
    onGltfLoaded req asset w = Normal w'
    /\ objGet buildingId (buildingVisuals w') = Some b'
    /\ mesh <$> crackedBodies b'
       = seq (S (length (nodes w))) (length (assetPieces asset))
    /\ Forall (fragmentReady mass w') (crackedBodies b').
Proof.
  intros Hcb Hb. unfold onGltfLoaded, instantiate, allocBody. cbv zeta.
  rewrite Hcb. cbn [runCallback].
  match goal with
  | |- context [onCracked _ _ _ _ _ ?md ?w0] =>
      set (crackedData := md); set (wl := w0)
  end.
  set (root := length (nodes w)).
  set (pieces := _ <$> assetPieces asset).
  set (rootNode := mkNode (loadPosition req) identityQuaternion
                     (Vec3 (loadScale req) (loadScale req) (loadScale req))
                     true None
                     (seq (S root) (length (assetPieces asset)))).
  assert (Hnodes : nodes wl = nodes w ++ rootNode :: pieces).
  { unfold wl. cbn [nodes set_loadedModels].
    now rewrite (proj2 (buildingVisuals_worldAddBody _ _)). }
  assert (Hbl : objGet buildingId (buildingVisuals wl) = Some b).
  { unfold wl. cbn [buildingVisuals set_loadedModels].
    now rewrite (proj1 (buildingVisuals_worldAddBody _ _)). }
  destruct (onCracked_fragments buildingId position quaternion mass
              crackedData root rootNode wl b)
    as (w' & b' & Hrun & Hb' & Hm & Hready).
  - reflexivity.
  - reflexivity.
  - exact Hbl.
  - rewrite Hnodes. apply list_lookup_middle. reflexivity.
  - cbn [nmeshes rootNode]. apply Forall_seq. intros i Hi.
    unfold isMeshNode. rewrite Hnodes.
    assert (Hlt : (i - S root < length (assetPieces asset))%nat) by lia.
    destruct (lookup_lt_is_Some_2 (assetPieces asset) (i - S root) Hlt)
      as (piece & Hpiece).
    exists (mkNode (piecePosition piece) (pieceQuaternion piece)
              (pieceScale piece) true (Some (pieceMesh piece)) []),
      (pieceMesh piece).
    split; [|reflexivity].
    rewrite lookup_app_r by (unfold root in *; lia).
    replace (i - length (nodes w))%nat with (S (i - S root))
      by (unfold root in *; lia).
    change ((rootNode :: pieces) !! S (i - S root)%nat)
      with (pieces !! (i - S root)%nat).
    unfold pieces. rewrite list_lookup_fmap, Hpiece. reflexivity.
  - cbn [nmeshes rootNode]. apply NoDup_seq.
  - cbn [nmeshes rootNode]. intros Hin. apply elem_of_seq in Hin. lia.
  - exists w', b'. split; [exact Hrun|]. split; [exact Hb'|].
    split; [exact Hm | exact Hready].
Qed.

(** X23.  When a building that is not damaged is damaged and the broken
    model loads, the building gets one fragment per mesh of the broken
    model, in the order of the meshes; each fragment's mesh is a child of
    the scene, its body is in the physics world with the debris mass of the
    building's type (10 when the type is not registered), and the body has
    the position and the quaternion of the mesh. *)
Theorem damage_creates_fragments (buildingId : string) (w : World)
    (b : Building) (node : Node) (asset : Asset) :
  objGet buildingId (buildingVisuals w) = Some b -> damaged b = false ->
  nodeOf (visual b) w = Some node ->
  let w' :=
    settleLoad (length (pending w)) (Loaded asset)
      (stateOf (damageBuilding buildingId w)) in
  exists b',
    objGet buildingId (buildingVisuals w') = Some b'
    /\ mesh <$> crackedBodies b'
       = seq (S (length (nodes w))) (length (assetPieces asset))
    /\ Forall (fragmentReady (debrisMassOf w (buildingType b)) w')
         (crackedBodies b').
Proof.
  intros Hb Hd Hn. cbv zeta.
  rewrite (damageBuilding_intact buildingId w b node Hb Hd Hn).
  cbn [stateOf].
  destruct (damagedWorld_pending buildingId b node w)
    as (req & Hp & _ & Hcb).
  rewrite (settleLoad_loaded_last _ req (pending w) asset Hp).
  assert (Hb1 : objGet buildingId
                  (buildingVisuals
                     (set_pending (pending w)
                        (damagedWorld buildingId b node w)))
                = Some (set_damaged b true)).
  { cbn [buildingVisuals set_pending].
    rewrite damagedWorld_buildingVisuals. apply objGet_objSet_eq. }
  destruct (onGltfLoaded_fragments req asset _ buildingId
              (set_damaged b true) _ _ _ Hcb Hb1)
    as (w' & b' & -> & Hb' & Hm & Hready).
  exists b'. split; [exact Hb'|]. split; [|exact Hready].
  rewrite Hm. cbn [nodes set_pending].
  now rewrite (proj1 (damagedWorld_nodes buildingId b node w)).
Qed.

Lemma damage_creates_fragments_witness :
  let w := builtWorld (Vec3 0 0.4 0) in
  let w' :=
    settleLoad (length (pending w)) (Loaded crackedAsset)
      (stateOf (damageBuilding casaId w)) in
  exists b',
    objGet casaId (buildingVisuals w') = Some b'
    /\ mesh <$> crackedBodies b'
       = seq (S (length (nodes w))) (length (assetPieces crackedAsset))
    /\ Forall (fragmentReady
                 (debrisMassOf w (buildingType (casaBuilding (Vec3 0 0.4 0))))
                 w')
         (crackedBodies b').
Proof.
  intros w.
  apply (damage_creates_fragments casaId w (casaBuilding (Vec3 0 0.4 0))
           (casaNode (Vec3 0 0.4 0)) crackedAsset);
    vm_compute; reflexivity.
Defined.

Lemma numberOr_nonzero (x : option R) (d : R) :
  d <> 0 -> numberOr x d <> 0.
Proof.
  intros Hd. unfold numberOr. destruct x as [v|]; [|exact Hd].
  destruct (decide (v = 0)); assumption.
Qed.

(** X27.  The debris mass of a type registered with [addBuilding] is the
    option [debrisMass] when it is given and not 0, and 0.5 otherwise; it
    is never 0, so that the fallback 10 of [damageBuilding] is used only
    for a type that is not registered.  Registering a type does not change
    the debris mass of another. *)
Theorem registered_debrisMass (buildingType intactPath crackedPath : string)
    (optionsDebrisMass : option R) (w : World) :
  let w' :=
    addBuilding buildingType intactPath crackedPath optionsDebrisMass w in
  debrisMassOf w' buildingType = numberOr optionsDebrisMass 0.5
  /\ debrisMassOf w' buildingType <> 0
  /\ (optionsDebrisMass = None \/ optionsDebrisMass = Some 0 ->
      debrisMassOf w' buildingType = 0.5)
  /\ (forall other, other <> buildingType ->
                    debrisMassOf w' other = debrisMassOf w other)
  /\ (forall unknown, buildings w' !! unknown = None ->
                      debrisMassOf w' unknown = 10).
Proof.
  cbv zeta. unfold debrisMassOf, addBuilding. cbn [buildings set_buildings].
  rewrite lookup_insert_eq. cbn [debrisMass].
  assert (Hnz : numberOr optionsDebrisMass 0.5 <> 0)
    by (apply numberOr_nonzero; lra).
  assert (Heq : numberOr (Some (numberOr optionsDebrisMass 0.5)) 10
                = numberOr optionsDebrisMass 0.5).
  { unfold numberOr at 1. now rewrite decide_False. }
  rewrite Heq. split; [reflexivity|]. split; [exact Hnz|]. split; [|split].
  - intros [-> | ->]; cbn; [reflexivity|]. now rewrite decide_True.
  - intros other Hne. now rewrite lookup_insert_ne.
  - intros unknown Hun. now rewrite Hun.
Qed.

End FragmentFacts.

(** * Properties of the placement of objects *)

Module PlacementSystemFacts.
Import Three TornadoField Registry Scenarios Placement RegistryFacts.
Local Open Scope R_scope.

Lemma stored_option (options : gmap string R) (key : string) (d : R) :
  key = "mass" /\ d = 2 \/ key = "friction" /\ d = 0.5
  \/ key = "restitution" /\ d = 0.3 ->
  (options
   ∪ ({[ "mass" := numberOr (options !! "mass") 2;
         "friction" := numberOr (options !! "friction") 0.5;
         "restitution" := numberOr (options !! "restitution") 0.3 ]}
      : gmap string R)) !! key
  = Some (default d (options !! key)).
Proof.
  intros Hkey. rewrite lookup_union.
  destruct (options !! key) as [v|] eqn:Hv.
  - match goal with
    | |- Some v ∪ ?x = _ => destruct x; reflexivity
    end.
  - destruct Hkey as [[-> ->]|[[-> ->]|[-> ->]]]; rewrite Hv; reflexivity.
Qed.

Lemma addAsset_stored (name path : string) (options : gmap string R)
    (p : PlacementSystem) :
  exists stored,
    assets (addAsset name path options p) !! name
    = Some (mkAssetData path stored)
    /\ stored !! "mass" = Some (default 2 (options !! "mass"))
    /\ stored !! "friction" = Some (default 0.5 (options !! "friction"))
    /\ stored !! "restitution"
       = Some (default 0.3 (options !! "restitution"))
    /\ selectedObject (addAsset name path options p) = selectedObject p.
Proof.
  unfold addAsset. cbv zeta. eexists. cbn [assets selectedObject].
  split; [apply lookup_insert_eq|].
  split; [apply stored_option; auto|].
  split; [apply stored_option; auto|].
  split; [apply stored_option; auto|]. reflexivity.
Qed.

(** X28.  [addAsset] stores an option that is given as it is, an explicit 0
    included: the defaults (mass 2, friction 0.5, restitution 0.3) are
    used only for an option that is absent, because the spread of the
    options overwrites them.  Every other option is stored as well. *)
Theorem addAsset_keeps_given_options (name path : string)
    (options : gmap string R) (p : PlacementSystem) :
  exists stored,
    assets (addAsset name path options p) !! name
    = Some (mkAssetData path stored)
    /\ stored !! "mass" = Some (default 2 (options !! "mass"))
    /\ stored !! "friction" = Some (default 0.5 (options !! "friction"))
    /\ stored !! "restitution"
       = Some (default 0.3 (options !! "restitution"))
    /\ (forall key v, options !! key = Some v -> stored !! key = Some v)
    /\ selectedObject (addAsset name path options p) = selectedObject p.
Proof.
  unfold addAsset. cbv zeta. eexists. cbn [assets selectedObject].
  split; [apply lookup_insert_eq|].
  split; [apply stored_option; auto|].
  split; [apply stored_option; auto|].
  split; [apply stored_option; auto|].
  split; [|reflexivity].
  intros key v Hv. rewrite lookup_union, Hv.
  match goal with
  | |- Some v ∪ ?x = _ => destruct x; reflexivity
  end.
Qed.

(** A load without callback that settles. *)
Lemma settle_plain (asset : Asset) (w : World) (l : list LoadRequest)
    (req : LoadRequest) :
  pending w = l ++ [req] -> loadOnLoad req = None ->
  let w2 := settleLoad (length l) (Loaded asset) w in
  bodies w2
  = bodies w
    ++ [createPhysicsBody (loadPosition req) (assetSize asset) (loadMass req)]
  /\ length (bodies w) ∈ worldBodies w2
  /\ length (nodes w) ∈ sceneChildren w2
  /\ loadedModels w2
     = loadedModels w
       ++ [{[ "visual" := JNode (length (nodes w));
              "physics" := JBody (length (bodies w));
              "path" := JString (loadPath req) ]}]
  /\ pending w2 = l
  /\ console w2 = console w.
Proof.
  intros Hp Hcb. cbv zeta.
  rewrite (settleLoad_loaded_last w req l asset Hp).
  unfold onGltfLoaded, instantiate, allocBody. cbv zeta. rewrite Hcb.
  unfold worldAddBody.
  destruct (decide _) as [Hin|Hnin]; cbn.
  - split; [reflexivity|]. split; [exact Hin|].
    split; [|repeat split].
    apply elem_of_app. right. now apply list_elem_of_singleton.
  - split; [reflexivity|].
    split; [apply elem_of_app; right; now apply list_elem_of_singleton|].
    split; [|repeat split].
    apply elem_of_app. right. now apply list_elem_of_singleton.
Qed.

(** X29.  An asset placed from the menu, once its model has loaded, has a
    body in the physics world 5 above the selected point, with the mass
    given to [addAsset] (2 when none was given), and its model is a child of
    the scene and an entry of [loadedModels].  With an explicit mass 0 the
    object is static: the tornado never applies a force to it. *)
Theorem placed_asset_body (name path : string) (options : gmap string R)
    (point : Vector3) (asset : Asset) (p : PlacementSystem) (w : World) :
  selectedObject p = Some point ->
  let mass := default 2 (options !! "mass") in
  let physics :=
    createPhysicsBody (Vec3 (vx point) (vy point + 5) (vz point))
      (assetSize asset) mass in
  let w1 := placeAsset name (addAsset name path options p) w in
  let w2 := settleLoad (length (pending w)) (Loaded asset) w1 in
  length (pending w1) = S (length (pending w))
  /\ bodies w2 = bodies w ++ [physics]
  /\ length (bodies w) ∈ worldBodies w2
  /\ length (nodes w) ∈ sceneChildren w2
  /\ loadedModels w2
     = loadedModels w
       ++ [{[ "visual" := JNode (length (nodes w));
              "physics" := JBody (length (bodies w));
              "path" := JString path ]}]
  /\ pending w2 = pending w
  /\ console w2 = console w
  /\ (mass = 0 -> forall t, modelForces t physics = physics).
Proof.
  intros Hsel. cbv zeta.
  destruct (addAsset_stored name path options p)
    as (stored & Hasset & Hmass & Hfr & Hre & Hsel').
  unfold placeAsset. rewrite Hsel', Hsel, Hasset. cbv zeta.
  cbn [assetOptions assetPath]. rewrite Hmass, Hfr, Hre. cbn [default].
  set (w1 := load _ _ _ _ _ _ _ _ w).
  destruct (settle_plain asset w1 (pending w) _ eq_refl eq_refl)
    as (H1 & H2 & H3 & H4 & H5 & H6).
  split. { unfold w1. cbn. rewrite length_app. cbn. lia. }
  split; [exact H1|]. split; [exact H2|]. split; [exact H3|].
  split; [exact H4|]. split; [exact H5|]. split; [exact H6|].
  intros Hzero t. apply modelForces_static. cbn [bmass createPhysicsBody].
  rewrite Hzero. lra.
Qed.

Lemma placed_asset_body_witness :
  let options : gmap string R := {[ "mass" := 0 ]} in
  let point := Vec3 3 0 4 in
  let p := mkPlacementSystem ∅ (Some point) in
  let w := newWorld in
  let mass := default 2 (options !! "mass") in
  let physics :=
    createPhysicsBody (Vec3 (vx point) (vy point + 5) (vz point))
      (assetSize casaAsset) mass in
  let w1 := placeAsset "coche" (addAsset "coche" "./coche.glb" options p) w in
  let w2 := settleLoad (length (pending w)) (Loaded casaAsset) w1 in
  length (pending w1) = S (length (pending w))
  /\ bodies w2 = bodies w ++ [physics]
  /\ length (bodies w) ∈ worldBodies w2
  /\ length (nodes w) ∈ sceneChildren w2
  /\ loadedModels w2
     = loadedModels w
       ++ [{[ "visual" := JNode (length (nodes w));
              "physics" := JBody (length (bodies w));
              "path" := JString "./coche.glb" ]}]
  /\ pending w2 = pending w
  /\ console w2 = console w
  /\ (mass = 0 -> forall t, modelForces t physics = physics).
Proof.
  intros options point p w.
  apply (placed_asset_body "coche" "./coche.glb" options point casaAsset p w).
  reflexivity.
Defined.

End PlacementSystemFacts.

(** * Properties of the fly camera *)

Module ControlsFacts.
Import Controls.
Local Open Scope R_scope.

Lemma clamp_range (x : R) :
  - PI / 2 <= Rmax (- PI / 2) (Rmin (PI / 2) x) <= PI / 2.
Proof.
  pose proof PI_RGT_0 as Hpi. split.
  - apply Rmax_l.
  - apply Rmax_lub; [lra | apply Rmin_l].
Qed.

(** What every handler keeps: the camera, once a drag has set it, shows the
    current angles. *)
Lemma handle_view (c : MovementControls) (e : Event) (z0 : R) :
  - PI / 2 <= eulerX c <= PI / 2 -> eulerZ c = z0 ->
  (cameraOrientation c = Initial
   \/ cameraOrientation c = FromEuler (eulerX c) (eulerY c) z0) ->
  - PI / 2 <= eulerX (handle c e) <= PI / 2
  /\ eulerZ (handle c e) = z0
  /\ (cameraOrientation (handle c e) = Initial
      \/ cameraOrientation (handle c e)
         = FromEuler (eulerX (handle c e)) (eulerY (handle c e)) z0).
Proof.
  intros Hx Hz Hcam. destruct e as [button x y|button|x y|code|code];
    cbn [handle].
  - unfold onPointerDown. destruct (decide _); cbn; auto.
  - unfold onPointerUp. destruct (decide _); cbn; auto.
  - unfold onPointerMove. destruct (scrollPressed c); [|auto]. cbn.
    split; [apply clamp_range|]. split; [exact Hz|]. right. now rewrite Hz.
  - unfold onKeyDown, setKey. repeat (destruct (decide _)); cbn; auto.
  - unfold onKeyUp, setKey. repeat (destruct (decide _)); cbn; auto.
Qed.

(** X24.  Whatever the user does, the pitch of the fly camera stays between
    -90 and +90 degrees, the roll is never changed, and once a drag has
    turned the camera its orientation is the one of the current angles. *)
Theorem pitch_stays_clamped (events : list Event) (x y z : R) :
  - PI / 2 <= x <= PI / 2 ->
  let c := handleAll events (new_MovementControls x y z) in
  - PI / 2 <= eulerX c <= PI / 2
  /\ eulerZ c = z
  /\ (cameraOrientation c = Initial
      \/ cameraOrientation c = FromEuler (eulerX c) (eulerY c) z).
Proof.
  intros Hx. cbv zeta. unfold handleAll.
  assert (H0 : - PI / 2 <= eulerX (new_MovementControls x y z) <= PI / 2
               /\ eulerZ (new_MovementControls x y z) = z
               /\ (cameraOrientation (new_MovementControls x y z) = Initial
                   \/ cameraOrientation (new_MovementControls x y z)
                      = FromEuler (eulerX (new_MovementControls x y z))
                          (eulerY (new_MovementControls x y z)) z))
    by (cbn; auto).
  revert H0. generalize (new_MovementControls x y z).
  induction events as [|e events IH]; intros c H0; [exact H0|].
  cbn [foldl]. apply IH. destruct H0 as (H1 & H2 & H3).
  now apply handle_view.
Qed.

Lemma pitch_stays_clamped_witness :
  let c :=
    handleAll [PointerDown 1 100 100; PointerMove 100 (-5000);
               PointerUp 1; KeyDown "KeyW"]
      (new_MovementControls 0 0 0) in
  - PI / 2 <= eulerX c <= PI / 2
  /\ eulerZ c = 0
  /\ (cameraOrientation c = Initial
      \/ cameraOrientation c = FromEuler (eulerX c) (eulerY c) 0).
Proof.
  apply (pitch_stays_clamped
           [PointerDown 1 100 100; PointerMove 100 (-5000); PointerUp 1;
            KeyDown "KeyW"] 0 0 0).
  pose proof PI_RGT_0. lra.
Defined.

(** X25.  The view turns only during a drag with the middle button: while
    no such drag is on and none starts, no event changes the angles or the
    camera. *)
Theorem look_needs_middle_button (events : list Event)
    (c : MovementControls) :
  scrollPressed c = false -> Forall (fun e => ~ startsDrag e) events ->
  let c' := handleAll events c in
  scrollPressed c' = false
  /\ (eulerX c', eulerY c', eulerZ c', cameraOrientation c')
     = (eulerX c, eulerY c, eulerZ c, cameraOrientation c).
Proof.
  cbv zeta. unfold handleAll. revert c.
  induction events as [|e events IH]; intros c Hp Hall; [auto|].
  apply Forall_cons in Hall. destruct Hall as [He Hall]. cbn [foldl].
  assert (Hstep : scrollPressed (handle c e) = false
                  /\ (eulerX (handle c e), eulerY (handle c e),
                      eulerZ (handle c e), cameraOrientation (handle c e))
                     = (eulerX c, eulerY c, eulerZ c, cameraOrientation c)).
  { destruct e as [button x y|button|x y|code|code]; cbn [handle].
    - unfold onPointerDown. cbn in He.
      destruct (decide _); [contradiction | auto].
    - unfold onPointerUp. destruct (decide _); cbn; auto.
    - unfold onPointerMove. rewrite Hp. auto.
    - unfold onKeyDown, setKey. repeat (destruct (decide _)); cbn; auto.
    - unfold onKeyUp, setKey. repeat (destruct (decide _)); cbn; auto. }
  destruct Hstep as [Hp1 Heq]. destruct (IH (handle c e) Hp1 Hall) as [H1 H2].
  split; [exact H1|]. now rewrite H2.
Qed.

Lemma look_needs_middle_button_witness :
  let c := new_MovementControls 0.1 0.2 0 in
  let c' :=
    handleAll [PointerDown 0 10 10; PointerMove 300 400; KeyDown "Space";
               PointerUp 0; PointerMove 5 5] c in
  scrollPressed c' = false
  /\ (eulerX c', eulerY c', eulerZ c', cameraOrientation c')
     = (eulerX c, eulerY c, eulerZ c, cameraOrientation c).
Proof.
  intros c.
  apply (look_needs_middle_button
           [PointerDown 0 10 10; PointerMove 300 400; KeyDown "Space";
            PointerUp 0; PointerMove 5 5] c).
  - reflexivity.
  - repeat constructor; cbn; try tauto; discriminate.
Defined.

Lemma default_default (flag : bool) (first later : option bool) :
  default (default flag first) later
  = default flag (match later with Some v => Some v | None => first end).
Proof. destruct later; reflexivity. Qed.

Lemma setKey_flags (code : string) (value : bool) (c : MovementControls) :
  flagsOf (setKey code value c)
  = zip_with (fun flag codes =>
                if decide (code ∈ codes) then value else flag)
      (flagsOf c) keysOf.
Proof.
  unfold setKey, flagsOf, keysOf. cbv zeta.
  destruct (decide (code = "KeyW")) as [->|H1]; [reflexivity|].
  destruct (decide (code = "KeyS")) as [->|H2]; [reflexivity|].
  destruct (decide (code = "KeyA")) as [->|H3]; [reflexivity|].
  destruct (decide (code = "KeyD")) as [->|H4]; [reflexivity|].
  destruct (decide (code = "Space")) as [->|H5]; [reflexivity|].
  destruct (decide (code = "ShiftLeft" \/ code = "KeyC")) as [[->| ->]|H6];
    [reflexivity|reflexivity|].
  cbn [zip_with].
  rewrite !decide_False; [reflexivity|..]; intros Hin;
    rewrite ?elem_of_cons, elem_of_nil in Hin; tauto.
Qed.

Lemma handle_flags (e : Event) (c : MovementControls) :
  flagsOf (handle c e)
  = zip_with (fun flag codes => default flag (lastKey codes [e]))
      (flagsOf c) keysOf.
Proof.
  destruct e as [button x y|button|x y|code|code]; cbn [handle lastKey].
  - unfold onPointerDown. destruct (decide _); reflexivity.
  - unfold onPointerUp. destruct (decide _); reflexivity.
  - unfold onPointerMove. destruct (scrollPressed c); reflexivity.
  - unfold onKeyDown. rewrite setKey_flags. unfold flagsOf, keysOf.
    cbn [zip_with]. repeat (destruct (decide (code ∈ _))); reflexivity.
  - unfold onKeyUp. rewrite setKey_flags. unfold flagsOf, keysOf.
    cbn [zip_with]. repeat (destruct (decide (code ∈ _))); reflexivity.
Qed.

(** X26.  Each of the six movement flags shows the last key event on its
    keys: set by a press, cleared by a release, untouched by every other
    event.  Left Shift and C share the flag [moveDown], so that releasing
    one of them stops the descent although the other is still held. *)
Theorem keys_track_last_event (events : list Event) (c : MovementControls) :
  flagsOf (handleAll events c)
  = zip_with (fun flag codes => default flag (lastKey codes events))
      (flagsOf c) keysOf.
Proof.
  unfold handleAll. revert c.
  induction events as [|e events IH]; intros c; [reflexivity|].
  cbn [foldl]. rewrite IH, handle_flags. unfold flagsOf, keysOf.
  cbn [zip_with lastKey].
  rewrite !default_default. repeat f_equal;
    match goal with
    | |- context [lastKey ?codes events] =>
        destruct (lastKey codes events); reflexivity
    end.
Qed.

End ControlsFacts.
